(** * Capital One Hackathon IVR pipeline: specification checks

    A shallow embedding of the coordination code of the agricultural IVR
    pipeline (file watcher, recording pipeline, weather date validation,
    orchestrator, transcript monitor and response delivery), with the
    properties of its written specification stated and settled against it.

    Conventions.
    - A Python [str] is a list of Unicode code points ([pystr]); identifiers
      that the code only compares (file names, language codes, agent tags)
      are Rocq strings.
    - External services (speech-to-text, translation providers, the LLM, the
      specialists, the TTS provider, the file system) are oracles: arguments
      of the embedded functions.  A call that may raise returns an [outcome].
    - Code that logs or calls a service returns its event trace next to its
      result, so that the order and number of calls can be stated. *)

From Stdlib Require Import ZArith NArith Lia List Bool String Ascii.
From stdpp Require Import base option list strings gmap.
Import ListNotations.

Local Open Scope Z_scope.

(** ** Python strings *)

Module PyStr.

(** A Python [str]: a sequence of code points. *)
Definition pystr := list N.

Definition of_ascii (s : string) : pystr :=
  map (fun a => N_of_ascii a) (list_ascii_of_string s).

(** [len(s)] *)
Definition len (s : pystr) : Z := Z.of_nat (length s).

(** Truthiness of a string: [if s:] *)
Definition truthy (s : pystr) : bool :=
  match s with [] => false | _ :: _ => true end.

Definition eqb (a b : pystr) : bool := bool_decide (a = b).

(** Lone surrogates cannot be encoded: [s.encode('utf-8')] raises
    [UnicodeEncodeError] on them. *)
Definition is_surrogate (c : N) : bool :=
  ((0xD800 <=? c) && (c <=? 0xDFFF))%N.

Definition encodable (s : pystr) : bool :=
  forallb (fun c => negb (is_surrogate c)) s.

(** Number of bytes of one code point in UTF-8. *)
Definition utf8_len_char (c : N) : Z :=
  if (c <? 0x80)%N then 1
  else if (c <? 0x800)%N then 2
  else if (c <? 0x10000)%N then 3
  else 4.

(** [len(s.encode('utf-8'))], for an encodable [s]. *)
Definition utf8_size (s : pystr) : Z :=
  fold_right (fun c acc => utf8_len_char c + acc) 0 s.

(** [str.isspace] on one code point (CPython's [Py_UNICODE_ISSPACE]). *)
Definition isspace (c : N) : bool :=
  (((0x09 <=? c) && (c <=? 0x0D))
   || ((0x1C <=? c) && (c <=? 0x20))
   || (c =? 0x85) || (c =? 0xA0) || (c =? 0x1680)
   || ((0x2000 <=? c) && (c <=? 0x200A))
   || (c =? 0x2028) || (c =? 0x2029) || (c =? 0x202F)
   || (c =? 0x205F) || (c =? 0x3000))%N.

Fixpoint lstrip (s : pystr) : pystr :=
  match s with
  | c :: r => if isspace c then lstrip r else s
  | [] => []
  end.

Definition rstrip (s : pystr) : pystr := rev (lstrip (rev s)).

(** [s.strip()] *)
Definition strip (s : pystr) : pystr := rstrip (lstrip s).

(** [s.startswith(p)] *)
Fixpoint starts_with (p s : pystr) : bool :=
  match p, s with
  | [], _ => true
  | a :: p', b :: s' => (a =? b)%N && starts_with p' s'
  | _ :: _, [] => false
  end.

(** [s.split(sep)] for a non-empty separator: scan left to right, cut at
    every non-overlapping occurrence.  [cur] holds the current piece in
    reverse; [skip] counts separator characters still to be dropped. *)
Fixpoint split_go (sep : pystr) (skip : nat) (cur : pystr) (s : pystr)
  : list pystr :=
  match s with
  | [] => [rev cur]
  | c :: r =>
      match skip with
      | S k => split_go sep k cur r
      | O =>
          if starts_with sep s
          then rev cur :: split_go sep (length sep - 1) [] r
          else split_go sep O (c :: cur) r
      end
  end.

Definition split (sep s : pystr) : list pystr := split_go sep O [] s.

(** [sep.join(parts)] *)
Fixpoint join (sep : pystr) (parts : list pystr) : pystr :=
  match parts with
  | [] => []
  | [p] => p
  | p :: rest => p ++ sep ++ join sep rest
  end.

(** [seq[-1]] of a non-empty list ([d] is never returned for the lists
    [split] produces, which are non-empty). *)
Definition last_of (l : list pystr) (d : pystr) : pystr := List.last l d.

(** [s.split()]: cut at runs of whitespace, drop the empty pieces.
    [cur] holds the current piece in reverse. *)
Fixpoint split_ws_go (cur : pystr) (s : pystr) : list pystr :=
  match s with
  | [] => if truthy cur then [rev cur] else []
  | c :: r =>
      if isspace c then
        if truthy cur then rev cur :: split_ws_go [] r else split_ws_go [] r
      else split_ws_go (c :: cur) r
  end.

Definition split_ws (s : pystr) : list pystr := split_ws_go [] s.

(** [c in s] for a single character. *)
Definition has_char (c : N) (s : pystr) : bool := existsb (N.eqb c) s.

(** [p in s] for a string [p]. *)
Fixpoint contains (p s : pystr) : bool :=
  starts_with p s || match s with [] => false | _ :: r => contains p r end.

Definition space : pystr := [32%N].
Definition dot_space : pystr := [46%N; 32%N].
Definition newline : N := 10%N.

End PyStr.

Import PyStr.

(** ** TTS chunking ([recording_processor.py], [_chunk_text_for_tts]) *)

Module Tts.

(** The innermost loop: a word longer than the budget is cut character by
    character.  State: the chunks emitted so far and [char_chunk]. *)
Definition char_step (max_bytes : Z) (st : list pystr * pystr) (c : N)
  : list pystr * pystr :=
  let '(chunks, char_chunk) := st in
  let test_char_chunk := char_chunk ++ [c] in
  if max_bytes <? utf8_size test_char_chunk then
    ((if truthy char_chunk then chunks ++ [char_chunk] else chunks), [c])
  else (chunks, test_char_chunk).

Definition split_chars (max_bytes : Z) (chunks : list pystr) (word : pystr)
  : list pystr :=
  let '(chunks', char_chunk) :=
    fold_left (char_step max_bytes) word (chunks, []) in
  if truthy char_chunk then chunks' ++ [char_chunk] else chunks'.

(** The word loop.  State: the chunks emitted so far and [word_chunk]. *)
Definition word_step (max_bytes : Z) (st : list pystr * pystr) (word : pystr)
  : list pystr * pystr :=
  let '(chunks, word_chunk) := st in
  let test_word_chunk :=
    if truthy word_chunk then word_chunk ++ space ++ word else word in
  if max_bytes <? utf8_size test_word_chunk then
    if truthy word_chunk then (chunks ++ [strip word_chunk], word)
    else (split_chars max_bytes chunks word, [])
  else (chunks, test_word_chunk).

(** The sentence loop.  State: the chunks emitted so far and
    [current_chunk].  [last_sentence] is [sentences[-1]]; the source
    compares each sentence with it by value. *)
Definition sentence_step (max_bytes : Z) (last_sentence : pystr)
    (st : list pystr * pystr) (sentence : pystr) : list pystr * pystr :=
  let '(chunks, current_chunk) := st in
  let suffix := if eqb sentence last_sentence then [] else dot_space in
  let test_sentence := sentence ++ suffix in
  let test_chunk := current_chunk ++ test_sentence in
  if max_bytes <? utf8_size test_chunk then
    if truthy current_chunk then
      (chunks ++ [strip current_chunk], test_sentence)
    else
      let words := split space sentence in
      let '(chunks', word_chunk) :=
        fold_left (word_step max_bytes) words (chunks, []) in
      if truthy word_chunk then (chunks', word_chunk ++ suffix)
      else (chunks', [])
  else (chunks, test_chunk).

(** [_chunk_text_for_tts(text, max_bytes)].  [None] stands for the
    [UnicodeEncodeError] that the first [text.encode('utf-8')] raises when
    the text holds a lone surrogate; every later [encode] is applied to
    pieces of [text]. *)
Definition _chunk_text_for_tts (text : pystr) (max_bytes : Z)
  : option (list pystr) :=
  if negb (encodable text) then None
  else if utf8_size text <=? max_bytes then Some [text]
  else
    let sentences := split dot_space text in
    let '(chunks, current_chunk) :=
      fold_left (sentence_step max_bytes (last_of sentences []))
                sentences ([], []) in
    Some (if truthy current_chunk then chunks ++ [strip current_chunk]
          else chunks).

(** The default of the [max_bytes] parameter. *)
Definition default_max_bytes : Z := 4500.

End Tts.

(** ** Effects

    A call that may raise returns an [outcome].  Code that calls an external
    service or writes a log line of interest returns the trace of those
    events next to its result. *)

Inductive outcome (A : Type) : Type :=
| Returned (a : A)
| Raised (msg : string).
Arguments Returned {A} a.
Arguments Raised {A} msg.

Inductive level := INFO | WARNING | ERROR.

Inductive event :=
| Log (lvl : level) (what : string)
| ProviderCall (service source target : string) (text : pystr)
| TtsCall (language : string) (chunk : pystr)
| SpecialistCall (agent mode : string)
| SpecialistReturn (agent : string)
| LlmCall (purpose : string)
| ProcessAudioFile (path : string)
| ProcessRecording (path : string)
| WriteFile (path : string)
| ProcessTranscript (filename : string)
| SaveResponse (filename : string)
| SaveAudioMetadata (filename : string)
| CopyForPlayback (filename audio_file : string).

Definition M (A : Type) : Type := (A * list event)%type.

Definition ret {A} (a : A) : M A := (a, []).

Definition bind {A B} (m : M A) (k : A -> M B) : M B :=
  let '(a, t) := m in
  let '(b, t') := k a in
  (b, t ++ t').

Definition emit (e : event) : M unit := (tt, [e]).

#[global] Instance M_ret : MRet M := @ret.
#[global] Instance M_bind : MBind M := fun A B k m => bind m k.

Definition result_of {A} (m : M A) : A := fst m.
Definition trace_of {A} (m : M A) : list event := snd m.

(** ASCII lower-casing of an identifier ([str.lower] on a language code or
    a file suffix). *)
Definition lower_ascii_char (a : ascii) : ascii :=
  let n := nat_of_ascii a in
  if ((65 <=? n) && (n <=? 90))%nat then ascii_of_nat (n + 32) else a.

Fixpoint lower_id (s : string) : string :=
  match s with
  | EmptyString => EmptyString
  | String a r => String (lower_ascii_char a) (lower_id r)
  end.

(** ** Translation ([recording_processor.py], [translate_text] and helpers) *)

Module Translate.

Inductive service := google_cloud | free_google | mymemory | libretranslate | pons.

Definition service_name (s : service) : string :=
  match s with
  | google_cloud => "google_cloud"
  | free_google => "free_google"
  | mymemory => "mymemory"
  | libretranslate => "libretranslate"
  | pons => "pons"
  end.

(** [service_func.__name__] *)
Definition func_name (s : service) : string :=
  match s with
  | google_cloud => "_translate_with_google_cloud"
  | free_google => "_translate_with_free_google"
  | mymemory => "_translate_with_mymemory"
  | libretranslate => "_translate_with_libre"
  | pons => "_translate_with_pons"
  end.

(** What [setup_models] leaves on the processor, and the module flag. *)
Record config := {
  translation_preference : list string;
  translate_client : bool;
  DEEP_TRANSLATOR_AVAILABLE : bool
}.

(** The world outside: [str.lower], and the translator objects of
    deep-translator and of the Google client ([translator s source target
    text] is [Translator(source, target).translate(text)]). *)
Record externals := {
  str_lower : pystr -> pystr;
  translator : service -> string -> string -> pystr -> outcome pystr
}.

(** What a [_translate_with_*] wrapper returns: a dict with
    [success = True], the translated text and the service name, or one with
    [success = False] and, on some paths, no ["service"] key. *)
Inductive service_reply :=
| Translated (text : pystr) (service : string)
| Failed (service : option string).

Definition call_translator (X : externals) (s : service)
    (source target : string) (text : pystr) : M (outcome pystr) :=
  _ ← emit (ProviderCall (service_name s) source target text);
  mret (translator X s source target text).

Definition reply_of (s : service) (r : outcome pystr) : service_reply :=
  match r with
  | Returned t => Translated t (service_name s)
  | Raised _ => Failed (Some (service_name s))
  end.

(** [source_lang == "unknown" or not source_lang] *)
Definition unknown_source (source_lang : string) : bool :=
  String.eqb source_lang "unknown" || String.eqb source_lang "".

Definition _translate_with_free_google (cfg : config) (X : externals)
    (text : pystr) (source_lang target_lang : string) : M service_reply :=
  if negb (DEEP_TRANSLATOR_AVAILABLE cfg) then mret (Failed None)
  else
    r ← call_translator X free_google
          (if unknown_source source_lang then "auto" else source_lang)
          target_lang text;
    mret (reply_of free_google r).

Definition _translate_with_mymemory (cfg : config) (X : externals)
    (text : pystr) (source_lang target_lang : string) : M service_reply :=
  if negb (DEEP_TRANSLATOR_AVAILABLE cfg) then mret (Failed None)
  else
    r ← call_translator X mymemory
          (if unknown_source source_lang then "auto" else source_lang)
          target_lang text;
    mret (reply_of mymemory r).

Definition libre_lang_map (l : string) : option string :=
  if existsb (String.eqb l)
       ["hi"; "bn"; "es"; "fr"; "de"; "it"; "pt"; "ru"; "ja"; "ko";
        "zh"; "ar"; "nl"; "sv"; "en"]
  then Some l else None.

Definition _translate_with_libre (cfg : config) (X : externals)
    (text : pystr) (source_lang target_lang : string) : M service_reply :=
  if negb (DEEP_TRANSLATOR_AVAILABLE cfg) then mret (Failed None)
  else
    let source_code := default "auto" (libre_lang_map source_lang) in
    let target_code := default "en" (libre_lang_map target_lang) in
    r ← call_translator X libretranslate
          (if String.eqb source_code "auto" || String.eqb source_lang "unknown"
           then "auto" else source_code)
          target_code text;
    mret (reply_of libretranslate r).

Definition _translate_with_google_cloud (cfg : config) (X : externals)
    (text : pystr) (source_lang target_lang : string) : M service_reply :=
  if negb (translate_client cfg) then mret (Failed None)
  else
    let text := strip text in
    if negb (truthy text) then mret (Failed None)
    else
      r ← call_translator X google_cloud
            (if unknown_source source_lang || String.eqb source_lang "auto"
             then "auto" else source_lang)
            target_lang text;
      mret (reply_of google_cloud r).

Definition pons_lang_map (l : string) : option string :=
  if String.eqb l "es" then Some "spanish"
  else if String.eqb l "fr" then Some "french"
  else if String.eqb l "de" then Some "german"
  else if String.eqb l "it" then Some "italian"
  else if String.eqb l "pt" then Some "portuguese"
  else if String.eqb l "ru" then Some "russian"
  else if String.eqb l "en" then Some "english"
  else None.

Definition _translate_with_pons (cfg : config) (X : externals)
    (text : pystr) (source_lang target_lang : string) : M service_reply :=
  if negb (DEEP_TRANSLATOR_AVAILABLE cfg) then mret (Failed None)
  else if 500 <? len text then mret (Failed (Some "pons"))
  else
    match pons_lang_map source_lang, pons_lang_map target_lang with
    | Some source_name, Some target_name =>
        r ← call_translator X pons source_name target_name text;
        mret (reply_of pons r)
    | _, _ => mret (Failed (Some "pons"))
    end.

Definition service_func (s : service) :=
  match s with
  | google_cloud => _translate_with_google_cloud
  | free_google => _translate_with_free_google
  | mymemory => _translate_with_mymemory
  | libretranslate => _translate_with_libre
  | pons => _translate_with_pons
  end.

(** *** [_split_text_into_chunks] *)

Definition sentence_endings : list pystr :=
  [[46; 32]; [33; 32]; [63; 32]; [2404; 32]; [2405; 32]; [124]]%N.

(** The first ending [e] with [text[i:i+len(e)] == e], where [s] is
    [text[i:]]. *)
Definition matching_ending (s : pystr) : option pystr :=
  find (fun e => starts_with e s) sentence_endings.

(** The [while i < len(text)] scan.  [skip] is the number of characters
    the index jumps over after an ending; [current_sentence] is kept in
    reverse.  Returns the sentences found and the unfinished rest. *)
Fixpoint find_sentences (skip : nat) (current_sentence : pystr) (s : pystr)
  : list pystr * pystr :=
  match s with
  | [] => ([], rev current_sentence)
  | c :: r =>
      match skip with
      | S k => find_sentences k current_sentence r
      | O =>
          match matching_ending s with
          | Some e =>
              let '(sentences, rest) := find_sentences (length e - 1) [] r in
              (rev (c :: current_sentence) :: sentences, rest)
          | None => find_sentences O (c :: current_sentence) r
          end
      end
  end.

(** Grouping of words into pieces of at most [max_size // 2] characters,
    used when no sentence boundary and no line break was found. *)
Definition group_step (max_size : Z) (st : list pystr * pystr) (word : pystr)
  : list pystr * pystr :=
  let '(sentences, current) := st in
  if len (current ++ word ++ space) <=? max_size / 2
  then (sentences, current ++ word ++ space)
  else ((if truthy current then sentences ++ [strip current] else sentences),
        word ++ space).

Definition group_words (max_size : Z) (words : list pystr) : list pystr :=
  let '(sentences, current) :=
    fold_left (group_step max_size) words ([], []) in
  if truthy current then sentences ++ [strip current] else sentences.

(** A sentence longer than [max_size] is cut at whitespace. *)
Definition long_step (max_size : Z) (st : list pystr * pystr) (word : pystr)
  : list pystr * pystr :=
  let '(chunks, temp_chunk) := st in
  if len (temp_chunk ++ word ++ space) <=? max_size
  then (chunks, temp_chunk ++ word ++ space)
  else ((if truthy temp_chunk then chunks ++ [strip temp_chunk] else chunks),
        word ++ space).

(** The loop that combines sentences into chunks. *)
Definition combine_step (max_size : Z) (st : list pystr * pystr)
    (sentence : pystr) : list pystr * pystr :=
  let '(chunks, current_chunk) := st in
  let sentence := strip sentence in
  if negb (truthy sentence) then st
  else if len (current_chunk ++ sentence ++ space) <=? max_size
  then (chunks, current_chunk ++ sentence ++ space)
  else
    let chunks :=
      if truthy current_chunk then chunks ++ [strip current_chunk] else chunks in
    if max_size <? len sentence
    then fold_left (long_step max_size) (split_ws sentence) (chunks, [])
    else (chunks, sentence ++ space).

(** [text[i:i+max_size] for i in range(0, len(text), max_size)] *)
Fixpoint force_split (fuel : nat) (max_size : nat) (s : pystr) : list pystr :=
  match fuel, s with
  | O, _ | _, [] => []
  | S f, _ => take max_size s :: force_split f max_size (drop max_size s)
  end.

(** [_split_text_into_chunks(text, max_size)].  Its one caller passes
    10000 or 4000, so [max_size] is a positive number. *)
Definition _split_text_into_chunks (text : pystr) (max_size : positive)
  : list pystr :=
  let max_size := Z.pos max_size in
  if len text <=? max_size then [text]
  else
    let '(found, rest) := find_sentences O [] text in
    let sentences :=
      if truthy (strip rest) then found ++ [rest] else found in
    let sentences :=
      if (length sentences <=? 1)%nat then
        if has_char newline text then split [newline] text
        else group_words max_size (split space text)
      else sentences in
    let '(chunks, current_chunk) :=
      fold_left (combine_step max_size) sentences ([], []) in
    let chunks :=
      if truthy (strip current_chunk) then chunks ++ [strip current_chunk]
      else chunks in
    match chunks with
    | [] => force_split (length text) (Z.to_nat max_size) text
    | _ :: _ => chunks
    end.

(** *** [_get_offline_translation] *)

(** What [translate_text] returns: the dict's [translated_text],
    [source_language], [target_language], [success] and, when a provider
    or the identity produced the text, [service]. *)
Record translation := {
  translated_text : pystr;
  source_language : string;
  target_language : string;
  success : bool;
  service_used : option string
}.

Definition simple_translations : list (string * list (pystr * pystr)) :=
  [ ("hi",
     [ (of_ascii "hello", [2344; 2350; 2360; 2381; 2340; 2375]);
       (of_ascii "hello world",
        [2344; 2350; 2360; 2381; 2340; 2375; 32; 2342; 2369; 2344; 2367; 2351; 2366]);
       (of_ascii "how are you",
        [2310; 2346; 32; 2325; 2376; 2360; 2375; 32; 2361; 2376; 2306]);
       (of_ascii "thank you", [2343; 2344; 2381; 2351; 2357; 2366; 2342]);
       (of_ascii "goodbye", [2309; 2354; 2357; 2367; 2342; 2366]);
       (of_ascii "yes", [2361; 2366; 2305]);
       (of_ascii "no", [2344; 2361; 2368; 2306]) ]);
    ("bn",
     [ (of_ascii "hello", [2472; 2478; 2488; 2509; 2453; 2494; 2480]);
       (of_ascii "hello world",
        [2472; 2478; 2488; 2509; 2453; 2494; 2480; 32; 2474; 2499; 2469; 2495; 2476; 2496]);
       (of_ascii "how are you",
        [2438; 2474; 2472; 2495; 32; 2453; 2503; 2478; 2472; 32; 2438; 2459; 2503; 2472]);
       (of_ascii "thank you", [2471; 2472; 2509; 2479; 2476; 2494; 2470]);
       (of_ascii "goodbye", [2476; 2495; 2470; 2494; 2479; 2492]) ]);
    ("en",
     [ (of_ascii "hello", of_ascii "hello");
       (of_ascii "hello world", of_ascii "hello world");
       (of_ascii "how are you", of_ascii "how are you");
       (of_ascii "thank you", of_ascii "thank you");
       (of_ascii "goodbye", of_ascii "goodbye") ]) ]%N.

Definition table_of (lang : string) : option (list (pystr * pystr)) :=
  snd <$> find (fun e => String.eqb (fst e) lang) simple_translations.

(** [d.get(key)] on a dict given by its items in insertion order (keys
    are distinct). *)
Definition dict_get (key : pystr) (items : list (pystr * pystr)) : option pystr :=
  snd <$> find (fun e => eqb (fst e) key) items.

(** [{v: k for k, v in d.items()}]: a later item wins a repeated key, so
    the reversed dict is searched from the last item. *)
Definition reverse_dict (items : list (pystr * pystr)) : list (pystr * pystr) :=
  rev (map (fun e => (snd e, fst e)) items).

Definition _get_offline_translation (X : externals) (text : pystr)
    (source_lang target_lang : string) : translation :=
  let text_lower := strip (str_lower X text) in
  let answer translated ok :=
    {| translated_text := translated; source_language := source_lang;
       target_language := target_lang; success := ok;
       service_used := None |} in
  match table_of target_lang, String.eqb source_lang "en" with
  | Some table, true =>
      let translated := default text (dict_get text_lower table) in
      answer translated (negb (eqb translated text))
  | _, _ =>
      match table_of source_lang, String.eqb target_lang "en" with
      | Some table, true =>
          let translated :=
            default text (dict_get text_lower (reverse_dict table)) in
          answer translated (negb (eqb translated text))
      | _, _ => answer text false
      end
  end.

(** *** [translate_text] *)

(** The services tried, in order. *)
Definition service_of_preference (cfg : config) (service_name : string)
  : list service :=
  if String.eqb service_name "google_cloud" && translate_client cfg
  then [google_cloud]
  else if String.eqb service_name "free_google" && DEEP_TRANSLATOR_AVAILABLE cfg
  then [free_google]
  else if String.eqb service_name "mymemory" && DEEP_TRANSLATOR_AVAILABLE cfg
  then [mymemory]
  else if String.eqb service_name "libretranslate" && DEEP_TRANSLATOR_AVAILABLE cfg
  then [libretranslate]
  else if String.eqb service_name "pons" && DEEP_TRANSLATOR_AVAILABLE cfg
  then [pons]
  else [].

Definition translation_services (cfg : config) : list service :=
  match flat_map (service_of_preference cfg) (translation_preference cfg) with
  | [] =>
      (if translate_client cfg then [google_cloud] else [])
      ++ (if DEEP_TRANSLATOR_AVAILABLE cfg
          then [free_google; mymemory; libretranslate; pons] else [])
  | services => services
  end.

(** The loop over the chunks for one service.  [result] is the function's
    local of that name: the reply of the last provider call, if any.
    Returns [all_success], [translated_chunks] and [result]. *)
Fixpoint translate_chunks (cfg : config) (X : externals) (s : service)
    (source_lang target_lang : string) (text_chunks : list pystr)
    (translated_chunks : list pystr) (result : option service_reply)
  : M (bool * list pystr * option service_reply) :=
  match text_chunks with
  | [] => mret (true, translated_chunks, result)
  | chunk :: rest =>
      if negb (truthy (strip chunk)) then
        translate_chunks cfg X s source_lang target_lang rest
                         (translated_chunks ++ [chunk]) result
      else
        reply ← service_func s cfg X chunk source_lang target_lang;
        match reply with
        | Translated t _ =>
            translate_chunks cfg X s source_lang target_lang rest
                             (translated_chunks ++ [t]) (Some reply)
        | Failed _ => mret (false, translated_chunks, Some reply)
        end
  end.

(** [result.get("service", service_func.__name__)] *)
Definition reply_service (s : service) (reply : service_reply) : string :=
  match reply with
  | Translated _ name => name
  | Failed (Some name) => name
  | Failed None => func_name s
  end.

(** The loop over the services.  Returns [translated_chunks] and
    [successful_service].  When every chunk was blank and no provider was
    called yet, reading [result] raises [UnboundLocalError]; the handler
    goes on to the next service. *)
Fixpoint try_services (cfg : config) (X : externals)
    (source_lang target_lang : string) (text_chunks : list pystr)
    (services : list service)
    (translated_chunks : list pystr) (result : option service_reply)
  : M (list pystr * option string) :=
  match services with
  | [] => mret (translated_chunks, None)
  | s :: rest =>
      r ← translate_chunks cfg X s source_lang target_lang text_chunks [] result;
      let '(all_success, translated_chunks, result) :=
        (r : bool * list pystr * option service_reply) in
      if all_success then
        match result with
        | Some reply => mret (translated_chunks, Some (reply_service s reply))
        | None =>
            try_services cfg X source_lang target_lang text_chunks rest
                         translated_chunks result
        end
      else
        try_services cfg X source_lang target_lang text_chunks rest
                     translated_chunks result
  end.

Definition max_chunk_size (cfg : config) : positive :=
  if existsb (String.eqb "google_cloud") (take 2 (translation_preference cfg))
  then 10000%positive else 4000%positive.

(** [bool(s)] of a service name. *)
Definition truthy_id (s : string) : bool := negb (String.eqb s "").

Definition translate_text (cfg : config) (X : externals) (text : pystr)
    (source_lang target_lang : string) : M translation :=
  if String.eqb source_lang target_lang || negb (truthy (strip text)) then
    mret {| translated_text := text; source_language := source_lang;
            target_language := target_lang; success := true;
            service_used := Some "no_translation_needed" |}
  else
    let text_chunks := _split_text_into_chunks text (max_chunk_size cfg) in
    r ← try_services cfg X source_lang target_lang text_chunks
                     (translation_services cfg) [] None;
    let '(translated_chunks, successful_service) :=
      (r : list pystr * option string) in
    match translated_chunks, successful_service with
    | _ :: _, Some name =>
        if truthy_id name then
          mret {| translated_text := join space translated_chunks;
                  source_language := source_lang;
                  target_language := target_lang; success := true;
                  service_used := Some name |}
        else mret (_get_offline_translation X text source_lang target_lang)
    | _, _ => mret (_get_offline_translation X text source_lang target_lang)
    end.

(** The ["en"] default of [target_lang]. *)
Definition default_target_lang : string := "en".

End Translate.

(** ** Speech output ([recording_processor.py], [text_to_speech],
       [translate_to_language], [generate_multilingual_audio]) *)

Module Audio.

Import Translate.

(** The TTS client and the files written after synthesis.
    [synthesize_speech language chunk] is the provider call made for one
    chunk on behalf of [text_to_speech(text, language)] (it raises when the
    client is missing); [store_audio language n] stands for writing or
    concatenating the [n] segments and the metadata file, and gives the
    path of the audio file. *)
Record externals := {
  synthesize_speech : string -> pystr -> outcome unit;
  store_audio : string -> nat -> outcome string
}.

Fixpoint synthesize_all (A : externals) (language : string)
    (chunks : list pystr) : M (outcome unit) :=
  match chunks with
  | [] => mret (Returned tt)
  | chunk :: rest =>
      _ ← emit (TtsCall language chunk);
      match synthesize_speech A language chunk with
      | Raised e => mret (Raised e)
      | Returned _ => synthesize_all A language rest
      end
  end.

(** [text_to_speech(text, language)]: the path of the audio file, or the
    exception the function re-raises.  With exactly one chunk the source
    synthesises [text] itself. *)
Definition text_to_speech (A : externals) (text : pystr) (language : string)
  : M (outcome string) :=
  match Tts._chunk_text_for_tts text Tts.default_max_bytes with
  | None => mret (Raised "UnicodeEncodeError")
  | Some text_chunks =>
      r ← match text_chunks with
          | [_] => synthesize_all A language [text]
          | _ => synthesize_all A language text_chunks
          end;
      match r with
      | Raised e => mret (Raised e)
      | Returned _ => mret (store_audio A language (length text_chunks))
      end
  end.

(** [translate_to_language(english_text, target_language)]: the
    [success] flag and the [translated_text] of the dict returned. *)
Definition translate_to_language (cfg : config) (X : Translate.externals)
    (english_text : pystr) (target_language : string) : M (bool * pystr) :=
  if String.eqb (lower_id target_language) "en" then mret (true, english_text)
  else
    translation_result ← translate_text cfg X english_text "en" target_language;
    if success translation_result
    then mret (true, translated_text translation_result)
    else mret (false, english_text).

(** The dict [generate_multilingual_audio] returns. *)
Record audio_result := {
  audio_success : bool;
  english_text : pystr;
  spoken_text : option pystr;        (* "translated_text" *)
  audio_target_language : string;    (* "target_language" *)
  audio_file : option string
}.

Definition audio_failure (english_text : pystr) (target_language : string)
  : audio_result :=
  {| audio_success := false; english_text := english_text;
     spoken_text := None; audio_target_language := target_language;
     audio_file := None |}.

Definition generate_multilingual_audio (cfg : config)
    (X : Translate.externals) (A : externals)
    (english_text : pystr) (target_language : string) : M audio_result :=
  r ← (if negb (String.eqb (lower_id target_language) "en")
       then translate_to_language cfg X english_text target_language
       else mret (true, english_text));
  let '(ok, text_to_speak) := (r : bool * pystr) in
  if negb ok then mret (audio_failure english_text target_language)
  else
    audio_path ← text_to_speech A text_to_speak target_language;
    match audio_path with
    | Raised _ => mret (audio_failure english_text target_language)
    | Returned path =>
        mret {| audio_success := true; english_text := english_text;
                spoken_text := Some text_to_speak;
                audio_target_language := target_language;
                audio_file := Some path |}
    end.

End Audio.

(** ** Paths ([pathlib]) *)

Module Path.

Definition chars (s : string) : list ascii := list_ascii_of_string s.
Definition str (l : list ascii) : string := string_of_list_ascii l.

(** Everything after the last ['/'] of [l]. *)
Fixpoint after_last_slash (l cur : list ascii) : list ascii :=
  match l with
  | [] => cur
  | a :: r =>
      if Ascii.eqb a "/"%char then after_last_slash r r
      else after_last_slash r cur
  end.

(** [path.name], also [os.path.basename(path)] *)
Definition name (path : string) : string :=
  str (after_last_slash (chars path) (chars path)).

(** [name.rfind('.')]: the index of the last dot, if any. *)
Fixpoint rfind_dot (l : list ascii) (i : nat) (found : option nat) : option nat :=
  match l with
  | [] => found
  | a :: r =>
      rfind_dot r (S i) (if Ascii.eqb a "."%char then Some i else found)
  end.

(** The index at which the suffix starts: the last dot of the name when
    it is neither the first nor the last character. *)
Definition suffix_start (n : list ascii) : option nat :=
  match rfind_dot n 0%nat None with
  | Some i =>
      if ((0 <? i) && (i <? length n - 1))%nat then Some i else None
  | None => None
  end.

(** [path.suffix] *)
Definition suffix (path : string) : string :=
  let n := chars (name path) in
  match suffix_start n with
  | Some i => str (drop i n)
  | None => ""
  end.

(** [path.stem] *)
Definition stem (path : string) : string :=
  let n := chars (name path) in
  match suffix_start n with
  | Some i => str (take i n)
  | None => str n
  end.

(** [path.with_suffix(s)] *)
Definition with_suffix (path : string) (s : string) : string :=
  let p := chars path in
  let n := chars (name path) in
  let dir := take (length p - length n) p in
  str dir ++ stem path ++ s.

End Path.

(** ** The completeness gate ([is_file_ready], the same text in
       [audio_fetcher.py] and [recording_processor.py]) *)

Module FileReady.

(** What the file system shows for one audio file at one instant: whether
    the file exists, whether its sidecar [<path>.complete] exists, and its
    [st_size] ([None] when [stat] raises). *)
Record probe := {
  file_exists : bool;
  marker_exists : bool;
  st_size : option Z
}.

(** The file as seen [t] seconds after [is_file_ready] was called.  The
    checks made between two [time.sleep] calls see the same instant. *)
Definition world := nat -> probe.

(** The verdict, and the clock (seconds since the call) when it fell. *)
Record verdict := { ready : bool; finished_at : nat }.

Definition msg_checking : string := "Checking file readiness".
Definition msg_marker_found : string := "Found completion marker".
Definition msg_small : string := "File is very small, waiting...".
Definition msg_marker_appeared : string := "Completion marker appeared".
Definition msg_stable : string := "File is stable".
Definition msg_size_changed : string := "File size changed".
Definition msg_inaccessible : string := "File became inaccessible".
Definition msg_not_stable : string := "File did not stabilize within max_wait".
Definition msg_error : string := "Error checking file readiness".

(** The [while total_wait < max_wait] loop; [fuel] is the number of
    iterations left, [clock] the time of the last look at the file. *)
Fixpoint poll (w : world) (stability_time : Z) (fuel : nat) (clock : nat)
    (last_size stable_count : Z) : M verdict :=
  match fuel with
  | O =>
      _ ← emit (Log WARNING msg_not_stable);
      mret {| ready := false; finished_at := clock |}
  | S fuel =>
      let clock := S clock in
      if marker_exists (w clock) then
        _ ← emit (Log INFO msg_marker_appeared);
        mret {| ready := true; finished_at := clock |}
      else
        match st_size (w clock) with
        | None =>
            _ ← emit (Log WARNING msg_inaccessible);
            mret {| ready := false; finished_at := clock |}
        | Some current_size =>
            if current_size =? last_size then
              let stable_count := stable_count + 1 in
              if stability_time <=? stable_count then
                _ ← emit (Log INFO msg_stable);
                mret {| ready := true; finished_at := clock |}
              else poll w stability_time fuel clock last_size stable_count
            else
              _ ← emit (Log INFO msg_size_changed);
              poll w stability_time fuel clock current_size 0
        end
  end.

(** [is_file_ready(filepath, stability_time, max_wait)] *)
Definition is_file_ready (w : world) (stability_time max_wait : Z)
  : M verdict :=
  if negb (file_exists (w O)) then
    mret {| ready := false; finished_at := O |}
  else
    _ ← emit (Log INFO msg_checking);
    if marker_exists (w O) then
      _ ← emit (Log INFO msg_marker_found);
      mret {| ready := true; finished_at := O |}
    else
      match st_size (w O) with
      | None =>
          _ ← emit (Log ERROR msg_error);
          mret {| ready := false; finished_at := O |}
      | Some initial_size =>
          if initial_size <? 1024 then
            _ ← emit (Log INFO msg_small);
            poll w stability_time (Z.to_nat max_wait) 2%nat initial_size 0
          else
            poll w stability_time (Z.to_nat max_wait) 0%nat initial_size 0
      end.

(** The defaults of [stability_time] and [max_wait]. *)
Definition default_stability_time : Z := 5.
Definition default_max_wait : Z := 120.

(** The same file seen from [d] seconds later. *)
Definition later (d : nat) (w : world) : world := fun t => w (d + t)%nat.

End FileReady.

(** ** The recording pipeline ([recording_processor.py],
       [transcribe_audio], [process_recording]) *)

Module Recording.

Import Translate.

(** *** Speech to text *)

Definition google_language_mapping : list (string * string) :=
  [ ("en-us", "en"); ("en-gb", "en"); ("en-au", "en"); ("en-ca", "en");
    ("en-in", "en");
    ("hi-in", "hi"); ("bn-in", "bn"); ("te-in", "te"); ("mr-in", "mr");
    ("ta-in", "ta"); ("gu-in", "gu"); ("ur-in", "ur"); ("kn-in", "kn");
    ("or-in", "or"); ("pa-in", "pa"); ("as-in", "as"); ("ml-in", "ml");
    ("es-es", "es"); ("es-mx", "es"); ("es-us", "es");
    ("fr-fr", "fr"); ("fr-ca", "fr");
    ("de-de", "de"); ("it-it", "it"); ("pt-br", "pt"); ("pt-pt", "pt");
    ("ru-ru", "ru"); ("ja-jp", "ja"); ("ko-kr", "ko");
    ("zh-cn", "zh"); ("zh-tw", "zh"); ("ar-xa", "ar");
    ("nl-nl", "nl"); ("sv-se", "sv") ].

(** [s.split('-')[0]] *)
Fixpoint before_dash (s : string) : string :=
  match s with
  | EmptyString => EmptyString
  | String a r =>
      if Ascii.eqb a "-"%char then EmptyString else String a (before_dash r)
  end.

Definition _normalize_language_code (lang_code : string) : string :=
  let l := lower_id lang_code in
  let normalized :=
    default l (snd <$> find (fun e => String.eqb (fst e) l)
                            google_language_mapping) in
  before_dash normalized.

(** One alternative of a recognition result: its transcript and, when
    the object carries one, its [language_code]. *)
Record alternative := {
  alt_transcript : pystr;
  alt_language_code : option string
}.

(** A recognition result: its list of alternatives. *)
Definition stt_result := list alternative.

(** The speech client.  Every reply depends on the audio file.
    [read_audio] is the [stat] and the read of the file, giving
    [duration <= 60]; [chunk_recognize] is the chunked mode: cutting the
    file may raise, else it gives the reply of [recognize] for each chunk
    file. *)
Record stt_externals := {
  speech_client : bool;
  primary_language : string;
  read_audio : string -> outcome bool;
  recognize : string -> outcome (list stt_result);
  long_running_recognize : string -> outcome (list stt_result);
  chunk_recognize : string -> outcome (list (outcome (list stt_result)))
}.

(** The dict [transcribe_audio] returns (the confidence, a float, is left
    out). *)
Record transcription := {
  transcript : pystr;
  language : string;
  stt_error : option string
}.

(** The dict of every failure path: empty transcript, language
    ["unknown"], an error text. *)
Definition stt_failure (e : string) : transcription :=
  {| transcript := []; language := "unknown"; stt_error := Some e |}.

(** [alternatives[0].transcript] of every result that has alternatives. *)
Definition best_transcripts (results : list stt_result) : list pystr :=
  flat_map (fun r => match r with
                     | best :: _ => [alt_transcript best]
                     | [] => []
                     end) results.

(** The language of the first result, when it has an alternative that
    carries one; else the primary language. *)
Definition detected_language (S : stt_externals) (results : list stt_result)
  : string :=
  match results with
  | (best :: _) :: _ => default (primary_language S) (alt_language_code best)
  | _ => primary_language S
  end.

Definition _transcribe_audio_chunked (S : stt_externals) (audio_path : string)
  : transcription :=
  match chunk_recognize S audio_path with
  | Raised e => stt_failure e
  | Returned replies =>
      let all_transcripts :=
        flat_map (fun reply => match reply with
                               | Returned results => best_transcripts results
                               | Raised _ => []
                               end) replies in
      {| transcript := strip (join space all_transcripts);
         language := _normalize_language_code (primary_language S);
         stt_error := None |}
  end.

Definition assemble (S : stt_externals) (results : list stt_result)
  : transcription :=
  match results with
  | [] => stt_failure "No transcription results"
  | _ :: _ =>
      {| transcript := strip (join space (best_transcripts results));
         language := _normalize_language_code (detected_language S results);
         stt_error := None |}
  end.

Definition transcribe_audio (S : stt_externals) (audio_path : string)
  : transcription :=
  if negb (speech_client S)
  then stt_failure "Google Cloud Speech client not initialized"
  else
    match read_audio S audio_path with
    | Raised e => stt_failure e
    | Returned true =>
        match recognize S audio_path with
        | Raised e => stt_failure e
        | Returned results => assemble S results
        end
    | Returned false =>
        match long_running_recognize S audio_path with
        | Raised _ => _transcribe_audio_chunked S audio_path
        | Returned results => assemble S results
        end
    end.

(** *** [process_recording] *)

(** The processor object: its configuration and the services it holds. *)
Record processor := {
  translation_enabled : bool;               (* config["translation_enabled"] *)
  config_target_language : string;          (* config["target_language"] *)
  translation_config : Translate.config;
  translation_services : Translate.externals;
  stt : stt_externals;
  tts : Audio.externals;
  transcripts_dir : string;
  convert_audio_to_wav : string -> outcome string;
  (** whether writing the transcript file at this path succeeds *)
  transcript_writable : string -> bool
}.

(** The [result] dict that is dumped to the transcript file. *)
Record artifact := {
  file_path : string;
  transcription_result : transcription;
  translation_result : translation;
  top_success : bool                        (* "success" *)
}.

(** What [process_recording] returns: the [result] dict, or a dict with
    [success = False] and an error text. *)
Inductive recording_result :=
| Done (a : artifact)
| NotDone (error : string).

(** [result.get("success", False)] *)
Definition result_success (r : recording_result) : bool :=
  match r with
  | Done a => top_success a
  | NotDone _ => false
  end.

(** The transcripts directory: the artifacts written, by path. *)
Abbreviation transcripts := (gmap string artifact).

Definition transcript_path (P : processor) (file_path : string) : string :=
  (transcripts_dir P ++ "/" ++ Path.stem file_path ++ "_transcript.json")%string.

(** [process_recording(file_path)], for the file seen as [w], on the
    transcripts directory [fs]. *)
Definition process_recording (P : processor) (w : FileReady.world)
    (fs : transcripts) (file_path : string)
  : M (recording_result * transcripts) :=
  _ ← emit (ProcessRecording file_path);
  v ← FileReady.is_file_ready w FileReady.default_stability_time
                               FileReady.default_max_wait;
  if negb (FileReady.ready v)
  then mret (NotDone "File not ready for processing", fs)
  else
    match (if negb (String.eqb (lower_id (Path.suffix file_path)) ".wav")
           then convert_audio_to_wav P file_path
           else Returned file_path) with
    | Raised e => mret (NotDone e, fs)
    | Returned wav_path =>
        let transcription_result := transcribe_audio (stt P) wav_path in
        if negb (truthy (transcript transcription_result))
        then mret (NotDone "No transcript generated", fs)
        else
          translation_result ←
            (if translation_enabled P
                && negb (String.eqb (language transcription_result)
                                    (config_target_language P))
             then translate_text (translation_config P)
                                 (translation_services P)
                                 (transcript transcription_result)
                                 (language transcription_result)
                                 (config_target_language P)
             else mret {| translated_text := transcript transcription_result;
                          source_language := language transcription_result;
                          target_language := config_target_language P;
                          success := true;
                          service_used := None |});
          let result :=
            {| file_path := file_path;
               transcription_result := transcription_result;
               translation_result := translation_result;
               top_success := true |} in
          let path := transcript_path P file_path in
          if transcript_writable P path then
            _ ← emit (WriteFile path);
            mret (Done result, <[path := result]> fs)
          else mret (NotDone "transcript not written", fs)
    end.

End Recording.

(** ** The weather specialist's parameters ([weather_agent.py]) *)

Module Weather.

(** A date is its proleptic Gregorian ordinal ([date.toordinal()]):
    1 is 0001-01-01, [max_ordinal] is 9999-12-31. *)
Definition date := Z.
Definition max_ordinal : date := 3652059.

(** [d + timedelta(days=n)], which raises [OverflowError] past
    9999-12-31. *)
Definition add_days (d : date) (n : Z) : outcome date :=
  if d + n <=? max_ordinal then Returned (d + n)
  else Raised "OverflowError".

(** The value under a date key of the parameters.  A string is kept as
    what [strptime(_, '%Y-%m-%d')] makes of it: a date (and
    [strftime('%Y-%m-%d')] gives such a string back), or a [ValueError]. *)
Inductive date_field :=
| Absent                       (* no such key: [KeyError] *)
| NotText                      (* not a string: [TypeError] *)
| Unparsable (text : pystr)    (* [strptime] raises [ValueError] *)
| IsoDate (d : date).

Record params := {
  location : option pystr;
  start_date : date_field;
  end_date : date_field;
  reasoning : option pystr
}.

Definition set_start (p : params) (d : date) : params :=
  {| location := location p; start_date := IsoDate d;
     end_date := end_date p; reasoning := reasoning p |}.

Definition set_end (p : params) (d : date) : params :=
  {| location := location p; start_date := start_date p;
     end_date := IsoDate d; reasoning := reasoning p |}.

(** What parsing one field does inside the [try]. *)
Inductive parsed :=
| Parsed (d : date)
| ValueError
| Propagates (exn : string).

Definition parse (f : date_field) : parsed :=
  match f with
  | Absent => Propagates "KeyError"
  | NotText => Propagates "TypeError"
  | Unparsable _ => ValueError
  | IsoDate d => Parsed d
  end.

(** The [except ValueError] branch. *)
Definition default_dates (current_date : date) (p : params) : outcome params :=
  match add_days current_date 7 with
  | Raised e => Raised e
  | Returned week => Returned (set_end (set_start p current_date) week)
  end.

(** [_validate_date_parameters(params)] on the day [current_date]. *)
Definition _validate_date_parameters (current_date : date) (p : params)
  : outcome params :=
  match add_days current_date 16 with
  | Raised e => Raised e
  | Returned max_forecast_date =>
      match parse (start_date p) with
      | Propagates e => Raised e
      | ValueError => default_dates current_date p
      | Parsed start =>
          match parse (end_date p) with
          | Propagates e => Raised e
          | ValueError => default_dates current_date p
          | Parsed end_ =>
              (* Fix start date if in past *)
              let '(start, p) :=
                if start <? current_date
                then (current_date, set_start p current_date)
                else (start, p) in
              (* Fix end date if too far in future *)
              let '(end_, p) :=
                if max_forecast_date <? end_
                then (max_forecast_date, set_end p max_forecast_date)
                else (end_, p) in
              (* Ensure end date is after start date *)
              if end_ <=? start then
                match add_days start 7 with
                | Raised e => Raised e
                | Returned end_ => Returned (set_end p end_)
                end
              else Returned p
          end
      end
  end.

(** The farmer profile, as far as this code reads it: the pincode, and
    what building the [FARMER PROFILE AVAILABLE] block of the extraction
    prompt from it gives: the text, or the exception of a [crops] value
    that is not a list of dicts with text under ["crop"]. *)
Record farmer_profile := {
  pincode : option pystr;
  profile_context : outcome pystr
}.

(** [_get_default_parameters(farmer_profile)] *)
Definition _get_default_parameters (current_date : date)
    (profile : option farmer_profile) : outcome params :=
  let location :=
    match profile with
    | Some {| pincode := Some pin |} =>
        if truthy pin then pin else of_ascii "110001"
    | _ => of_ascii "110001"
    end in
  match add_days current_date 7 with
  | Raised e => Raised e
  | Returned week =>
      Returned {| location := Some location;
                  start_date := IsoDate current_date;
                  end_date := IsoDate week;
                  reasoning :=
                    Some (of_ascii
                      "Default parameters used due to extraction failure") |}
  end.

(** The reply of the LLM to the extraction prompt, as far as the parsing
    goes: the call raised, the text holds no [{...}], the braces do not
    hold JSON, or they hold this object. *)
Inductive extraction :=
| LlmRaised
| NoJson
| InvalidJson
| JsonObject (p : params).

(** [_extract_weather_parameters(query, farmer_profile)].  The profile
    block is built before the [try]: an exception there leaves the
    function; one inside the [try] gives the default parameters.  [None]
    is a profile that is [None] or empty. *)
Definition _extract_weather_parameters (current_date : date)
    (reply : extraction) (profile : option farmer_profile) : outcome params :=
  match match profile with
        | Some p => profile_context p
        | None => Returned []
        end with
  | Raised e => Raised e
  | Returned _ =>
      match reply with
      | JsonObject p =>
          match _validate_date_parameters current_date p with
          | Returned p => Returned p
          | Raised _ => _get_default_parameters current_date profile
          end
      | _ => _get_default_parameters current_date profile
      end
  end.

(** The forecast horizon, in days. *)
Definition forecast_horizon : Z := 16.

End Weather.

(** ** The file watcher ([audio_fetcher.py]) *)

Module Fetcher.

Definition audio_formats : list string :=
  [".wav"; ".mp3"; ".gsm"; ".ulaw"; ".alaw"; ".sln"; ".g722"; ".au"].

(** [is_audio_file(filepath)] *)
Definition is_audio_file (filepath : string) : bool :=
  existsb (String.eqb (lower_id (Path.suffix filepath))) audio_formats.

(** The fetcher's mutable state: the [processed_files] set, the set that
    [load_processed_files()] would read from [processed_files.json] as it
    is on disk, and the transcripts directory. *)
Record state := {
  processed_files : gset string;
  persisted : gset string;
  transcripts : gmap string Recording.artifact
}.

(** What one call of [fetch_files_once] meets: the monitor directory (the
    paths [iterdir] yields, each once), every file as seen from the moment
    its processing starts, the recording processor ([None] when its
    construction failed) with the replies its services give during this
    scan, whether writing [processed_files.json] succeeds and, for a write
    that fails, whether [open(..., 'w')] had succeeded before, which
    empties the file. *)
Record scan := {
  monitor_dir_exists : bool;
  listing : list string;
  is_file : string -> bool;
  world : string -> FileReady.world;
  recording_processor : option Recording.processor;
  save_succeeds : bool;
  log_opened : bool
}.

Definition msg_not_ready : string :=
  "File is not ready for processing (still being written or timed out)".
Definition msg_no_processor : string :=
  "Recording processor not available, skipping processing".
Definition msg_failed : string := "Failed to process".

(** [find_new_audio_files()] *)
Definition find_new_audio_files (sc : scan) (st : state) : list string :=
  if negb (monitor_dir_exists sc) then []
  else
    List.filter (fun file_path =>
              is_file sc file_path
              && is_audio_file file_path
              && negb (bool_decide (file_path ∈ processed_files st)))
           (listing sc).

(** [process_audio_file(source_path)] *)
Definition process_audio_file (sc : scan) (st : state) (source_path : string)
  : M (bool * state) :=
  _ ← emit (ProcessAudioFile source_path);
  v ← FileReady.is_file_ready (world sc source_path)
         FileReady.default_stability_time FileReady.default_max_wait;
  if negb (FileReady.ready v) then
    _ ← emit (Log ERROR msg_not_ready);
    mret (false, st)
  else
    match recording_processor sc with
    | None =>
        _ ← emit (Log WARNING msg_no_processor);
        mret (false, st)
    | Some P =>
        r ← Recording.process_recording P
               (FileReady.later (FileReady.finished_at v) (world sc source_path))
               (transcripts st) source_path;
        let '(result, fs) := (r : Recording.recording_result * _) in
        if Recording.result_success result then
          mret (true,
                {| processed_files := {[source_path]} ∪ processed_files st;
                   persisted := persisted st;
                   transcripts := fs |})
        else
          _ ← emit (Log ERROR msg_failed);
          mret (false,
                {| processed_files := processed_files st;
                   persisted := persisted st;
                   transcripts := fs |})
    end.

(** The [for file_path in new_files] loop, counting the successes. *)
Fixpoint process_all (sc : scan) (st : state) (new_files : list string)
  : M (nat * state) :=
  match new_files with
  | [] => mret (O, st)
  | file_path :: rest =>
      r ← process_audio_file sc st file_path;
      let '(ok, st) := (r : bool * state) in
      r' ← process_all sc st rest;
      let '(n, st) := (r' : nat * state) in
      mret ((if ok then S n else n), st)
  end.

(** [save_processed_files()].  [persisted] is what
    [load_processed_files()] reads back.  A write that fails is logged; the
    file is as it was when [open] failed, and cut short when [json.dump]
    failed after [open(..., 'w')] had emptied it, which
    [load_processed_files()] reads as the empty set. *)
Definition save_processed_files (sc : scan) (st : state) : state :=
  {| processed_files := processed_files st;
     persisted := if save_succeeds sc then processed_files st
                  else if log_opened sc then ∅ else persisted st;
     transcripts := transcripts st |}.

(** [fetch_files_once()] *)
Definition fetch_files_once (sc : scan) (st : state) : M (nat * state) :=
  match find_new_audio_files sc st with
  | [] => mret (O, st)
  | new_files =>
      r ← process_all sc st new_files;
      let '(processed_count, st) := (r : nat * state) in
      mret (processed_count, save_processed_files sc st)
  end.

(** [run_continuous()]: one [fetch_files_once] per interval, here for the
    scans of one run of the process. *)
Fixpoint run_continuous (scans : list scan) (st : state) : M state :=
  match scans with
  | [] => mret st
  | sc :: rest =>
      r ← fetch_files_once sc st;
      run_continuous rest (snd (r : nat * state))
  end.

(** [load_processed_files()] at start-up, from what was persisted. *)
Definition start (disk : gset string) (fs : gmap string Recording.artifact)
  : state :=
  {| processed_files := disk; persisted := disk; transcripts := fs |}.

End Fetcher.

(** ** The orchestrator ([orchestrator_agent.py]) *)

Module Orchestrator.

(** A specialist's reply, as far as the orchestrator reads it:
    [response.get("status")], the ["success"] flag the weather, soil and
    pest specialists set instead, ["farmer_response"], ["analysis"] (as
    [str] makes it), and [str(response)]. *)
Record response := {
  status : option string;
  success_flag : option bool;
  farmer_response : option pystr;
  analysis : option pystr;
  as_text : pystr
}.

(** The farmer profile: [_build_farmer_context] of it (which raises on a
    profile of an unexpected shape). *)
Record farmer_profile := {
  farmer_context : outcome pystr
}.

(** [_classify_pipeline]'s decision, as far as the dispatch reads it.
    [required_agents] is what iterating over the value gives. *)
Record pipeline_decision := {
  pipeline_type : string;
  required_agents : list string
}.

(** A prompt sent to the LLM, by the values that fill it. *)
Inductive prompt :=
| SynthesisPrompt (farmer_context farmer_query : pystr)
                  (agent_summaries : list pystr)
| StrategyPrompt (farmer_query : pystr)
| EnglishPrompt (farmer_context farmer_query : pystr).

(** The components the orchestrator holds.  [specialist agent query mode]
    is [<agent>_agent.process_query(query, farmer_profile, mode)];
    [strategy_keys reply] is [str(list(strategy.keys()))] of the strategy
    dict built from the LLM's reply, or from its failure. *)
Record externals := {
  _process_farmer_input : pystr -> string -> farmer_profile;
  _extract_query_from_input : pystr -> farmer_profile -> pystr;
  _classify_pipeline : pystr -> farmer_profile -> pipeline_decision;
  specialist : string -> pystr -> string -> outcome response;
  call_text_llm : prompt -> outcome pystr;
  strategy_keys : outcome pystr -> pystr
}.

(** An insertion-ordered dict from agent tags to replies. *)
Definition responses := list (string * response).

(** [d[key] = value] *)
Fixpoint dict_set (d : responses) (key : string) (value : response)
  : responses :=
  match d with
  | [] => [(key, value)]
  | (k, v) :: rest =>
      if String.eqb k key then (k, value) :: rest
      else (k, v) :: dict_set rest key value
  end.

Definition dict_get (d : responses) (key : string) : option response :=
  snd <$> find (fun e => String.eqb (fst e) key) d.

Definition known_agent (agent_name : string) : bool :=
  existsb (String.eqb agent_name) ["weather"; "soil"; "pest"; "scheme"].

(** The dispatch loop of the specific pipeline.  Returns [None] when a
    specialist raised (the [except] branch of the pipeline), else
    [agent_responses]; [agents_used] is returned either way. *)
Fixpoint call_required_agents (E : externals) (farmer_query : pystr)
    (required_agents : list string)
    (agent_responses : responses) (agents_used : list string)
  : M (option responses * list string) :=
  match required_agents with
  | [] => mret (Some agent_responses, agents_used)
  | agent_name :: rest =>
      if known_agent agent_name then
        _ ← emit (SpecialistCall agent_name "specific");
        match specialist E agent_name farmer_query "specific" with
        | Raised _ => mret (None, agents_used)
        | Returned r =>
            _ ← emit (SpecialistReturn agent_name);
            call_required_agents E farmer_query rest
              (dict_set agent_responses agent_name r)
              (agents_used ++ [agent_name])
        end
      else call_required_agents E farmer_query rest agent_responses agents_used
  end.

(** [agent_name.upper()] *)
Definition upper_name (agent_name : string) : pystr :=
  if String.eqb agent_name "weather" then of_ascii "WEATHER"
  else if String.eqb agent_name "soil" then of_ascii "SOIL"
  else if String.eqb agent_name "pest" then of_ascii "PEST"
  else if String.eqb agent_name "scheme" then of_ascii "SCHEME"
  else of_ascii agent_name.

Definition is_success (r : response) : bool :=
  match status r with
  | Some s => String.eqb s "success"
  | None => false
  end.

(** The summaries of the replies whose status is ["success"]. *)
Definition agent_summaries (agent_responses : responses) : list pystr :=
  flat_map (fun e =>
              let '(agent_name, r) := e in
              if is_success r then
                [ [10%N] ++ upper_name agent_name
                  ++ of_ascii " AGENT RESPONSE:" ++ [10%N]
                  ++ match farmer_response r, analysis r with
                     | Some t, _ => t
                     | None, Some a => a
                     | None, None => as_text r
                     end ]
              else [])
           agent_responses.

(** The fallback synthesis of the [except] branch. *)
Definition simple_synthesis (agent_responses : responses) : pystr :=
  of_ascii "Based on the analysis:" ++ [10%N]
  ++ flat_map (fun e =>
                 let '(agent_name, r) := e in
                 if is_success r then
                   [10%N] ++ of_ascii agent_name ++ of_ascii ": "
                   ++ default (as_text r) (farmer_response r) ++ [10%N]
                 else [])
              agent_responses.

(** [_synthesize_specific_responses]: the ["farmer_response"] of the
    dict it returns. *)
Definition _synthesize_specific_responses (E : externals)
    (farmer_query : pystr) (profile : farmer_profile)
    (agent_responses : responses) : M pystr :=
  match farmer_context profile with
  | Raised _ => mret (simple_synthesis agent_responses)
  | Returned context =>
      _ ← emit (LlmCall "synthesis");
      match call_text_llm E
              (SynthesisPrompt context farmer_query
                               (agent_summaries agent_responses)) with
      | Returned synthesis => mret synthesis
      | Raised _ => mret (simple_synthesis agent_responses)
      end
  end.

(** The dict a pipeline returns. *)
Record pipeline_response := {
  pipeline_status : string;
  pipeline_used : string;
  pipeline_farmer_response : option pystr;
  agents_used : list string;
  (** [agent_responses] (specific) or [agent_intelligence] (generic) *)
  agent_data : responses;
  (** the generic pipeline's intelligence was [{"error": ...}] *)
  gather_error : option string;
  (** the key list of ["comprehensive_strategy"], when the dict has it *)
  comprehensive_strategy : option pystr
}.

(** [_execute_specific_pipeline] *)
Definition _execute_specific_pipeline (E : externals) (farmer_query : pystr)
    (profile : farmer_profile) (decision : pipeline_decision)
  : M pipeline_response :=
  r ← call_required_agents E farmer_query (required_agents decision) [] [];
  match (r : option responses * list string) with
  | (None, agents_used) =>
      mret {| pipeline_status := "error"; pipeline_used := "specific";
              pipeline_farmer_response := None; agents_used := agents_used;
              agent_data := []; gather_error := None;
              comprehensive_strategy := None |}
  | (Some agent_responses, agents_used) =>
      synthesis ← _synthesize_specific_responses E farmer_query profile
                     agent_responses;
      mret {| pipeline_status := "success"; pipeline_used := "specific";
              pipeline_farmer_response := Some synthesis;
              agents_used := agents_used;
              agent_data := agent_responses; gather_error := None;
              comprehensive_strategy := None |}
  end.

(** The fixed order and queries of the generic pipeline. *)
Definition generic_queries : list (string * pystr) :=
  [ ("weather",
     of_ascii "Provide comprehensive weather guidance for farming activities");
    ("soil",
     of_ascii "Provide comprehensive soil management and fertilizer guidance");
    ("pest",
     of_ascii "Provide comprehensive pest management and prevention guidance");
    ("scheme",
     of_ascii "Identify all relevant schemes and financial opportunities") ].

(** [_gather_comprehensive_intelligence]: the intelligence dict, or the
    error text of the [{"error": ...}] dict returned when a specialist
    raised. *)
Fixpoint gather (E : externals) (todo : list (string * pystr))
    (intelligence : responses) : M (outcome responses) :=
  match todo with
  | [] => mret (Returned intelligence)
  | (agent_name, query) :: rest =>
      _ ← emit (SpecialistCall agent_name "generic");
      match specialist E agent_name query "generic" with
      | Raised e => mret (Raised e)
      | Returned r =>
          _ ← emit (SpecialistReturn agent_name);
          gather E rest (dict_set intelligence agent_name r)
      end
  end.

Definition _gather_comprehensive_intelligence (E : externals)
  : M (outcome responses) :=
  gather E generic_queries [].

(** [_execute_generic_pipeline].  The strategy is one LLM call whose
    failure is caught; the roadmap and the hyperlocal guidance call no
    service.  None of the three stops the pipeline. *)
Definition _execute_generic_pipeline (E : externals) (farmer_query : pystr)
    (profile : farmer_profile) (decision : pipeline_decision)
  : M pipeline_response :=
  all_agent_data ← _gather_comprehensive_intelligence E;
  strategy_response ←
    match all_agent_data, farmer_context profile with
    | Returned _, Returned _ =>
        _ ← emit (LlmCall "strategy");
        mret (call_text_llm E (StrategyPrompt farmer_query))
    | _, _ => mret (Raised "Strategy generation failed")
    end;
  mret {| pipeline_status := "success"; pipeline_used := "generic";
          pipeline_farmer_response := None;
          agents_used := ["weather"; "soil"; "pest"; "scheme"];
          agent_data := match all_agent_data with
                        | Returned d => d
                        | Raised _ => []
                        end;
          gather_error := match all_agent_data with
                          | Returned _ => None
                          | Raised e => Some e
                          end;
          comprehensive_strategy :=
            Some (strategy_keys E strategy_response) |}.

Definition msg_strategy (keys : pystr) : pystr :=
  of_ascii "We have prepared a detailed strategy for you. Please contact our support for more details. Strategy includes: " ++ keys.
Definition msg_processed : pystr :=
  of_ascii "We have processed your request and have some recommendations. Please contact our support for detailed advice.".

(** [_convert_json_to_english].  The reply of [call_text_llm] to the
    [EnglishPrompt] stands for building the prompt (with [json.dumps] of
    the response) and the call: an exception of either is caught alike. *)
Definition _convert_json_to_english (E : externals)
    (response_data : pipeline_response) (farmer_query : pystr)
    (profile : farmer_profile) : M pystr :=
  let fallback :=
    match pipeline_farmer_response response_data with
    | Some t => t
    | None =>
        match comprehensive_strategy response_data with
        | Some keys => msg_strategy keys
        | None => msg_processed
        end
    end in
  match farmer_context profile with
  | Raised _ => mret fallback
  | Returned context =>
      match pipeline_farmer_response response_data with
      | Some t => mret t
      | None =>
          _ ← emit (LlmCall "english");
          match call_text_llm E (EnglishPrompt context farmer_query) with
          | Returned english_response => mret (strip english_response)
          | Raised _ => mret fallback
          end
      end
  end.

(** [process_farmer_request(raw_farmer_input, farmer_phone)]: the text
    returned, with the dict the pipeline produced. *)
Definition process_farmer_request (E : externals) (raw_farmer_input : pystr)
    (farmer_phone : string) : M (pystr * pipeline_response) :=
  let profile := _process_farmer_input E raw_farmer_input farmer_phone in
  let farmer_query := _extract_query_from_input E raw_farmer_input profile in
  let decision := _classify_pipeline E farmer_query profile in
  response ←
    (if String.eqb (pipeline_type decision) "specific"
     then _execute_specific_pipeline E farmer_query profile decision
     else _execute_generic_pipeline E farmer_query profile decision);
  english_response ← _convert_json_to_english E response farmer_query profile;
  mret (english_response, response).

(** The text returned by the [except] branch of
    [process_farmer_request]. *)
Definition error_message (e : pystr) : pystr :=
  of_ascii "Sorry, we encountered an error while processing your request. Please try again later. Error: " ++ e.

End Orchestrator.

(** ** The transcript monitor and response delivery
       ([transcript_monitor.py]) *)

Module Monitor.

Definition DEFAULT_PHONE : string := "9876001234".

(** The monitor object: the [processed_files] set, the set that
    [_load_processed_files()] would read from [processed_transcripts.json]
    as it is on disk, the orchestrator and the TTS processor ([None] when
    their construction failed). *)
Record state := {
  processed_files : gset string;
  persisted : gset string;
  orchestrator : option Orchestrator.externals;
  tts_processor : option Recording.processor
}.

(** The world outside: [str.lower]; what reading a transcript file gives
    ([None] for a missing file or invalid JSON); what constructing the
    orchestrator or the processor anew gives; whether writing the
    processed-files log succeeds and, for a write that fails, whether
    [open(..., 'w')] had succeeded before, which empties the log. *)
Record externals := {
  str_lower : pystr -> pystr;
  _read_transcript_file : string -> option Recording.artifact;
  new_orchestrator : option Orchestrator.externals;
  new_tts_processor : option Recording.processor;
  save_succeeds : bool;
  log_opened : bool
}.

(** [_load_processed_files()] and the two initialisations of
    [__init__]. *)
Definition init (X : externals) (disk : gset string) : state :=
  {| processed_files := disk; persisted := disk;
     orchestrator := new_orchestrator X;
     tts_processor := new_tts_processor X |}.

(** [_save_processed_files()].  [persisted] is what
    [_load_processed_files()] reads back.  A write that fails is logged;
    the log is as it was when [open] failed, and cut short when [json.dump]
    failed after [open(..., 'w')] had emptied it, which
    [_load_processed_files()] reads as the empty set. *)
Definition _save_processed_files (X : externals) (st : state) : state :=
  {| processed_files := processed_files st;
     persisted := if save_succeeds X then processed_files st
                  else if log_opened X then ∅ else persisted st;
     orchestrator := orchestrator st;
     tts_processor := tts_processor st |}.

(** [_extract_translated_text(transcript_data)] *)
Definition _extract_translated_text (transcript_data : Recording.artifact)
  : option pystr :=
  if negb (Recording.top_success transcript_data) then None
  else
    let translation := Recording.translation_result transcript_data in
    let transcription := Recording.transcription_result transcript_data in
    if negb (Translate.success translation)
    then Some (Recording.transcript transcription)
    else
      let translated_text := strip (Translate.translated_text translation) in
      if negb (truthy translated_text)
      then Some (strip (Recording.transcript transcription))
      else Some translated_text.

(** The test [_process_with_orchestrator] makes on the reply. *)
Definition looks_like_error (X : externals) (response : pystr) : bool :=
  starts_with (of_ascii "Error:") response
  || contains (of_ascii "error") (str_lower X response)
  || contains (of_ascii "failed") (str_lower X response)
  || (len (strip response) <? 10).

(** [_process_with_orchestrator(translated_text, filename)] *)
Definition _process_with_orchestrator (X : externals) (st : state)
    (translated_text : pystr) (filename : string)
  : M (option pystr * state) :=
  let st :=
    match orchestrator st with
    | Some _ => st
    | None =>
        {| processed_files := processed_files st; persisted := persisted st;
           orchestrator := new_orchestrator X;
           tts_processor := tts_processor st |}
    end in
  match orchestrator st with
  | None => mret (None, st)
  | Some E =>
      r ← Orchestrator.process_farmer_request E translated_text DEFAULT_PHONE;
      let response := fst (r : pystr * Orchestrator.pipeline_response) in
      if looks_like_error X response then mret (None, st)
      else
        _ ← emit (SaveResponse filename);
        mret (Some response, st)
  end.

Definition error_indicators : list pystr :=
  map of_ascii
      ["error:"; "failed"; "exception"; "unauthorized"; "not found";
       "invalid"; "timeout"].

(** [_is_error_response(response)] *)
Definition _is_error_response (X : externals) (response : pystr) : bool :=
  let response_lower := strip (str_lower X response) in
  if len response_lower <? 20 then true
  else existsb (fun indicator => contains indicator response_lower)
               error_indicators.

(** The languages [_generate_audio_response] translates between. *)
Definition response_source_lang : string := "en".
Definition response_target_lang : string := "hi".

(** [_generate_audio_response(response_text, original_input, filename)]:
    the result of [generate_multilingual_audio], when it was reached. *)
Definition _generate_audio_response (X : externals) (st : state)
    (response_text original_input : pystr) (filename : string)
  : M (option Audio.audio_result * state) :=
  let st :=
    match tts_processor st with
    | Some _ => st
    | None =>
        {| processed_files := processed_files st; persisted := persisted st;
           orchestrator := orchestrator st;
           tts_processor := new_tts_processor X |}
    end in
  match tts_processor st with
  | None => mret (None, st)
  | Some P =>
      translation_result ←
        Translate.translate_text (Recording.translation_config P)
          (Recording.translation_services P) response_text
          response_source_lang response_target_lang;
      let hindi_text :=
        if Translate.success translation_result
        then Translate.translated_text translation_result
        else response_text in
      result ←
        Audio.generate_multilingual_audio (Recording.translation_config P)
          (Recording.translation_services P) (Recording.tts P)
          hindi_text response_target_lang;
      match Audio.audio_success result, Audio.audio_file result with
      | true, Some audio_file =>
          _ ← emit (SaveAudioMetadata filename);
          _ ← emit (CopyForPlayback filename audio_file);
          mret (Some result, st)
      | _, _ => mret (Some result, st)
      end
  end.

(** [_process_transcript_file(file_path)] *)
Definition _process_transcript_file (X : externals) (st : state)
    (file_path : string) : M state :=
  let filename := Path.name file_path in
  if bool_decide (filename ∈ processed_files st) then mret st
  else
    _ ← emit (ProcessTranscript filename);
    match _read_transcript_file X file_path with
    | None => mret st
    | Some transcript_data =>
        match _extract_translated_text transcript_data with
        | None => mret st
        | Some translated_text =>
            if negb (truthy translated_text) then mret st
            else
              r ← _process_with_orchestrator X st translated_text filename;
              let '(response, st) := (r : option pystr * state) in
              st ← match response with
                   | Some response =>
                       if truthy response
                          && negb (_is_error_response X response)
                       then
                         r ← _generate_audio_response X st response
                                translated_text filename;
                         mret (snd (r : option Audio.audio_result * state))
                       else mret st
                   | None => mret st
                   end;
              mret (_save_processed_files X
                      {| processed_files := {[filename]} ∪ processed_files st;
                         persisted := persisted st;
                         orchestrator := orchestrator st;
                         tts_processor := tts_processor st |})
        end
    end.

(** The events delivered by the observer, and the start-up sweep. *)
Inductive fs_event :=
| Created (src_path : string) (is_directory : bool)
| Modified (src_path : string) (is_directory : bool).

Definition ends_with_json (path : string) : bool :=
  let l := rev (Path.chars path) in
  bool_decide (take 5 l = rev (Path.chars ".json")).

(** [on_created(event)] and [on_modified(event)] *)
Definition on_event (X : externals) (st : state) (e : fs_event) : M state :=
  match e with
  | Created src_path is_directory =>
      if negb is_directory && ends_with_json src_path
      then _process_transcript_file X st src_path
      else mret st
  | Modified src_path is_directory =>
      if negb is_directory && ends_with_json src_path
      then
        if bool_decide (Path.name src_path ∈ processed_files st) then mret st
        else _process_transcript_file X st src_path
      else mret st
  end.

End Monitor.

(** ** Reading a trace *)

Module Observe.

(** The specialists called and not yet returned after each event of the
    trace: a call adds the agent, its return removes it. *)
Definition step_in_flight (running : list string) (e : event) : list string :=
  match e with
  | SpecialistCall agent _ => agent :: running
  | SpecialistReturn agent => remove string_dec agent running
  | _ => running
  end.

(** The largest number of specialists in flight at any point of the
    trace, starting from [running]. *)
Fixpoint max_in_flight (running : list string) (t : list event) : nat :=
  match t with
  | [] => length running
  | e :: rest =>
      Nat.max (length running) (max_in_flight (step_in_flight running e) rest)
  end.

(** The events of a trace that call a service of a given kind. *)
Definition is_specialist_event (e : event) : bool :=
  match e with
  | SpecialistCall _ _ | SpecialistReturn _ => true
  | _ => false
  end.

Definition is_llm_call (e : event) : bool :=
  match e with LlmCall _ => true | _ => false end.

Definition is_provider_call (e : event) : bool :=
  match e with ProviderCall _ _ _ _ => true | _ => false end.

Definition is_tts_call (e : event) : bool :=
  match e with TtsCall _ _ => true | _ => false end.

(** The calls to [process_audio_file] and to [process_recording] for one
    path. *)
Definition invocations (path : string) (t : list event) : nat :=
  length (List.filter (fun e => match e with
                                | ProcessAudioFile p => String.eqb p path
                                | _ => false
                                end) t).

Definition recordings (path : string) (t : list event) : nat :=
  length (List.filter (fun e => match e with
                                | ProcessRecording p => String.eqb p path
                                | _ => false
                                end) t).

(** The text the specific pipeline ends with when no reply is successful:
    the LLM's synthesis over no summaries, or the bare fallback. *)
Definition synthesis_of_nothing (E : Orchestrator.externals) (q : pystr)
    (profile : Orchestrator.farmer_profile) : pystr :=
  match Orchestrator.farmer_context profile with
  | Returned context =>
      match Orchestrator.call_text_llm E
              (Orchestrator.SynthesisPrompt context q []) with
      | Returned synthesis => synthesis
      | Raised _ => of_ascii "Based on the analysis:" ++ [10%N]
      end
  | Raised _ => of_ascii "Based on the analysis:" ++ [10%N]
  end.

(** The wait before polling starts: 2 s for a file under 1 KiB. *)
Definition settle (w : FileReady.world) : nat :=
  match FileReady.st_size (w O) with
  | Some initial_size => if initial_size <? 1024 then 2%nat else 0%nat
  | None => 0%nat
  end.

(** The instants at which [is_file_ready] looks at the file: the moment
    of the call, then every second once the wait is over. *)
Definition looked_at (w : FileReady.world) (t : nat) : Prop :=
  t = O \/ (settle w < t)%nat.

(** At [t] the size has been the same at every look for at least
    [stability_time] seconds (and over at least two looks). *)
Definition stable_window (w : FileReady.world) (stability_time : Z) (t : nat)
  : Prop :=
  exists (t0 : nat) (size : Z),
    looked_at w t0 /\ (t0 < t)%nat
    /\ stability_time <= Z.of_nat (t - t0)
    /\ forall t', (t0 <= t' <= t)%nat -> looked_at w t' ->
                  FileReady.st_size (w t') = Some size.

(** The completeness gate at [t]: the marker is there, or the size has
    been stable for the window. *)
Definition gate_open (w : FileReady.world) (stability_time : Z) (t : nat)
  : Prop :=
  FileReady.marker_exists (w t) = true \/ stable_window w stability_time t.

Definition is_log (e : event) : bool :=
  match e with Log _ _ => true | _ => false end.

(** The events [process_recording] and the gate can leave in a trace. *)
Definition from_recording (e : event) : bool :=
  match e with
  | Log _ _ | ProviderCall _ _ _ _ | ProcessRecording _ | WriteFile _ => true
  | _ => false
  end.

(** A call made for English to Hindi names that pair to the provider. *)
Definition english_to_hindi (e : event) : Prop :=
  exists service text, e = ProviderCall service "en" "hi" text.


(** A TTS request made for Hindi. *)
Definition hindi_speech (e : event) : Prop :=
  exists chunk, e = TtsCall "hi" chunk.

(** The files written once the audio exists. *)
Definition playback_event (e : event) : Prop :=
  exists filename, e = SaveAudioMetadata filename
                   \/ exists audio_file, e = CopyForPlayback filename audio_file.


(** The text the generic pipeline ends with: the LLM's rendering of the
    response in English, or the message that names the keys of the
    strategy. *)
Definition generic_rendering (E : Orchestrator.externals) (q : pystr)
    (profile : Orchestrator.farmer_profile) : pystr :=
  match Orchestrator.farmer_context profile with
  | Returned context =>
      match Orchestrator.call_text_llm E
              (Orchestrator.EnglishPrompt context q) with
      | Returned english_response => strip english_response
      | Raised _ =>
          Orchestrator.msg_strategy
            (Orchestrator.strategy_keys E
               (Orchestrator.call_text_llm E (Orchestrator.StrategyPrompt q)))
      end
  | Raised _ =>
      Orchestrator.msg_strategy
        (Orchestrator.strategy_keys E (Raised "Strategy generation failed"))
  end.


(** The text of a transcript file that the monitor can work on: the file
    is readable, and the text extracted from it is not empty. *)
Definition usable_text (X : Monitor.externals) (file_path : string)
  : option pystr :=
  match Monitor._read_transcript_file X file_path with
  | Some transcript_data =>
      match Monitor._extract_translated_text transcript_data with
      | Some translated_text =>
          if truthy translated_text then Some translated_text else None
      | None => None
      end
  | None => None
  end.

End Observe.

(** ** Scenarios

    Concrete configurations and inputs on which the embedded code is run. *)

Module Scenario.

Import Translate.

(** [str.lower] on ASCII text. *)
Definition ascii_lower (s : pystr) : pystr :=
  map (fun c => if ((65 <=? c) && (c <=? 90))%N then (c + 32)%N else c) s.

(** The configuration [setup_models] ends with when the environment sets
    nothing: Google Cloud first, then the free services. *)
Definition default_config (client : bool) : config :=
  {| translation_preference :=
       ["google_cloud"; "free_google"; "mymemory"; "libretranslate"; "pons"];
     translate_client := client;
     DEEP_TRANSLATOR_AVAILABLE := true |}.

(** Every provider is unreachable. *)
Definition providers_down : Translate.externals :=
  {| Translate.str_lower := ascii_lower;
     translator := fun _ _ _ _ => Raised "ConnectionError" |}.

(** Every provider answers, with the text prefixed by the target code. *)
Definition providers_up : Translate.externals :=
  {| Translate.str_lower := ascii_lower;
     translator := fun _ _ target text =>
                     Returned (of_ascii target ++ of_ascii ":" ++ text) |}.

(** The TTS provider answers every request. *)
Definition tts_up : Audio.externals :=
  {| Audio.synthesize_speech := fun _ _ => Returned tt;
     Audio.store_audio := fun language _ =>
                            Returned ("generated_audio/tts_" ++ language ++ ".mp3")%string |}.

(** A short sentence followed by a sentence of 4501 bytes. *)
Definition long_second_sentence : pystr :=
  of_ascii "a. " ++ repeat 98%N 4501.

(** 2025-08-18 as an ordinal. *)
Definition today : Weather.date := 739481.

(** The LLM asks for the week that starts three weeks from today. *)
Definition three_weeks_ahead : Weather.params :=
  {| Weather.location := Some (of_ascii "110001");
     Weather.start_date := Weather.IsoDate (today + 21);
     Weather.end_date := Weather.IsoDate (today + 28);
     Weather.reasoning := None |}.

(** A finished recording: the sidecar marker is there from the start. *)
Definition with_marker : FileReady.world :=
  fun _ => {| FileReady.file_exists := true;
              FileReady.marker_exists := true;
              FileReady.st_size := Some 48000 |}.

(** A Hindi utterance that the offline phrase table does not hold
    (four code points of Devanagari). *)
Definition hindi_utterance : pystr := [2350; 2369; 2333; 2375]%N.

(** The speech client recognises [hindi_utterance] in any file. *)
Definition stt_hindi : Recording.stt_externals :=
  {| Recording.speech_client := true;
     Recording.primary_language := "hi-IN";
     Recording.read_audio := fun _ => Returned true;
     Recording.recognize := fun _ =>
       Returned [[ {| Recording.alt_transcript := hindi_utterance;
                      Recording.alt_language_code := None |} ]];
     Recording.long_running_recognize := fun _ => Raised "unavailable";
     Recording.chunk_recognize := fun _ => Raised "unavailable" |}.

(** Every speech-to-text path fails. *)
Definition stt_down : Recording.stt_externals :=
  {| Recording.speech_client := true;
     Recording.primary_language := "hi-IN";
     Recording.read_audio := fun _ => Returned false;
     Recording.recognize := fun _ => Raised "ServiceUnavailable";
     Recording.long_running_recognize := fun _ => Raised "ServiceUnavailable";
     Recording.chunk_recognize := fun _ => Raised "ServiceUnavailable" |}.

Definition processor_with (X : Translate.externals)
    (S : Recording.stt_externals) : Recording.processor :=
  {| Recording.translation_enabled := true;
     Recording.config_target_language := "en";
     Recording.translation_config := default_config false;
     Recording.translation_services := X;
     Recording.stt := S;
     Recording.tts := tts_up;
     Recording.transcripts_dir := "recordings/transcripts";
     Recording.convert_audio_to_wav := fun p => Returned (Path.with_suffix p ".wav");
     Recording.transcript_writable := fun _ => true |}.

Definition a001 : string := "monitor/a001.wav".
Definition a001_transcript : string :=
  "recordings/transcripts/a001_transcript.json".

(** A reply of a specialist that failed: no ["status"], [success] false. *)
Definition failed_reply (agent : string) : Orchestrator.response :=
  {| Orchestrator.status := None;
     Orchestrator.success_flag := Some false;
     Orchestrator.farmer_response := None;
     Orchestrator.analysis := None;
     Orchestrator.as_text := of_ascii "{'success': False, 'agent': '"
                             ++ of_ascii agent ++ of_ascii "'}" |}.

(** A reply of a specialist that succeeded. *)
Definition ok_reply (agent : string) : Orchestrator.response :=
  {| Orchestrator.status := Some "success";
     Orchestrator.success_flag := Some true;
     Orchestrator.farmer_response := Some (of_ascii "advice from " ++ of_ascii agent);
     Orchestrator.analysis := None;
     Orchestrator.as_text := of_ascii "{'status': 'success'}" |}.

Definition advice : pystr :=
  of_ascii "Namaste. Please irrigate your cotton field twice this week.".

Definition cotton_query : pystr :=
  of_ascii "My cotton has white insects and should I irrigate this week?".

(** An orchestrator whose query is classified Specific for the weather
    and pest specialists, whose LLM answers [advice], and whose
    specialists answer as [reply] says. *)
Definition orchestrator_with (reply : string -> Orchestrator.response)
  : Orchestrator.externals :=
  {| Orchestrator._process_farmer_input := fun _ _ =>
       {| Orchestrator.farmer_context := Returned (of_ascii "Farmer: Ravi") |};
     Orchestrator._extract_query_from_input := fun raw _ => raw;
     Orchestrator._classify_pipeline := fun _ _ =>
       {| Orchestrator.pipeline_type := "specific";
          Orchestrator.required_agents := ["weather"; "pest"] |};
     Orchestrator.specialist := fun agent _ _ => Returned (reply agent);
     Orchestrator.call_text_llm := fun _ => Returned advice;
     Orchestrator.strategy_keys := fun _ => of_ascii "[]" |}.

(** A scan that finds the finished recording [a001] while every
    speech-to-text path is down. *)
Definition failing_scan : Fetcher.scan :=
  {| Fetcher.monitor_dir_exists := true;
     Fetcher.listing := [a001];
     Fetcher.is_file := fun _ => true;
     Fetcher.world := fun _ => with_marker;
     Fetcher.recording_processor := Some (processor_with providers_down stt_down);
     Fetcher.save_succeeds := true;
     Fetcher.log_opened := true |}.

(** The same directory once speech-to-text answers. *)
Definition working_scan : Fetcher.scan :=
  {| Fetcher.monitor_dir_exists := true;
     Fetcher.listing := [a001];
     Fetcher.is_file := fun _ => true;
     Fetcher.world := fun _ => with_marker;
     Fetcher.recording_processor := Some (processor_with providers_up stt_hindi);
     Fetcher.save_succeeds := true;
     Fetcher.log_opened := true |}.

(** A recording of 48000 bytes that stopped growing before it was seen,
    without a marker. *)
Definition settled : FileReady.world :=
  fun _ => {| FileReady.file_exists := true;
              FileReady.marker_exists := false;
              FileReady.st_size := Some 48000 |}.

(** A recording that grows by 8000 bytes every second. *)
Definition growing : FileReady.world :=
  fun t => {| FileReady.file_exists := true;
              FileReady.marker_exists := false;
              FileReady.st_size := Some (48000 + 8000 * Z.of_nat t) |}.

Definition scan_of (w : FileReady.world) : Fetcher.scan :=
  {| Fetcher.monitor_dir_exists := true;
     Fetcher.listing := [a001];
     Fetcher.is_file := fun _ => true;
     Fetcher.world := fun _ => w;
     Fetcher.recording_processor := Some (processor_with providers_up stt_hindi);
     Fetcher.save_succeeds := true;
     Fetcher.log_opened := true |}.

Definition fresh : Fetcher.state := Fetcher.start ∅ ∅.

(** A recording processed in an earlier run. *)
Definition a000 : string := "monitor/a000.wav".

(** The directory of [working_scan] at a moment when the write of
    [processed_files.json] breaks off after the file was opened. *)
Definition cut_short_scan : Fetcher.scan :=
  {| Fetcher.monitor_dir_exists := true;
     Fetcher.listing := [a001];
     Fetcher.is_file := fun _ => true;
     Fetcher.world := fun _ => with_marker;
     Fetcher.recording_processor := Some (processor_with providers_up stt_hindi);
     Fetcher.save_succeeds := false;
     Fetcher.log_opened := true |}.

(** The transcript of a Tamil caller: the detected language is ["ta"], the
    translation to English succeeded. *)
Definition tamil_transcript : Recording.artifact :=
  {| Recording.file_path := a001;
     Recording.transcription_result :=
       {| Recording.transcript := [2984; 3006; 2985; 3021]%N;
          Recording.language := "ta";
          Recording.stt_error := None |};
     Recording.translation_result :=
       {| translated_text := cotton_query;
          source_language := "ta";
          target_language := "en";
          success := true;
          service_used := Some "free_google" |};
     Recording.top_success := true |}.

(** A monitor whose transcript files all read as [transcript], with the
    orchestrator's specialists answering as [reply] says. *)
Definition monitor_world (transcript : Recording.artifact)
    (reply : string -> Orchestrator.response) : Monitor.externals :=
  {| Monitor.str_lower := ascii_lower;
     Monitor._read_transcript_file := fun _ => Some transcript;
     Monitor.new_orchestrator := Some (orchestrator_with reply);
     Monitor.new_tts_processor := Some (processor_with providers_up stt_hindi);
     Monitor.save_succeeds := true;
     Monitor.log_opened := true |}.

End Scenario.

(** ** The monitor's run ([transcript_monitor.py], [monitor_transcripts]) *)

Module Watcher.

Import Monitor.

Definition TRANSCRIPTS_DIR : string :=
  "/Users/apple/Desktop/asterisk/recordings/transcripts".

(** [os.path.join(TRANSCRIPTS_DIR, filename)] for a name that
    [os.listdir] gave. *)
Definition transcript_file (filename : string) : string :=
  (TRANSCRIPTS_DIR ++ "/" ++ filename)%string.

(** The loop over the files found at start-up. *)
Fixpoint process_existing (X : externals) (st : state)
    (existing_files : list string) : M state :=
  match existing_files with
  | [] => mret st
  | filename :: rest =>
      if bool_decide (filename ∈ processed_files st)
      then process_existing X st rest
      else
        st ← _process_transcript_file X st (transcript_file filename);
        process_existing X st rest
  end.

(** The events the observer delivers to the handler, one after the
    other. *)
Fixpoint dispatch_events (X : externals) (st : state)
    (events : list fs_event) : M state :=
  match events with
  | [] => mret st
  | e :: rest =>
      st ← on_event X st e;
      dispatch_events X st rest
  end.

(** [monitor_transcripts()] until it is stopped.  [disk] is the set read
    from the processed-files log, [listing] is
    [os.listdir(TRANSCRIPTS_DIR)], [events] are the events the observer
    delivered.  [None] when the directory does not exist. *)
Definition monitor_transcripts (X : externals) (dir_exists : bool)
    (disk : gset string) (listing : list string) (events : list fs_event)
  : M (option state) :=
  if negb dir_exists then mret None
  else
    let monitor := init X disk in
    let existing_files := List.filter ends_with_json listing in
    st ← process_existing X monitor existing_files;
    st ← dispatch_events X st events;
    mret (Some st).

(** The number of times the processing of [filename] was begun. *)
Definition transcript_runs (filename : string) (t : list event) : nat :=
  length (List.filter (fun e => match e with
                                | ProcessTranscript f => String.eqb f filename
                                | _ => false
                                end) t).

(** The event begins the processing of some transcript. *)
Definition begins_transcript (e : event) : bool :=
  match e with ProcessTranscript _ => true | _ => false end.

End Watcher.

(** ** The seasonal context of the weather specialist ([weather_agent.py],
       [_determine_seasonal_context], [_generate_seasonal_date_ranges]) *)

Module Seasons.

Import Weather.

(** A period of the calendar, by the numbers of its first and last
    month. *)
Record period := { period_start : Z; period_end : Z }.

Record season_info := {
  start_month : Z;
  end_month : Z;
  sowing_period : period;
  growing_period : period;
  harvest_period : period
}.

(** [self.farming_seasons], in the order of the dict. *)
Definition farming_seasons : list (string * season_info) :=
  [ ("kharif",
     {| start_month := 6; end_month := 10;
        sowing_period := {| period_start := 6; period_end := 7 |};
        growing_period := {| period_start := 7; period_end := 9 |};
        harvest_period := {| period_start := 9; period_end := 10 |} |});
    ("rabi",
     {| start_month := 11; end_month := 4;
        sowing_period := {| period_start := 11; period_end := 12 |};
        growing_period := {| period_start := 12; period_end := 3 |};
        harvest_period := {| period_start := 3; period_end := 4 |} |});
    ("zaid",
     {| start_month := 4; end_month := 6;
        sowing_period := {| period_start := 4; period_end := 5 |};
        growing_period := {| period_start := 5; period_end := 6 |};
        harvest_period := {| period_start := 6; period_end := 6 |} |}) ].

(** The test of the loop over the seasons; a season whose first month
    is after its last spans the turn of the year. *)
Definition in_season (info : season_info) (current_month : Z) : bool :=
  if start_month info <=? end_month info
  then (start_month info <=? current_month)
       && (current_month <=? end_month info)
  else (start_month info <=? current_month)
       || (current_month <=? end_month info).

Definition within_period (p : period) (current_month : Z) : bool :=
  (period_start p <=? current_month) && (current_month <=? period_end p).

(** The dict [_determine_seasonal_context] returns. *)
Record seasonal_context := {
  current_season : string;
  farming_stage : string;
  context_season_info : season_info;
  context_month : Z
}.

(** [_determine_seasonal_context(farmer_profile)] in the month
    [current_month].  [self.farming_seasons[current_season]] raises
    [KeyError] for a name that is not a key. *)
Definition _determine_seasonal_context (current_month : Z)
  : outcome seasonal_context :=
  let current_season :=
    match find (fun e => in_season (snd e) current_month) farming_seasons with
    | Some (season, _) => season
    | None => "kharif"
    end in
  match find (fun e => String.eqb (fst e) current_season) farming_seasons with
  | None => Raised "KeyError"
  | Some (_, info) =>
      let stage :=
        if within_period (sowing_period info) current_month then "sowing"
        else if within_period (harvest_period info) current_month then "harvest"
        else "growing" in
      Returned {| current_season := current_season;
                  farming_stage := stage;
                  context_season_info := info;
                  context_month := current_month |}
  end.

(** One entry of the dict of date ranges: its key, and the ["start"]
    and ["end"] dates. *)
Record date_range := {
  range_name : string;
  range_start : date;
  range_end : date
}.

(** [_generate_seasonal_date_ranges(seasonal_context)] on the day
    [current_date]. *)
Definition _generate_seasonal_date_ranges (current_date : date)
    (context : seasonal_context) : outcome (list date_range) :=
  let ranges (name : string) (days : Z) : outcome (list date_range) :=
    match add_days current_date 7 with
    | Raised e => Raised e
    | Returned week =>
        match add_days current_date days with
        | Raised e => Raised e
        | Returned last =>
            Returned [ {| range_name := "immediate";
                          range_start := current_date; range_end := week |};
                       {| range_name := name;
                          range_start := current_date; range_end := last |} ]
        end
    end in
  if String.eqb (farming_stage context) "sowing" then ranges "planning" 30
  else if String.eqb (farming_stage context) "harvest"
  then ranges "harvest_window" 14
  else ranges "irrigation_planning" 14.

End Seasons.

(** ** TTS voices ([recording_processor.py], [_get_google_tts_voice]) *)

Module Voices.

(** A voice configuration (the gender is the same in every entry). *)
Record voice := {
  language_code : string;
  voice_name : string
}.

(** [voice_configs], in the order of the dict. *)
Definition voice_configs : list (string * voice) :=
  [ ("en", {| language_code := "en-US"; voice_name := "en-US-Neural2-C" |});
    ("hi", {| language_code := "hi-IN"; voice_name := "hi-IN-Neural2-A" |});
    ("bn", {| language_code := "bn-IN"; voice_name := "bn-IN-Standard-A" |});
    ("te", {| language_code := "te-IN"; voice_name := "te-IN-Standard-A" |});
    ("mr", {| language_code := "mr-IN"; voice_name := "mr-IN-Standard-A" |});
    ("ta", {| language_code := "ta-IN"; voice_name := "ta-IN-Standard-A" |});
    ("gu", {| language_code := "gu-IN"; voice_name := "gu-IN-Standard-A" |});
    ("ur", {| language_code := "ur-IN"; voice_name := "ur-IN-Standard-A" |});
    ("kn", {| language_code := "kn-IN"; voice_name := "kn-IN-Standard-A" |});
    ("ml", {| language_code := "ml-IN"; voice_name := "ml-IN-Standard-A" |});
    ("pa", {| language_code := "pa-IN"; voice_name := "pa-IN-Standard-A" |});
    ("es", {| language_code := "es-ES"; voice_name := "es-ES-Neural2-A" |});
    ("fr", {| language_code := "fr-FR"; voice_name := "fr-FR-Neural2-A" |});
    ("de", {| language_code := "de-DE"; voice_name := "de-DE-Neural2-A" |});
    ("it", {| language_code := "it-IT"; voice_name := "it-IT-Neural2-A" |});
    ("pt", {| language_code := "pt-BR"; voice_name := "pt-BR-Neural2-A" |});
    ("ru", {| language_code := "ru-RU"; voice_name := "ru-RU-Standard-A" |});
    ("ja", {| language_code := "ja-JP"; voice_name := "ja-JP-Neural2-B" |});
    ("ko", {| language_code := "ko-KR"; voice_name := "ko-KR-Neural2-A" |});
    ("zh", {| language_code := "cmn-CN"; voice_name := "cmn-CN-Standard-A" |});
    ("ar", {| language_code := "ar-XA"; voice_name := "ar-XA-Standard-A" |});
    ("nl", {| language_code := "nl-NL"; voice_name := "nl-NL-Standard-A" |});
    ("sv", {| language_code := "sv-SE"; voice_name := "sv-SE-Standard-A" |}) ].

(** [voice_configs[key]], which raises [KeyError] for a missing key. *)
Definition lookup_voice (key : string) : option voice :=
  snd <$> find (fun e => String.eqb (fst e) key) voice_configs.

(** [_get_google_tts_voice(language, voice_name)]; [None] for the
    argument [voice_name] is its default. *)
Definition _get_google_tts_voice (language : string)
    (name : option string) : outcome voice :=
  match lookup_voice "en" with
  | None => Raised "KeyError"
  | Some english =>
      let config := default english (lookup_voice language) in
      match name with
      | Some n =>
          if Translate.truthy_id n
          then Returned {| language_code := language_code config;
                           voice_name := n |}
          else Returned config
      | None => Returned config
      end
  end.

End Voices.

(** ** Classification of the query ([orchestrator_agent.py],
       [_classify_pipeline] and its fallbacks) *)

Module Classify.

(** [any(k in query_lower for k in keywords)] *)
Definition any_keyword (keywords : list string) (query_lower : pystr) : bool :=
  existsb (fun k => contains (of_ascii k) query_lower) keywords.

(** [_intelligent_pipeline_fallback(farmer_query, farmer_profile)];
    [lower] is [str.lower]. *)
Definition _intelligent_pipeline_fallback (lower : pystr -> pystr)
    (farmer_query : pystr) : string :=
  let query_lower := lower farmer_query in
  if any_keyword ["weather"; "pest"; "soil"; "scheme"; "fertilizer";
                  "insect"; "rain"; "subsidy"] query_lower
  then "specific" else "generic".

(** The list [agents] of [_infer_required_agents] before its default. *)
Definition matched_agents (query_lower : pystr) : list string :=
  (if any_keyword ["weather"; "rain"; "irrigation"; "temperature"] query_lower
   then ["weather"] else [])
  ++ (if any_keyword ["soil"; "fertilizer"; "nutrient"] query_lower
      then ["soil"] else [])
  ++ (if any_keyword ["pest"; "insect"; "disease"; "weed"] query_lower
      then ["pest"] else [])
  ++ (if any_keyword ["scheme"; "subsidy"; "loan"; "government"] query_lower
      then ["scheme"] else []).

(** [_infer_required_agents(farmer_query)] *)
Definition _infer_required_agents (lower : pystr -> pystr)
    (farmer_query : pystr) : list string :=
  match matched_agents (lower farmer_query) with
  | [] => ["weather"; "soil"; "pest"; "scheme"]
  | agents => agents
  end.

(** The value under ["pipeline_type"]: a string, or any other JSON
    value. *)
Inductive type_value :=
| TypeText (s : string)
| TypeOther.

(** The value under ["required_agents"]: a list (an item that is not a
    string is [None]), a string, or any other JSON value. *)
Inductive agents_value :=
| AgentList (items : list (option string))
| AgentText (s : string)
| AgentOther.

(** The object the LLM's reply holds, as far as the classification
    reads it: the two keys, when present. *)
Record reply_object := {
  reply_type : option type_value;
  reply_agents : option agents_value
}.

(** The reply of the LLM to the classification prompt: the call raised,
    the text holds no [{...}], the braces do not hold JSON, or they hold
    this object. *)
Inductive llm_reply :=
| ReplyRaised
| ReplyNoJson
| ReplyInvalidJson
| ReplyObject (d : reply_object).

(** The decision returned: its ["pipeline_type"] and
    ["required_agents"]. *)
Record decision := {
  decision_type : string;
  decision_agents : agents_value
}.

(** The dict of the [except] branch; [_get_fallback_response] gives the
    same two values. *)
Definition fallback_decision : decision :=
  {| decision_type := "generic"; decision_agents := AgentText "all" |}.

(** [_parse_json_response(response, "pipeline_classification")] *)
Definition _parse_json_response (reply : llm_reply) : option reply_object :=
  match reply with
  | ReplyRaised => None
  | ReplyNoJson | ReplyInvalidJson =>
      Some {| reply_type := Some (TypeText "generic");
              reply_agents := Some (AgentText "all") |}
  | ReplyObject d => Some d
  end.

(** [_classify_pipeline(farmer_query, farmer_profile)], given what
    [_build_farmer_context] and the LLM gave. *)
Definition _classify_pipeline (lower : pystr -> pystr) (farmer_query : pystr)
    (farmer_context : outcome pystr) (reply : llm_reply) : decision :=
  match farmer_context, _parse_json_response reply with
  | Returned _, Some d =>
      let pipeline_type :=
        match reply_type d with
        | Some v => v
        | None => TypeText (_intelligent_pipeline_fallback lower farmer_query)
        end in
      let pipeline_type :=
        match pipeline_type with
        | TypeText s =>
            if String.eqb s "specific" || String.eqb s "generic" then s
            else "generic"
        | TypeOther => "generic"
        end in
      if String.eqb pipeline_type "specific" then
        match reply_agents d with
        | None =>
            {| decision_type := pipeline_type;
               decision_agents :=
                 AgentList (map Some (_infer_required_agents lower farmer_query)) |}
        | Some agents =>
            {| decision_type := pipeline_type; decision_agents := agents |}
        end
      else {| decision_type := pipeline_type; decision_agents := AgentText "all" |}
  | _, _ => fallback_decision
  end.

End Classify.

(** ** Counting the calls of a trace *)

Module Counting.

(** The number of calls to the LLM, and to specialists, in a trace. *)
Definition llm_calls (t : list event) : nat :=
  length (List.filter Observe.is_llm_call t).

Definition specialist_calls (t : list event) : nat :=
  length (List.filter (fun e => match e with
                                | SpecialistCall _ _ => true
                                | _ => false
                                end) t).

End Counting.

(** ** More scenarios *)

Module Cases.

(** The orchestrator of [Scenario.orchestrator_with] (Specific, for
    weather and pest) whose pest specialist raises. *)
Definition pest_raises : Orchestrator.externals :=
  let E := Scenario.orchestrator_with Scenario.ok_reply in
  {| Orchestrator._process_farmer_input := Orchestrator._process_farmer_input E;
     Orchestrator._extract_query_from_input :=
       Orchestrator._extract_query_from_input E;
     Orchestrator._classify_pipeline := Orchestrator._classify_pipeline E;
     Orchestrator.specialist := fun agent _ _ =>
       if String.eqb agent "pest" then Raised "TimeoutError"
       else Returned (Scenario.ok_reply agent);
     Orchestrator.call_text_llm := Orchestrator.call_text_llm E;
     Orchestrator.strategy_keys := Orchestrator.strategy_keys E |}.

(** The same specialists under a Generic classification; the value
    ["all"] of ["required_agents"] iterates as its characters. *)
Definition generic_pest_raises : Orchestrator.externals :=
  {| Orchestrator._process_farmer_input :=
       Orchestrator._process_farmer_input pest_raises;
     Orchestrator._extract_query_from_input :=
       Orchestrator._extract_query_from_input pest_raises;
     Orchestrator._classify_pipeline := fun _ _ =>
       {| Orchestrator.pipeline_type := "generic";
          Orchestrator.required_agents := ["a"; "l"; "l"] |};
     Orchestrator.specialist := Orchestrator.specialist pest_raises;
     Orchestrator.call_text_llm := Orchestrator.call_text_llm pest_raises;
     Orchestrator.strategy_keys := Orchestrator.strategy_keys pest_raises |}.

(** What [process_recording] writes for the recording [a001] of a Hindi
    caller when the providers answer. *)
Definition a001_artifact : Recording.artifact :=
  match fst (result_of
               (Recording.process_recording
                  (Scenario.processor_with Scenario.providers_up
                                           Scenario.stt_hindi)
                  Scenario.with_marker ∅ Scenario.a001)) with
  | Recording.Done a => a
  | Recording.NotDone _ => Scenario.tamil_transcript
  end.

(** A second recording with the same stem, in another directory and
    format, and what is written for it. *)
Definition a001_mp3 : string := "archive/a001.mp3".

Definition a001_mp3_artifact : Recording.artifact :=
  match fst (result_of
               (Recording.process_recording
                  (Scenario.processor_with Scenario.providers_up
                                           Scenario.stt_hindi)
                  Scenario.with_marker ∅ a001_mp3)) with
  | Recording.Done a => a
  | Recording.NotDone _ => Scenario.tamil_transcript
  end.

(** A TTS provider that refuses a chunk of more than 4500 bytes. *)
Definition tts_strict : Audio.externals :=
  {| Audio.synthesize_speech := fun _ chunk =>
       if 4500 <? utf8_size chunk then Raised "InvalidArgument"
       else Returned tt;
     Audio.store_audio := Audio.store_audio Scenario.tts_up |}.

(** A farmer profile with a pincode and a crop list of the expected
    shape, by what the extraction prompt's profile block holds. *)
Definition ravi_profile : Weather.farmer_profile :=
  {| Weather.pincode := Some (of_ascii "411001");
     Weather.profile_context :=
       Returned (of_ascii "FARMER PROFILE AVAILABLE: Ravi, 411001, cotton") |}.

(** A profile whose [crops] is a list of names: [crop.get] raises. *)
Definition profile_with_crop_names : Weather.farmer_profile :=
  {| Weather.pincode := Some (of_ascii "411001");
     Weather.profile_context := Raised "AttributeError" |}.

(** The transcript of a Hindi caller: the detected language is ["hi"],
    the translation to English succeeded. *)
Definition hindi_transcript : Recording.artifact :=
  {| Recording.file_path := Scenario.a001;
     Recording.transcription_result :=
       {| Recording.transcript := Scenario.hindi_utterance;
          Recording.language := "hi";
          Recording.stt_error := None |};
     Recording.translation_result :=
       {| Translate.translated_text := Scenario.cotton_query;
          Translate.source_language := "hi";
          Translate.target_language := "en";
          Translate.success := true;
          Translate.service_used := Some "free_google" |};
     Recording.top_success := true |}.

(** The monitor of [Scenario.monitor_world] for the Tamil caller, with
    specialists that answer, at a time when the processed-files log cannot
    be opened for writing. *)
Definition write_refused : Monitor.externals :=
  {| Monitor.str_lower := Scenario.ascii_lower;
     Monitor._read_transcript_file := fun _ => Some Scenario.tamil_transcript;
     Monitor.new_orchestrator :=
       Some (Scenario.orchestrator_with Scenario.ok_reply);
     Monitor.new_tts_processor :=
       Some (Scenario.processor_with Scenario.providers_up Scenario.stt_hindi);
     Monitor.save_succeeds := false;
     Monitor.log_opened := false |}.
(** A monitor that cannot read any transcript file. *)
Definition unreadable : Monitor.externals :=
  {| Monitor.str_lower := Scenario.ascii_lower;
     Monitor._read_transcript_file := fun _ => None;
     Monitor.new_orchestrator := None;
     Monitor.new_tts_processor := None;
     Monitor.save_succeeds := true;
     Monitor.log_opened := true |}.

End Cases.

(** ** Notions used in the statements *)

Module Notions.

(** No whitespace at the front. *)
Definition no_lead (s : pystr) : Prop :=
  match s with
  | c :: _ => isspace c = false
  | [] => True
  end.

(** The loop state of [_chunk_text_for_tts] keeps the budget: the
    chunks emitted and the chunk in the making. *)
Definition within_budget (max_bytes : Z) (st : list pystr * pystr) : Prop :=
  Forall (fun c => utf8_size c <= max_bytes) (fst st)
  /\ utf8_size (snd st) <= max_bytes.

(** Some chunk of the list is sent to a provider (the blank ones are
    not). *)
Definition has_text (text_chunks : list pystr) : bool :=
  existsb (fun chunk => truthy (strip chunk)) text_chunks.

(** The service fails on every chunk. *)
Definition always_fails (cfg : Translate.config) (X : Translate.externals)
    (source_lang target_lang : string) (s : Translate.service) : Prop :=
  forall chunk,
    exists o,
      result_of (Translate.service_func s cfg X chunk source_lang target_lang)
      = Translate.Failed o.

(** No ['-'] in the string. *)
Definition dashless (s : string) : Prop := Recording.before_dash s = s.

(** No processing of a transcript is begun in the trace. *)
Definition quiet (t : list event) : Prop :=
  Forall (fun e => Watcher.begins_transcript e = false) t.

(** What one step of the monitor may do to the count of [filename]: the
    processed set only grows, a name in it is not begun again, a name is
    begun at most once, and once begun it is in the set. *)
Definition step_ok (filename : string) (st : Monitor.state)
    (m : M Monitor.state) : Prop :=
  Monitor.processed_files st ⊆ Monitor.processed_files (result_of m)
  /\ (filename ∈ Monitor.processed_files st ->
      Watcher.transcript_runs filename (trace_of m) = 0%nat)
  /\ (Watcher.transcript_runs filename (trace_of m) <= 1)%nat
  /\ (Watcher.transcript_runs filename (trace_of m) = 1%nat ->
      filename ∈ Monitor.processed_files (result_of m)).

End Notions.

(** * Properties *)

Section Effects.

Context {A B : Type}.

Lemma trace_bind (m : M A) (k : A -> M B) :
  trace_of (m ≫= k) = trace_of m ++ trace_of (k (result_of m)).
Proof.
  unfold trace_of, result_of, mbind, M_bind, bind.
  destruct m as [a t]; simpl. destruct (k a) as [b t']. reflexivity.
Qed.

Lemma result_bind (m : M A) (k : A -> M B) :
  result_of (m ≫= k) = result_of (k (result_of m)).
Proof.
  unfold result_of, mbind, M_bind, bind.
  destruct m as [a t]; simpl. destruct (k a) as [b t']. reflexivity.
Qed.

Lemma trace_ret (a : A) : trace_of (mret a : M A) = [].
Proof. reflexivity. Qed.

Lemma result_ret (a : A) : result_of (mret a : M A) = a.
Proof. reflexivity. Qed.

End Effects.

Lemma trace_emit_bind {B} (e : event) (k : unit -> M B) :
  trace_of (emit e ≫= k) = e :: trace_of (k tt).
Proof. rewrite trace_bind. reflexivity. Qed.

Lemma result_emit_bind {B} (e : event) (k : unit -> M B) :
  result_of (emit e ≫= k) = result_of (k tt).
Proof. rewrite result_bind. reflexivity. Qed.

(** ** Translation *)

Module TranslateFacts.

Import Translate.

(** [translate_text(text, L, L)] returns the text unchanged, with
    [success = True], and calls no provider: the trace of the call is
    empty. *)
Lemma translate_same_language (cfg : config) (X : externals)
    (text : pystr) (L : string) :
  result_of (translate_text cfg X text L L)
  = {| translated_text := text; source_language := L;
       target_language := L; success := true;
       service_used := Some "no_translation_needed" |}
  /\ trace_of (translate_text cfg X text L L) = []
  /\ translated_text (result_of (translate_text cfg X text L L)) = text
  /\ success (result_of (translate_text cfg X text L L)) = true.
Proof.
  unfold translate_text. rewrite String.eqb_refl. simpl. auto.
Qed.

(** A translation that failed holds the source text: only the offline
    fallback reports a failure, and only when it left the text as it
    was. *)
Lemma offline_failure_keeps_text X text source_lang target_lang :
  success (_get_offline_translation X text source_lang target_lang) = false ->
  translated_text (_get_offline_translation X text source_lang target_lang)
  = text.
Proof.
  unfold _get_offline_translation.
  destruct (table_of target_lang) as [table |];
    [destruct (String.eqb source_lang "en") |].
  - cbn [success translated_text]. intros H.
    apply negb_false_iff in H. unfold eqb in H.
    apply bool_decide_eq_true in H. exact H.
  - destruct (table_of source_lang) as [table' |];
      [destruct (String.eqb target_lang "en") |]; cbn [success translated_text];
      try reflexivity.
    intros H. apply negb_false_iff in H. unfold eqb in H.
    apply bool_decide_eq_true in H. exact H.
  - destruct (table_of source_lang) as [table' |];
      [destruct (String.eqb target_lang "en") |]; cbn [success translated_text];
      try reflexivity.
    intros H. apply negb_false_iff in H. unfold eqb in H.
    apply bool_decide_eq_true in H. exact H.
Qed.

Lemma failed_translation_keeps_text cfg X text source_lang target_lang :
  success (result_of (translate_text cfg X text source_lang target_lang))
  = false ->
  translated_text
    (result_of (translate_text cfg X text source_lang target_lang)) = text.
Proof.
  unfold translate_text.
  destruct (String.eqb source_lang target_lang || negb (truthy (strip text)));
    [reflexivity |].
  rewrite result_bind.
  destruct (result_of (try_services _ _ _ _ _ _ _ _)) as [chunks name].
  destruct chunks as [| c chunks]; [apply offline_failure_keeps_text |].
  destruct name as [name |]; [| apply offline_failure_keeps_text].
  destruct (truthy_id name); [discriminate | apply offline_failure_keeps_text].
Qed.

End TranslateFacts.

(** ** TTS chunking *)

Module TtsFacts.

Import Tts.

(** The text goes through untouched when it fits the budget. *)
Lemma chunk_short text max_bytes :
  encodable text = true -> utf8_size text <= max_bytes ->
  _chunk_text_for_tts text max_bytes = Some [text].
Proof.
  intros He Hs. unfold _chunk_text_for_tts. rewrite He. simpl.
  destruct (Z.leb_spec (utf8_size text) max_bytes); [reflexivity | lia].
Qed.

(** C4 (fails on the code).  On a short sentence followed by a sentence
    of 4501 bytes, [_chunk_text_for_tts] with the default budget of 4500
    returns the second sentence whole: a chunk of 4501 bytes, which
    [text_to_speech] hands to the provider. *)
Theorem chunk_over_budget :
  _chunk_text_for_tts Scenario.long_second_sentence default_max_bytes
  = Some [of_ascii "a."; repeat 98%N 4501]
  /\ utf8_size (repeat 98%N 4501) = 4501
  /\ trace_of (Audio.text_to_speech Scenario.tts_up
                                     Scenario.long_second_sentence "hi")
     = [TtsCall "hi" (of_ascii "a."); TtsCall "hi" (repeat 98%N 4501)].
Proof.
  repeat split; vm_compute; reflexivity.
Qed.

End TtsFacts.

(** ** Weather date validation *)

Module WeatherFacts.

Import Weather.

Lemma add_days_returned d n d' :
  add_days d n = Returned d' -> d' = d + n /\ d + n <= max_ordinal.
Proof.
  unfold add_days. destruct (Z.leb_spec (d + n) max_ordinal) as [Hle | Hgt].
  - intros [= <-]. lia.
  - discriminate.
Qed.

(** The two bounds the validation does keep: a returned range never
    starts before today, and always ends after it starts. *)
Lemma validated_range current_date p p' s e :
  _validate_date_parameters current_date p = Returned p' ->
  start_date p' = IsoDate s -> end_date p' = IsoDate e ->
  current_date <= s /\ s < e.
Proof.
  unfold _validate_date_parameters, default_dates, add_days.
  destruct (Z.leb_spec (current_date + 16) max_ordinal); [| discriminate].
  destruct (start_date p) as [| | t | s0] eqn:Hs; simpl; try discriminate.
  - destruct (Z.leb_spec (current_date + 7) max_ordinal); [| discriminate].
    intros [= <-]; simpl. intros [= <-] [= <-]. lia.
  - destruct (end_date p) as [| | t | e0] eqn:He; simpl; try discriminate.
    + destruct (Z.leb_spec (current_date + 7) max_ordinal); [| discriminate].
      intros [= <-]; simpl. intros [= <-] [= <-]. lia.
    + destruct (Z.ltb_spec s0 current_date);
        destruct (Z.ltb_spec (current_date + 16) e0); simpl;
        repeat match goal with
               | |- context [?a <=? ?b] => destruct (Z.leb_spec a b)
               end;
        try discriminate;
        intros [= <-]; simpl; rewrite ?Hs, ?He;
        intros [= <-] [= <-]; lia.
Qed.

(** C7 (fails on the code).  On 2025-08-18 the LLM proposes the range
    2025-09-08 .. 2025-09-15.  The end is first brought back to the
    horizon (today + 16), is then not after the start, and is set to
    start + 7: the range is returned as proposed, its end 28 days from
    today, beyond the 16-day horizon. *)
Theorem validated_end_beyond_horizon :
  _validate_date_parameters Scenario.today Scenario.three_weeks_ahead
  = Returned Scenario.three_weeks_ahead
  /\ end_date Scenario.three_weeks_ahead = IsoDate (Scenario.today + 28)
  /\ Scenario.today + forecast_horizon < Scenario.today + 28.
Proof. repeat split; vm_compute; reflexivity. Qed.

(** A failed extraction (no reply, no JSON, invalid JSON) gives the
    profile's pincode and the range today .. today + 7. *)
Lemma extraction_failure_defaults current_date reply pin context :
  current_date + 7 <= max_ordinal ->
  truthy pin = true ->
  (forall p, reply <> JsonObject p) ->
  _extract_weather_parameters current_date reply
    (Some {| pincode := Some pin; profile_context := Returned context |})
  = Returned {| location := Some pin;
                start_date := IsoDate current_date;
                end_date := IsoDate (current_date + 7);
                reasoning :=
                  Some (of_ascii
                    "Default parameters used due to extraction failure") |}.
Proof.
  intros Hmax Hpin Hreply.
  assert (Hd : _get_default_parameters current_date
                 (Some {| pincode := Some pin;
                          profile_context := Returned context |})
               = Returned {| location := Some pin;
                             start_date := IsoDate current_date;
                             end_date := IsoDate (current_date + 7);
                             reasoning :=
                               Some (of_ascii
                                 "Default parameters used due to extraction failure") |}).
  { unfold _get_default_parameters, add_days. rewrite Hpin.
    destruct (Z.leb_spec (current_date + 7) max_ordinal); [reflexivity | lia]. }
  unfold _extract_weather_parameters. cbn [profile_context].
  destruct reply; try exact Hd. exfalso. eapply Hreply. reflexivity.
Qed.

End WeatherFacts.

(** ** The transcript artifact *)

Module RecordingFacts.

Import Recording.

(** When the client is missing, or every recognition path raises,
    [transcribe_audio] gives the failure dict: an empty transcript. *)
Lemma transcribe_audio_all_paths_fail S audio_path :
  speech_client S = false
  \/ (exists e, read_audio S audio_path = Raised e)
  \/ (read_audio S audio_path = Returned true
      /\ exists e, recognize S audio_path = Raised e)
  \/ (read_audio S audio_path = Returned false
      /\ (exists e, long_running_recognize S audio_path = Raised e)
      /\ exists e, chunk_recognize S audio_path = Raised e) ->
  exists e, transcribe_audio S audio_path = stt_failure e.
Proof.
  unfold transcribe_audio, _transcribe_audio_chunked.
  intros [H | [[e H] | [[H [e H']] | [H [[e H'] [e' H'']]]]]].
  - rewrite H. simpl. eauto.
  - destruct (speech_client S); simpl; [rewrite H |]; eauto.
  - destruct (speech_client S); simpl; [rewrite H, H' |]; eauto.
  - destruct (speech_client S); simpl; [rewrite H, H', H'' |]; eauto.
Qed.

(** With a verdict of ready, a WAV file at hand, a transcript that is
    not empty and a transcript file that can be written, the artifact is
    written, whatever the translation did. *)
Lemma written_when_transcribed P w fs file wav_path :
  FileReady.ready
    (result_of (FileReady.is_file_ready w FileReady.default_stability_time
                                        FileReady.default_max_wait)) = true ->
  (if negb (String.eqb (lower_id (Path.suffix file)) ".wav")
   then convert_audio_to_wav P file else Returned file) = Returned wav_path ->
  truthy (transcript (transcribe_audio (stt P) wav_path)) = true ->
  transcript_writable P (transcript_path P file) = true ->
  exists a,
    fst (result_of (process_recording P w fs file)) = Done a
    /\ transcription_result a = transcribe_audio (stt P) wav_path.
Proof.
  intros Hready Hwav Ht Hw. unfold process_recording.
  rewrite result_emit_bind, result_bind, Hready. cbn [negb].
  rewrite Hwav, Ht. cbn [negb]. rewrite result_bind, Hw, result_emit_bind.
  eexists. split; reflexivity.
Qed.

(** C5 (as the code has it).  [process_recording] writes an artifact
    only after a non-empty transcript was produced, and every artifact it
    writes has top-level [success = True].  Whether the translation
    succeeded is recorded in the nested translation dict only, which is
    what [translate_text] returned (or the transcript itself when no
    translation is due); a translation that failed holds the transcript as
    its translated text.  The artifact is written whenever the file is
    ready, converted, transcribed to a non-empty text and the transcript
    file can be written, whatever the translation did.  When the
    transcript is empty (as on every failure of speech-to-text) nothing is
    written, the transcripts directory is unchanged, and the call returns
    [success = False]. *)
Theorem process_recording_artifact P w fs file :
  let r := result_of (process_recording P w fs file) in
  match fst r with
  | Done a =>
      snd r = <[transcript_path P file := a]> fs
      /\ top_success a = true
      /\ truthy (transcript (transcription_result a)) = true
      /\ translation_result a
         = (let t := transcription_result a in
            if translation_enabled P
               && negb (String.eqb (language t) (config_target_language P))
            then result_of
                   (Translate.translate_text
                      (translation_config P) (translation_services P)
                      (transcript t) (language t) (config_target_language P))
            else {| Translate.translated_text := transcript t;
                    Translate.source_language := language t;
                    Translate.target_language := config_target_language P;
                    Translate.success := true;
                    Translate.service_used := None |})
      /\ (Translate.success (translation_result a) = false ->
          Translate.translated_text (translation_result a)
          = transcript (transcription_result a))
  | NotDone _ => snd r = fs /\ result_success (fst r) = false
  end
  /\ (forall wav_path,
        FileReady.ready
          (result_of (FileReady.is_file_ready w FileReady.default_stability_time
                                              FileReady.default_max_wait))
        = true ->
        (if negb (String.eqb (lower_id (Path.suffix file)) ".wav")
         then convert_audio_to_wav P file else Returned file)
        = Returned wav_path ->
        truthy (transcript (transcribe_audio (stt P) wav_path)) = true ->
        transcript_writable P (transcript_path P file) = true ->
        exists a, fst r = Done a
                  /\ transcription_result a = transcribe_audio (stt P) wav_path)
  /\ ((forall audio_path, transcript (transcribe_audio (stt P) audio_path) = []) ->
      (exists e, fst r = NotDone e) /\ snd r = fs).
Proof.
  cbv zeta.
  split; [| split; [intros wav_path; apply written_when_transcribed |]];
    unfold process_recording;
    rewrite result_emit_bind, result_bind;
    set (v := result_of (FileReady.is_file_ready w _ _));
    (destruct (FileReady.ready v); simpl; [| eauto]);
    set (wav := if negb (String.eqb (lower_id (Path.suffix file)) ".wav")
                then convert_audio_to_wav P file else Returned file);
    (destruct wav as [wav_path | e]; [| simpl; eauto]);
    (destruct (truthy (transcript (transcribe_audio (stt P) wav_path))) eqn:Ht;
     simpl; [| eauto]);
    rewrite result_bind;
    set (t := transcribe_audio (stt P) wav_path) in *;
    (destruct (transcript_writable P (transcript_path P file)); simpl;
     [| eauto]).
  - split; [reflexivity |]. split; [reflexivity |]. split; [exact Ht |].
    destruct (translation_enabled P
              && negb (String.eqb (language t) (config_target_language P))).
    + split; [reflexivity |].
      apply TranslateFacts.failed_translation_keeps_text.
    + split; [reflexivity | discriminate].
  - intros Hall. unfold t in Ht. rewrite Hall in Ht. discriminate.
Qed.

(** C5 (as stated, against the code).  The providers are down and the
    offline table does not hold the utterance: the artifact is written with
    a failed translation and top-level [success = True].  Speech-to-text is
    down: no artifact is written at all. *)
Lemma failed_stages_not_flagged :
  ~ (forall a,
       snd (result_of (process_recording
                         (Scenario.processor_with Scenario.providers_down
                                                  Scenario.stt_hindi)
                         Scenario.with_marker ∅ Scenario.a001))
         !! Scenario.a001_transcript = Some a ->
       Translate.success (translation_result a) = false ->
       top_success a = false)
  /\ ~ (exists a,
          snd (result_of (process_recording
                            (Scenario.processor_with Scenario.providers_down
                                                     Scenario.stt_down)
                            Scenario.with_marker ∅ Scenario.a001))
            !! Scenario.a001_transcript = Some a).
Proof.
  split.
  - intros H.
    set (r := result_of _) in H.
    assert (Hr : exists a, r = (Done a, {[Scenario.a001_transcript := a]})
                           /\ Translate.success (translation_result a) = false
                           /\ top_success a = true).
    { eexists. split; [vm_compute; reflexivity |]. split; reflexivity. }
    destruct Hr as (a & Hr & Hf & Ht). rewrite Hr in H. simpl in H.
    specialize (H a (lookup_singleton_eq _ _) Hf). congruence.
  - intros [a H].
    set (r := result_of _) in H.
    assert (Hr : snd r = ∅) by (vm_compute; reflexivity).
    rewrite Hr in H. rewrite lookup_empty in H. discriminate.
Qed.

End RecordingFacts.

(** ** The orchestrator's dispatch *)

Module OrchestratorFacts.

Import Orchestrator Observe.

Lemma dict_get_set_eq d k v : dict_get (dict_set d k v) k = Some v.
Proof.
  unfold dict_get. induction d as [| [k' v'] d IH]; simpl.
  - rewrite String.eqb_refl. reflexivity.
  - destruct (String.eqb_spec k' k) as [-> | Hne]; simpl.
    + rewrite String.eqb_refl. reflexivity.
    + destruct (String.eqb_spec k' k); [contradiction | exact IH].
Qed.

Lemma dict_get_set_ne d k k' v :
  k <> k' -> dict_get (dict_set d k v) k' = dict_get d k'.
Proof.
  intros Hne. unfold dict_get. induction d as [| [k0 v0] d IH]; simpl.
  - destruct (String.eqb_spec k k'); [contradiction | reflexivity].
  - destruct (String.eqb_spec k0 k) as [-> | Hk]; simpl.
    + destruct (String.eqb_spec k k'); [contradiction | reflexivity].
    + destruct (String.eqb_spec k0 k'); [reflexivity | exact IH].
Qed.

Lemma dict_set_values (P : response -> Prop) d k v :
  P v -> Forall (fun e => P (snd e)) d ->
  Forall (fun e => P (snd e)) (dict_set d k v).
Proof.
  intros Hv. induction 1 as [| [k' v'] d Hx Hd IH]; simpl.
  - constructor; [exact Hv | constructor].
  - destruct (String.eqb k' k); constructor; auto.
Qed.

(** Call and return of one specialist, as they appear in a trace. *)
Definition call_return (mode : string) (agent : string) : list event :=
  [SpecialistCall agent mode; SpecialistReturn agent].

Lemma remove_single (a : string) : remove string_dec a [a] = [].
Proof. simpl. destruct (string_dec a a); [reflexivity | contradiction]. Qed.

Lemma max_in_flight_quiet t : forall running,
  Forall (fun e => is_specialist_event e = false) t ->
  max_in_flight running t = length running
  /\ fold_left step_in_flight t running = running.
Proof.
  induction t as [| e t IH]; intros running H; simpl; [auto |].
  inversion H as [| ? ? He Ht]; subst.
  assert (Hs : step_in_flight running e = running)
    by (destruct e; simpl in *; congruence).
  rewrite Hs. destruct (IH running Ht) as [-> ->]. split; [lia | reflexivity].
Qed.

Lemma max_in_flight_app t1 : forall running t2,
  max_in_flight running (t1 ++ t2)
  = Nat.max (max_in_flight running t1)
            (max_in_flight (fold_left step_in_flight t1 running) t2).
Proof.
  induction t1 as [| e t1 IH]; intros running t2; simpl.
  - destruct t2; simpl; lia.
  - rewrite IH. lia.
Qed.

(** The dispatch loop of the specific pipeline: only specialist events,
    never two specialists in flight, and at most one left in flight (the
    one that raised). *)
Lemma dispatch_shape E q agents : forall acc used,
  let t := trace_of (call_required_agents E q agents acc used) in
  Forall (fun e => is_specialist_event e = true) t
  /\ (max_in_flight [] t <= 1)%nat
  /\ (length (fold_left step_in_flight t []) <= 1)%nat.
Proof.
  induction agents as [| a agents IH]; intros acc used; cbv zeta;
    cbn [call_required_agents].
  - repeat split; simpl; auto.
  - destruct (known_agent a); [| apply IH].
    rewrite trace_emit_bind.
    destruct (specialist E a q "specific") as [r | e].
    + rewrite trace_emit_bind.
      specialize (IH (dict_set acc a r) (used ++ [a])). cbv zeta in IH.
      destruct IH as (Hall & Hmax & Hlen).
      cbn [max_in_flight fold_left step_in_flight length].
      rewrite !remove_single. repeat split.
      * repeat constructor. exact Hall.
      * lia.
      * exact Hlen.
    + simpl. repeat split; auto.
Qed.

(** When every listed specialist returns, failed or not, each reply is
    recorded under its tag, in the order of the list. *)
Lemma dispatch_all_return E q agents : forall acc used,
  (forall a, In a agents -> known_agent a = true ->
             exists r, specialist E a q "specific" = Returned r) ->
  exists d,
    result_of (call_required_agents E q agents acc used)
    = (Some d, used ++ List.filter known_agent agents)
    /\ trace_of (call_required_agents E q agents acc used)
       = flat_map (call_return "specific") (List.filter known_agent agents)
    /\ (forall a r, In a (List.filter known_agent agents) ->
                    specialist E a q "specific" = Returned r ->
                    dict_get d a = Some r)
    /\ (forall a, ~ In a (List.filter known_agent agents) ->
                  dict_get d a = dict_get acc a)
    /\ (forall P : response -> Prop,
          (forall a r, In a agents -> known_agent a = true ->
                       specialist E a q "specific" = Returned r -> P r) ->
          Forall (fun e => P (snd e)) acc ->
          Forall (fun e => P (snd e)) d).
Proof.
  induction agents as [| a agents IH]; intros acc used Hret;
    cbn [call_required_agents List.filter].
  - exists acc. rewrite app_nil_r. repeat split; auto. intros a r [].
  - destruct (known_agent a) eqn:Hk.
    + destruct (Hret a (or_introl eq_refl) Hk) as [r Hr].
      rewrite result_emit_bind, trace_emit_bind, Hr.
      rewrite result_emit_bind, trace_emit_bind.
      destruct (IH (dict_set acc a r) (used ++ [a])) as (d & Hres & Htr & Hin & Hout & Hall).
      { intros a' Hin' Hk'. apply Hret; [right; exact Hin' | exact Hk']. }
      exists d. rewrite Hres, Htr. rewrite <- app_assoc. simpl.
      split; [reflexivity |]. split; [reflexivity |]. split; [| split].
      * intros a' r' [<- | Hin'] Hr'.
        -- destruct (in_dec string_dec a (List.filter known_agent agents)) as [Hi | Hni].
           ++ apply Hin; assumption.
           ++ rewrite (Hout a Hni). rewrite Hr in Hr'. injection Hr' as <-.
              apply dict_get_set_eq.
        -- apply Hin; assumption.
      * intros a' Hni. rewrite Hout by (intros Hi; apply Hni; right; exact Hi).
        apply dict_get_set_ne. intros ->. apply Hni. left. reflexivity.
      * intros P HP Hacc. apply Hall.
        -- intros a' r' Hin' Hk' Hr'. eapply HP; [right; exact Hin' | exact Hk' | exact Hr'].
        -- apply dict_set_values; [| exact Hacc].
           eapply HP; [left; reflexivity | exact Hk | exact Hr].
    + destruct (IH acc used) as (d & Hres & Htr & Hin & Hout & Hall).
      { intros a' Hin' Hk'. apply Hret; [right; exact Hin' | exact Hk']. }
      exists d. repeat split; auto.
      intros P HP Hacc. apply Hall; [| exact Hacc].
      intros a' r' Hin' Hk' Hr'. eapply HP; [right; exact Hin' | exact Hk' | exact Hr'].
Qed.

(** The gathering loop of the generic pipeline has the same shape. *)
Lemma gather_shape E todo : forall acc,
  let t := trace_of (gather E todo acc) in
  Forall (fun e => is_specialist_event e = true) t
  /\ (max_in_flight [] t <= 1)%nat
  /\ (length (fold_left step_in_flight t []) <= 1)%nat.
Proof.
  induction todo as [| [a qa] todo IH]; intros acc; cbv zeta; cbn [gather].
  - repeat split; simpl; auto.
  - rewrite trace_emit_bind.
    destruct (specialist E a qa "generic") as [r | e].
    + rewrite trace_emit_bind.
      specialize (IH (dict_set acc a r)). cbv zeta in IH.
      destruct IH as (Hall & Hmax & Hlen).
      cbn [max_in_flight fold_left step_in_flight length].
      rewrite !remove_single. repeat split.
      * repeat constructor. exact Hall.
      * lia.
      * exact Hlen.
    + simpl. repeat split; auto.
Qed.

(** When the four specialists return, failed or not, the intelligence
    holds the four replies and the calls were made in the fixed order. *)
Lemma gather_all_return E :
  (forall a qa, In (a, qa) generic_queries ->
                exists r, specialist E a qa "generic" = Returned r) ->
  exists d,
    result_of (_gather_comprehensive_intelligence E) = Returned d
    /\ map fst d = ["weather"; "soil"; "pest"; "scheme"]
    /\ trace_of (_gather_comprehensive_intelligence E)
       = flat_map (call_return "generic") ["weather"; "soil"; "pest"; "scheme"]
    /\ (forall a qa r, In (a, qa) generic_queries ->
                       specialist E a qa "generic" = Returned r ->
                       dict_get d a = Some r).
Proof.
  intros Hret.
  assert (Hw := Hret _ _ (or_introl eq_refl)).
  assert (Hs := Hret _ _ (or_intror (or_introl eq_refl))).
  assert (Hp := Hret _ _ (or_intror (or_intror (or_introl eq_refl)))).
  assert (Hc := Hret _ _ (or_intror (or_intror (or_intror (or_introl eq_refl))))).
  destruct Hw as [rw Hw], Hs as [rs Hs], Hp as [rp Hp], Hc as [rc Hc].
  exists [("weather", rw); ("soil", rs); ("pest", rp); ("scheme", rc)].
  unfold _gather_comprehensive_intelligence, generic_queries.
  cbn [gather].
  rewrite ?result_emit_bind, ?trace_emit_bind, Hw.
  rewrite ?result_emit_bind, ?trace_emit_bind. cbn [gather].
  rewrite ?result_emit_bind, ?trace_emit_bind, Hs.
  rewrite ?result_emit_bind, ?trace_emit_bind. cbn [gather].
  rewrite ?result_emit_bind, ?trace_emit_bind, Hp.
  rewrite ?result_emit_bind, ?trace_emit_bind. cbn [gather].
  rewrite ?result_emit_bind, ?trace_emit_bind, Hc.
  rewrite ?result_emit_bind, ?trace_emit_bind. cbn [gather].
  split; [reflexivity |]. split; [reflexivity |]. split; [reflexivity |].
  intros a qa r [H | [H | [H | [H | []]]]] Hr; injection H as <- <-;
    unfold dict_get; simpl; congruence.
Qed.

Lemma synthesis_quiet E q profile d :
  Forall (fun e => is_specialist_event e = false)
         (trace_of (_synthesize_specific_responses E q profile d)).
Proof.
  unfold _synthesize_specific_responses.
  destruct (farmer_context profile); [| constructor].
  rewrite trace_emit_bind.
  destruct (call_text_llm E _); repeat constructor.
Qed.

(** The trace of the specific pipeline: the dispatch, then the
    synthesis when no specialist raised. *)
Lemma specific_trace E q profile decision :
  trace_of (_execute_specific_pipeline E q profile decision)
  = trace_of (call_required_agents E q (required_agents decision) [] [])
    ++ match fst (result_of (call_required_agents E q (required_agents decision) [] [])) with
       | Some d => trace_of (_synthesize_specific_responses E q profile d)
       | None => []
       end.
Proof.
  unfold _execute_specific_pipeline. rewrite trace_bind. f_equal.
  destruct (result_of _) as [[d |] used]; simpl.
  - rewrite trace_bind. simpl. rewrite app_nil_r. reflexivity.
  - reflexivity.
Qed.

(** The trace of the generic pipeline: the gathering, then at most the
    strategy call. *)
Lemma generic_trace E q profile decision :
  exists later,
    trace_of (_execute_generic_pipeline E q profile decision)
    = trace_of (_gather_comprehensive_intelligence E) ++ later
    /\ Forall (fun e => is_specialist_event e = false) later.
Proof.
  unfold _execute_generic_pipeline. rewrite trace_bind.
  eexists. split; [reflexivity |].
  rewrite trace_bind. simpl. rewrite app_nil_r.
  destruct (result_of _); destruct (farmer_context profile);
    repeat constructor.
Qed.

Lemma sequential_flight calls later :
  (max_in_flight [] calls <= 1)%nat ->
  (length (fold_left step_in_flight calls []) <= 1)%nat ->
  Forall (fun e => is_specialist_event e = false) later ->
  (max_in_flight [] (calls ++ later) <= 1)%nat.
Proof.
  intros Hmax Hlen Hq. rewrite max_in_flight_app.
  destruct (max_in_flight_quiet later (fold_left step_in_flight calls []) Hq)
    as [-> _].
  lia.
Qed.

(** C2 (as the code has it).  In both pipelines the specialists are
    called one after another: never are two of them in flight, every
    specialist event comes before the first later event (the synthesis or
    strategy call to the LLM), and when every specialist returns the trace
    is, in list order for the specific pipeline and in the fixed order
    weather, soil, pest, scheme for the generic one, the call of each
    specialist followed at once by its return. *)
Theorem specialists_called_in_sequence E q profile decision :
  let ts := trace_of (_execute_specific_pipeline E q profile decision) in
  let tg := trace_of (_execute_generic_pipeline E q profile decision) in
  ((max_in_flight [] ts <= 1)%nat /\ (max_in_flight [] tg <= 1)%nat)
  /\ (exists calls later,
        ts = calls ++ later
        /\ Forall (fun e => is_specialist_event e = true) calls
        /\ Forall (fun e => is_specialist_event e = false) later)
  /\ (exists calls later,
        tg = calls ++ later
        /\ Forall (fun e => is_specialist_event e = true) calls
        /\ Forall (fun e => is_specialist_event e = false) later)
  /\ ((forall a, In a (required_agents decision) -> known_agent a = true ->
                 exists r, specialist E a q "specific" = Returned r) ->
      exists later,
        ts = flat_map (call_return "specific")
                      (List.filter known_agent (required_agents decision))
             ++ later
        /\ Forall (fun e => is_specialist_event e = false) later)
  /\ ((forall a qa, In (a, qa) generic_queries ->
                    exists r, specialist E a qa "generic" = Returned r) ->
      exists later,
        tg = flat_map (call_return "generic")
                      ["weather"; "soil"; "pest"; "scheme"]
             ++ later
        /\ Forall (fun e => is_specialist_event e = false) later).
Proof.
  cbv zeta.
  destruct (dispatch_shape E q (required_agents decision) [] [])
    as (Hs1 & Hs2 & Hs3).
  destruct (gather_shape E generic_queries []) as (Hg1 & Hg2 & Hg3).
  destruct (generic_trace E q profile decision) as (later & Hg & Hgq).
  assert (Hsq : Forall (fun e => is_specialist_event e = false)
                  match fst (result_of (call_required_agents E q (required_agents decision) [] [])) with
                  | Some d => trace_of (_synthesize_specific_responses E q profile d)
                  | None => []
                  end).
  { destruct (fst _); [apply synthesis_quiet | constructor]. }
  rewrite specific_trace, Hg. repeat split.
  - apply sequential_flight; assumption.
  - apply sequential_flight; assumption.
  - eauto.
  - eauto.
  - intros Hret.
    destruct (dispatch_all_return E q (required_agents decision) [] [] Hret)
      as (d & Hres & Htr & _).
    rewrite Htr. eauto.
  - intros Hret.
    destruct (gather_all_return E Hret) as (d & _ & _ & Htr & _).
    rewrite Htr. eauto.
Qed.

(** C2 (as stated, against the code).  With the weather and the pest
    specialist listed, both answering, the pest specialist is called only
    after the weather specialist has returned: at no point are two
    specialists in flight; nor are they in the generic pipeline. *)
Lemma specialists_not_concurrent :
  trace_of (_execute_specific_pipeline
              (Scenario.orchestrator_with Scenario.ok_reply)
              Scenario.cotton_query
              {| farmer_context := Returned (of_ascii "Farmer: Ravi") |}
              {| pipeline_type := "specific";
                 required_agents := ["weather"; "pest"] |})
  = [ SpecialistCall "weather" "specific"; SpecialistReturn "weather";
      SpecialistCall "pest" "specific"; SpecialistReturn "pest";
      LlmCall "synthesis" ]
  /\ ~ (2 <= max_in_flight []
               (trace_of (_execute_specific_pipeline
                            (Scenario.orchestrator_with Scenario.ok_reply)
                            Scenario.cotton_query
                            {| farmer_context := Returned (of_ascii "Farmer: Ravi") |}
                            {| pipeline_type := "specific";
                               required_agents := ["weather"; "pest"] |})))%nat
  /\ ~ (2 <= max_in_flight []
               (trace_of (_execute_generic_pipeline
                            (Scenario.orchestrator_with Scenario.ok_reply)
                            Scenario.cotton_query
                            {| farmer_context := Returned (of_ascii "Farmer: Ravi") |}
                            {| pipeline_type := "generic";
                               required_agents := [] |})))%nat.
Proof.
  split; [vm_compute; reflexivity |].
  split; vm_compute; lia.
Qed.

Lemma flat_map_nil {A B} (f : A -> list B) (l : list A) :
  Forall (fun x => f x = []) l -> flat_map f l = [].
Proof.
  induction 1 as [| x l Hx Hl IH]; [reflexivity |].
  cbn [flat_map]. rewrite Hx, IH. reflexivity.
Qed.

Lemma no_success_no_summary (d : responses) :
  Forall (fun e => is_success (snd e) = false) d ->
  agent_summaries d = []
  /\ simple_synthesis d = of_ascii "Based on the analysis:" ++ [10%N].
Proof.
  unfold agent_summaries, simple_synthesis. intros H. split.
  - apply flat_map_nil. eapply Forall_impl; [exact H |].
    intros [a r] Hr. simpl in Hr. rewrite Hr. reflexivity.
  - rewrite flat_map_nil; [rewrite app_nil_r; reflexivity |].
    eapply Forall_impl; [exact H |].
    intros [a r] Hr. simpl in Hr. rewrite Hr. reflexivity.
Qed.

Lemma specific_result E q profile decision d used :
  result_of (call_required_agents E q (required_agents decision) [] [])
  = (Some d, used) ->
  result_of (_execute_specific_pipeline E q profile decision)
  = {| pipeline_status := "success"; pipeline_used := "specific";
       pipeline_farmer_response :=
         Some (result_of (_synthesize_specific_responses E q profile d));
       agents_used := used; agent_data := d; gather_error := None;
       comprehensive_strategy := None |}.
Proof.
  intros Hres. unfold _execute_specific_pipeline.
  rewrite result_bind, Hres. cbn match. rewrite result_bind. reflexivity.
Qed.

Lemma generic_result E q profile decision d :
  result_of (_gather_comprehensive_intelligence E) = Returned d ->
  pipeline_status (result_of (_execute_generic_pipeline E q profile decision))
  = "success"
  /\ agent_data (result_of (_execute_generic_pipeline E q profile decision)) = d.
Proof.
  intros Hres. unfold _execute_generic_pipeline.
  rewrite result_bind, Hres. rewrite result_bind. split; reflexivity.
Qed.

Lemma convert_passes E resp q profile t :
  pipeline_farmer_response resp = Some t ->
  result_of (_convert_json_to_english E resp q profile) = t.
Proof.
  intros H. unfold _convert_json_to_english. rewrite H.
  destruct (farmer_context profile); reflexivity.
Qed.

Lemma synthesis_without_success E q profile d :
  Forall (fun e => is_success (snd e) = false) d ->
  result_of (_synthesize_specific_responses E q profile d)
  = synthesis_of_nothing E q profile.
Proof.
  intros Hd. destruct (no_success_no_summary d Hd) as [Hsum Hsimple].
  unfold _synthesize_specific_responses, synthesis_of_nothing.
  rewrite Hsum, Hsimple.
  destruct (farmer_context profile) as [ctx | e]; [| reflexivity].
  rewrite result_emit_bind.
  destruct (call_text_llm E (SynthesisPrompt ctx q [])); reflexivity.
Qed.

(** The text of the generic pipeline does not depend on what the
    specialists found. *)
Lemma generic_text E q profile decision d :
  result_of (_gather_comprehensive_intelligence E) = Returned d ->
  result_of (_convert_json_to_english E
               (result_of (_execute_generic_pipeline E q profile decision))
               q profile)
  = generic_rendering E q profile.
Proof.
  intros Hres. unfold _execute_generic_pipeline, generic_rendering.
  rewrite result_bind, Hres.
  unfold _convert_json_to_english.
  destruct (farmer_context profile) as [context | e].
  - rewrite result_bind, result_emit_bind.
    cbn [result_of mret M_ret ret fst pipeline_farmer_response
         comprehensive_strategy].
    rewrite result_emit_bind.
    destruct (call_text_llm E (EnglishPrompt context q)); reflexivity.
  - rewrite result_bind. reflexivity.
Qed.

Lemma dict_get_in (d : responses) a r :
  List.NoDup (map fst d) -> In (a, r) d -> dict_get d a = Some r.
Proof.
  unfold dict_get. induction d as [| [k v] d IH]; intros Hnd Hin; [destruct Hin |].
  cbn [map fst] in Hnd. inversion Hnd as [| ? ? Hk Hnd']; subst.
  cbn [find fst]. destruct Hin as [[= -> ->] | Hin].
  - rewrite String.eqb_refl. reflexivity.
  - destruct (String.eqb_spec k a) as [-> | _].
    + exfalso. apply Hk. apply (in_map fst) in Hin. exact Hin.
    + apply IH; assumption.
Qed.

(** C1 (as the code has it).  A specialist that returns a failed
    finding is recorded under its tag like any other, and the specialists
    after it are still called: when the listed (specific) or the four
    (generic) specialists return, the pipeline succeeds and holds the reply
    of each.  And when every dispatched specialist returns a failed
    finding, [process_farmer_request] still returns a text with status
    [success]: in the specific pipeline the synthesis made from no
    summaries, in the generic pipeline the LLM's rendering in English (or
    the message naming the strategy keys), with the four failed findings
    recorded.  There is no AllAgentsFailed error. *)
Theorem failed_findings_recorded E q profile decision raw phone :
  ((forall a, In a (required_agents decision) -> known_agent a = true ->
              exists r, specialist E a q "specific" = Returned r) ->
   let resp := result_of (_execute_specific_pipeline E q profile decision) in
   pipeline_status resp = "success"
   /\ agents_used resp = List.filter known_agent (required_agents decision)
   /\ forall a r, In a (agents_used resp) ->
                  specialist E a q "specific" = Returned r ->
                  dict_get (agent_data resp) a = Some r)
  /\ ((forall a qa, In (a, qa) generic_queries ->
                    exists r, specialist E a qa "generic" = Returned r) ->
      let resp := result_of (_execute_generic_pipeline E q profile decision) in
      pipeline_status resp = "success"
      /\ map fst (agent_data resp) = ["weather"; "soil"; "pest"; "scheme"]
      /\ forall a qa r, In (a, qa) generic_queries ->
                        specialist E a qa "generic" = Returned r ->
                        dict_get (agent_data resp) a = Some r)
  /\ (let profile' := _process_farmer_input E raw phone in
      let q' := _extract_query_from_input E raw profile' in
      let decision' := _classify_pipeline E q' profile' in
      pipeline_type decision' = "specific" ->
      (forall a, In a (required_agents decision') -> known_agent a = true ->
                 exists r, specialist E a q' "specific" = Returned r
                           /\ is_success r = false) ->
      fst (result_of (process_farmer_request E raw phone))
      = synthesis_of_nothing E q' profile'
      /\ pipeline_status (snd (result_of (process_farmer_request E raw phone)))
         = "success")
  /\ (let profile' := _process_farmer_input E raw phone in
      let q' := _extract_query_from_input E raw profile' in
      let decision' := _classify_pipeline E q' profile' in
      pipeline_type decision' <> "specific" ->
      (forall a qa, In (a, qa) generic_queries ->
                    exists r, specialist E a qa "generic" = Returned r
                              /\ is_success r = false) ->
      fst (result_of (process_farmer_request E raw phone))
      = generic_rendering E q' profile'
      /\ pipeline_status (snd (result_of (process_farmer_request E raw phone)))
         = "success"
      /\ Forall (fun e => is_success (snd e) = false)
                (agent_data (snd (result_of (process_farmer_request E raw phone))))).
Proof.
  split; [| split; [| split]].
  - intros Hret. cbv zeta.
    destruct (dispatch_all_return E q (required_agents decision) [] [] Hret)
      as (d & Hres & _ & Hin & _).
    rewrite (specific_result _ _ _ _ _ _ Hres). cbn [pipeline_status agents_used agent_data].
    auto.
  - intros Hret. cbv zeta.
    destruct (gather_all_return E Hret) as (d & Hres & Hkeys & _ & Hin).
    destruct (generic_result E q profile decision d Hres) as [-> ->]. auto.
  - cbv zeta. intros Hspec Hfail.
    set (profile' := _process_farmer_input E raw phone) in *.
    set (q' := _extract_query_from_input E raw profile') in *.
    set (decision' := _classify_pipeline E q' profile') in *.
    destruct (dispatch_all_return E q' (required_agents decision') [] [])
      as (d & Hres & _ & _ & _ & Hall).
    { intros a Hin Hk. destruct (Hfail a Hin Hk) as (r & Hr & _). eauto. }
    assert (Hd : Forall (fun e => is_success (snd e) = false) d).
    { apply (Hall (fun r => is_success r = false)); [| constructor].
      intros a r Hin Hk Hr. destruct (Hfail a Hin Hk) as (r' & Hr' & Hf).
      congruence. }
    unfold process_farmer_request.
    fold profile'. fold q'. fold decision'.
    rewrite Hspec, String.eqb_refl.
    rewrite !result_bind.
    rewrite (specific_result _ _ profile' _ _ _ Hres).
    rewrite result_ret. cbn [fst snd pipeline_status].
    split; [| reflexivity].
    erewrite convert_passes by (cbn [pipeline_farmer_response]; reflexivity).
    apply synthesis_without_success. exact Hd.
  - cbv zeta. intros Hgen Hfail.
    set (profile' := _process_farmer_input E raw phone) in *.
    set (q' := _extract_query_from_input E raw profile') in *.
    set (decision' := _classify_pipeline E q' profile') in *.
    destruct (gather_all_return E) as (d & Hres & Hkeys & _ & Hin).
    { intros a qa Hq. destruct (Hfail a qa Hq) as (r & Hr & _). eauto. }
    unfold process_farmer_request.
    fold profile'. fold q'. fold decision'.
    destruct (String.eqb_spec (pipeline_type decision') "specific") as [He | _];
      [contradiction |].
    rewrite !result_bind, result_ret. cbn [fst snd].
    destruct (generic_result E q' profile' decision' d Hres) as [Hs Hd].
    split; [apply (generic_text E q' profile' decision' d Hres) |].
    split; [exact Hs |].
    rewrite Hd. apply List.Forall_forall. intros [a r] Hmem. cbn [snd].
    assert (Ha : In a ["weather"; "soil"; "pest"; "scheme"]).
    { rewrite <- Hkeys. apply (in_map fst) in Hmem. exact Hmem. }
    assert (Hget : dict_get d a = Some r).
    { apply dict_get_in; [| exact Hmem]. rewrite Hkeys.
      repeat (constructor; [cbn; intuition discriminate |]). constructor. }
    assert (Hqa : exists qa, In (a, qa) generic_queries).
    { destruct Ha as [<- | [<- | [<- | [<- | []]]]]; eexists; cbn; eauto 6. }
    destruct Hqa as [qa Hqa].
    destruct (Hfail a qa Hqa) as (r' & Hr' & Hf).
    rewrite (Hin a qa r' Hqa Hr') in Hget. injection Hget as <-. exact Hf.
Qed.
(** C1 (as stated, against the code).  Both dispatched specialists return
    failed findings; [process_farmer_request] returns the LLM's text, not
    an error, with status [success]. *)
Lemma all_failed_is_not_an_error :
  fst (result_of (process_farmer_request
                    (Scenario.orchestrator_with Scenario.failed_reply)
                    Scenario.cotton_query "9876001234"))
  = Scenario.advice
  /\ ~ (exists e,
          fst (result_of (process_farmer_request
                            (Scenario.orchestrator_with Scenario.failed_reply)
                            Scenario.cotton_query "9876001234"))
          = error_message e).
Proof.
  assert (H : fst (result_of (process_farmer_request
                                (Scenario.orchestrator_with Scenario.failed_reply)
                                Scenario.cotton_query "9876001234"))
              = Scenario.advice) by (vm_compute; reflexivity).
  split; [exact H |]. rewrite H. intros [e He]. vm_compute in He. discriminate.
Qed.

End OrchestratorFacts.

(** ** The completeness gate *)

Module GateFacts.

Import FileReady Observe.

Section Poll.

Variable w : world.
Variable stability_time : Z.

(** The looks made by the loop when it starts after [start] seconds. *)
Let looked (start t : nat) : Prop := t = O \/ (start < t)%nat.

(** What the loop knows when its clock shows [clock]: since some look
    at [t0] every look gave [last_size], and [stable_count] counts
    seconds since then. *)
Let known (start clock : nat) (last_size stable_count : Z) : Prop :=
  exists t0 : nat,
    looked start t0 /\ (t0 <= clock)%nat
    /\ 0 <= stable_count <= Z.of_nat (clock - t0)
    /\ forall t', (t0 <= t' <= clock)%nat -> looked start t' ->
                  st_size (w t') = Some last_size.

Lemma poll_ready start fuel : forall clock last_size stable_count,
  (start <= clock)%nat ->
  known start clock last_size stable_count ->
  let v := result_of (poll w stability_time fuel clock last_size stable_count) in
  ready v = true ->
  marker_exists (w (finished_at v)) = true
  \/ exists (t0 : nat) (size : Z),
       looked start t0 /\ (t0 < finished_at v)%nat
       /\ stability_time <= Z.of_nat (finished_at v - t0)
       /\ forall t', (t0 <= t' <= finished_at v)%nat -> looked start t' ->
                     st_size (w t') = Some size.
Proof.
  induction fuel as [| fuel IH]; intros clock last_size stable_count Hstart Hknown;
    cbv zeta; cbn [poll].
  - rewrite result_emit_bind. simpl. discriminate.
  - destruct (marker_exists (w (S clock))) eqn:Hm.
    + rewrite result_emit_bind. simpl. intros _. left. exact Hm.
    + destruct (st_size (w (S clock))) as [current_size |] eqn:Hsize.
      2: { rewrite result_emit_bind. simpl. discriminate. }
      destruct Hknown as (t0 & Hl0 & Ht0 & Hcount & Hsame).
      destruct (Z.eqb_spec current_size last_size) as [-> | Hne].
      * assert (Hknown' : known start (S clock) last_size (stable_count + 1)).
        { exists t0. repeat split; try lia; auto.
          intros t' Ht' Hl'.
          destruct (Nat.eq_dec t' (S clock)) as [-> | Hn]; [exact Hsize |].
          apply Hsame; [lia | exact Hl']. }
        destruct (Z.leb_spec stability_time (stable_count + 1)) as [Hle | Hgt].
        -- rewrite result_emit_bind. simpl. intros _. right.
           exists t0, last_size. repeat split; try lia; auto.
           intros t' Ht' Hl'.
           destruct (Nat.eq_dec t' (S clock)) as [-> | Hn]; [exact Hsize |].
           apply Hsame; [lia | exact Hl'].
        -- apply IH; [lia | exact Hknown'].
      * rewrite result_emit_bind. apply IH; [lia |].
        exists (S clock). repeat split; try lia.
        -- right. lia.
        -- intros t' Ht' _. assert (t' = S clock) as -> by lia. exact Hsize.
Qed.

(** A file that stays accessible and is not judged ready has used up
    all of [max_wait]: the loop ends with the warning, [fuel] seconds
    after it began. *)
Lemma poll_timeout fuel : forall clock last_size stable_count,
  (forall t, st_size (w t) <> None) ->
  let m := poll w stability_time fuel clock last_size stable_count in
  ready (result_of m) = false ->
  In (Log WARNING msg_not_stable) (trace_of m)
  /\ finished_at (result_of m) = (clock + fuel)%nat.
Proof.
  induction fuel as [| fuel IH]; intros clock last_size stable_count Hacc;
    cbv zeta; cbn [poll].
  - rewrite result_emit_bind, trace_emit_bind. simpl. intros _.
    split; [left; reflexivity | lia].
  - destruct (marker_exists (w (S clock))).
    + rewrite result_emit_bind. simpl. discriminate.
    + destruct (st_size (w (S clock))) as [current_size |] eqn:Hsize.
      2: { exfalso. eapply Hacc. exact Hsize. }
      destruct (current_size =? last_size).
      * destruct (stability_time <=? stable_count + 1).
        -- rewrite result_emit_bind. simpl. discriminate.
        -- intros H. destruct (IH (S clock) last_size (stable_count + 1) Hacc H)
             as [Hin Hfin].
           split; [exact Hin | rewrite Hfin; lia].
      * rewrite result_emit_bind, trace_emit_bind. intros H.
        destruct (IH (S clock) current_size 0 Hacc H) as [Hin Hfin].
        split; [right; exact Hin | rewrite Hfin; lia].
Qed.

Lemma poll_logs fuel : forall clock last_size stable_count,
  Forall (fun e => is_log e = true)
         (trace_of (poll w stability_time fuel clock last_size stable_count)).
Proof.
  induction fuel as [| fuel IH]; intros clock last_size stable_count;
    cbn [poll].
  - rewrite trace_emit_bind. repeat constructor.
  - destruct (marker_exists (w (S clock))).
    + rewrite trace_emit_bind. repeat constructor.
    + destruct (st_size (w (S clock))) as [current_size |].
      2: { rewrite trace_emit_bind. repeat constructor. }
      destruct (current_size =? last_size).
      * destruct (stability_time <=? stable_count + 1).
        -- rewrite trace_emit_bind. repeat constructor.
        -- apply IH.
      * rewrite trace_emit_bind. constructor; [reflexivity | apply IH].
Qed.

End Poll.

(** A verdict of ready means that the gate is open at that moment. *)
Lemma is_file_ready_gate w stability_time max_wait :
  let v := result_of (is_file_ready w stability_time max_wait) in
  ready v = true -> gate_open w stability_time (finished_at v).
Proof.
  cbv zeta. unfold is_file_ready, gate_open, stable_window, looked_at, settle.
  destruct (file_exists (w O)); cbn [negb]; [| simpl; discriminate].
  rewrite result_emit_bind.
  destruct (marker_exists (w O)) eqn:Hm.
  { rewrite result_emit_bind. simpl. intros _. left. exact Hm. }
  destruct (st_size (w O)) as [initial_size |] eqn:Hsize.
  2: { rewrite result_emit_bind. simpl. discriminate. }
  destruct (initial_size <? 1024).
  - rewrite result_emit_bind. intros H.
    refine (poll_ready w stability_time 2%nat _ _ _ _ _ _ H); [lia |].
    exists O. split; [left; reflexivity |]. split; [lia |]. split; [lia |].
    intros t' Ht' [-> | Hl]; [exact Hsize | lia].
  - intros H.
    refine (poll_ready w stability_time 0%nat _ _ _ _ _ _ H); [lia |].
    exists O. split; [left; reflexivity |]. split; [lia |]. split; [lia |].
    intros t' Ht' [-> | Hl]; [exact Hsize | lia].
Qed.

(** A file that is there and stays accessible, and is not judged ready,
    is given up with the warning once [max_wait] polls have passed. *)
Lemma is_file_ready_timeout w stability_time max_wait :
  file_exists (w O) = true ->
  (forall t, st_size (w t) <> None) ->
  let m := is_file_ready w stability_time max_wait in
  ready (result_of m) = false ->
  In (Log WARNING msg_not_stable) (trace_of m)
  /\ finished_at (result_of m) = (settle w + Z.to_nat max_wait)%nat.
Proof.
  intros Hex Hacc. cbv zeta. unfold is_file_ready, settle. rewrite Hex.
  cbn [negb]. rewrite result_emit_bind, trace_emit_bind.
  destruct (marker_exists (w O)).
  { rewrite result_emit_bind. simpl. discriminate. }
  destruct (st_size (w O)) as [initial_size |] eqn:Hsize.
  2: { exfalso. eapply Hacc. exact Hsize. }
  destruct (initial_size <? 1024).
  - rewrite result_emit_bind, trace_emit_bind. intros H.
    destruct (poll_timeout w stability_time _ _ _ _ Hacc H) as [Hin Hfin].
    split; [right; right; exact Hin | exact Hfin].
  - intros H.
    destruct (poll_timeout w stability_time _ _ _ _ Hacc H) as [Hin Hfin].
    split; [right; exact Hin | exact Hfin].
Qed.

Lemma is_file_ready_logs w stability_time max_wait :
  Forall (fun e => is_log e = true)
         (trace_of (is_file_ready w stability_time max_wait)).
Proof.
  unfold is_file_ready.
  destruct (file_exists (w O)); cbn [negb]; [| constructor].
  rewrite trace_emit_bind. constructor; [reflexivity |].
  destruct (marker_exists (w O)).
  { rewrite trace_emit_bind. repeat constructor. }
  destruct (st_size (w O)) as [initial_size |].
  2: { rewrite trace_emit_bind. repeat constructor. }
  destruct (initial_size <? 1024).
  - rewrite trace_emit_bind. constructor; [reflexivity | apply poll_logs].
  - apply poll_logs.
Qed.

End GateFacts.

(** ** The provider calls of a translation *)

Module ProviderFacts.

Import Translate.

Section Calls.

Variables (cfg : config) (X : externals).
Variables (source_lang target_lang : string).

(** A property of events that every call made by a wrapper for this
    language pair has. *)
Variable P : event -> Prop.
Hypothesis wrapper_calls : forall s chunk,
  Forall P (trace_of (service_func s cfg X chunk source_lang target_lang)).

Lemma translate_chunks_calls s : forall text_chunks translated_chunks result,
  Forall P (trace_of (translate_chunks cfg X s source_lang target_lang
                        text_chunks translated_chunks result)).
Proof.
  induction text_chunks as [| chunk rest IH]; intros translated_chunks result;
    cbn [translate_chunks].
  - constructor.
  - destruct (negb (truthy (strip chunk))); [apply IH |].
    rewrite trace_bind. apply Forall_app. split; [apply wrapper_calls |].
    destruct (result_of _); [apply IH | constructor].
Qed.

Lemma try_services_calls text_chunks : forall services translated_chunks result,
  Forall P (trace_of (try_services cfg X source_lang target_lang text_chunks
                        services translated_chunks result)).
Proof.
  induction services as [| s rest IH]; intros translated_chunks result;
    cbn [try_services].
  - constructor.
  - rewrite trace_bind. apply Forall_app.
    split; [apply translate_chunks_calls |].
    destruct (result_of _) as [[all_success chunks] last].
    destruct all_success; [| apply IH].
    destruct last; [constructor | apply IH].
Qed.

Lemma translate_text_calls text :
  Forall P (trace_of (translate_text cfg X text source_lang target_lang)).
Proof.
  unfold translate_text.
  destruct (_ || _); [constructor |].
  rewrite trace_bind. apply Forall_app. split; [apply try_services_calls |].
  destruct (result_of _) as [chunks name].
  destruct chunks; [constructor |].
  destruct name as [name |]; [| constructor].
  destruct (truthy_id name); constructor.
Qed.

End Calls.

(** Every event of a translation is a provider call. *)
Lemma wrapper_only_calls cfg X source_lang target_lang s chunk :
  Forall (fun e => Observe.is_provider_call e = true)
         (trace_of (service_func s cfg X chunk source_lang target_lang)).
Proof.
  destruct s; cbn [service_func];
    unfold _translate_with_google_cloud, _translate_with_free_google,
      _translate_with_mymemory, _translate_with_libre, _translate_with_pons,
      call_translator.
  - destruct (negb (translate_client cfg)); [constructor |].
    destruct (negb (truthy (strip chunk))); [constructor |].
    rewrite trace_bind, trace_emit_bind. repeat constructor.
  - destruct (negb (DEEP_TRANSLATOR_AVAILABLE cfg)); [constructor |].
    rewrite trace_bind, trace_emit_bind. repeat constructor.
  - destruct (negb (DEEP_TRANSLATOR_AVAILABLE cfg)); [constructor |].
    rewrite trace_bind, trace_emit_bind. repeat constructor.
  - destruct (negb (DEEP_TRANSLATOR_AVAILABLE cfg)); [constructor |].
    rewrite trace_bind, trace_emit_bind. repeat constructor.
  - destruct (negb (DEEP_TRANSLATOR_AVAILABLE cfg)); [constructor |].
    destruct (500 <? len chunk); [constructor |].
    destruct (pons_lang_map source_lang); [| constructor].
    destruct (pons_lang_map target_lang); [| constructor].
    rewrite trace_bind, trace_emit_bind. repeat constructor.
Qed.

Lemma wrapper_english_to_hindi cfg X s chunk :
  Forall Observe.english_to_hindi
       (trace_of (service_func s cfg X chunk "en" "hi")).
Proof.
  destruct s; cbn [service_func];
    unfold _translate_with_google_cloud, _translate_with_free_google,
      _translate_with_mymemory, _translate_with_libre, _translate_with_pons,
      call_translator.
  - destruct (negb (translate_client cfg)); [constructor |].
    destruct (negb (truthy (strip chunk))); [constructor |].
    rewrite trace_bind, trace_emit_bind.
    constructor; [eexists _, _; reflexivity | constructor].
  - destruct (negb (DEEP_TRANSLATOR_AVAILABLE cfg)); [constructor |].
    rewrite trace_bind, trace_emit_bind.
    constructor; [eexists _, _; reflexivity | constructor].
  - destruct (negb (DEEP_TRANSLATOR_AVAILABLE cfg)); [constructor |].
    rewrite trace_bind, trace_emit_bind.
    constructor; [eexists _, _; reflexivity | constructor].
  - destruct (negb (DEEP_TRANSLATOR_AVAILABLE cfg)); [constructor |].
    rewrite trace_bind, trace_emit_bind.
    constructor; [eexists _, _; reflexivity | constructor].
  - destruct (negb (DEEP_TRANSLATOR_AVAILABLE cfg)); [constructor |].
    destruct (500 <? len chunk); constructor.
Qed.

End ProviderFacts.

(** ** The file watcher *)

Module FetcherFacts.

Import Fetcher Observe.

Lemma invocations_app path t1 t2 :
  invocations path (t1 ++ t2) = (invocations path t1 + invocations path t2)%nat.
Proof. unfold invocations. rewrite List.filter_app, length_app. reflexivity. Qed.

Lemma invocations_quiet path t :
  Forall (fun e => from_recording e = true) t -> invocations path t = O.
Proof.
  unfold invocations. induction 1 as [| e t He Ht IH]; [reflexivity |].
  destruct e; simpl in *; try discriminate; exact IH.
Qed.

Lemma not_recorded_quiet t :
  Forall (fun e => is_log e = true) t ->
  forall p, ~ In (ProcessRecording p) t.
Proof.
  intros H p Hin. rewrite List.Forall_forall in H. apply H in Hin. discriminate.
Qed.

Lemma logs_from_recording t :
  Forall (fun e => is_log e = true) t ->
  Forall (fun e => from_recording e = true) t.
Proof.
  intros H. eapply Forall_impl; [exact H |].
  intros e He. destruct e; simpl in *; congruence.
Qed.

Lemma providers_from_recording t :
  Forall (fun e => is_provider_call e = true) t ->
  Forall (fun e => from_recording e = true) t.
Proof.
  intros H. eapply Forall_impl; [exact H |].
  intros e He. destruct e; simpl in *; congruence.
Qed.

(** The trace of [process_recording]: its own mark, the gate's log lines,
    provider calls and the write of the transcript. *)
Lemma process_recording_events P w fs file :
  exists rest,
    trace_of (Recording.process_recording P w fs file)
    = ProcessRecording file :: rest
    /\ Forall (fun e => from_recording e = true) rest.
Proof.
  unfold Recording.process_recording. rewrite trace_emit_bind.
  eexists. split; [reflexivity |].
  rewrite trace_bind. apply Forall_app. split.
  { apply logs_from_recording, GateFacts.is_file_ready_logs. }
  destruct (negb (FileReady.ready _)); [constructor |].
  match goal with |- context [match ?c with Returned _ => _ | Raised _ => _ end] =>
    destruct c as [wav_path | e] end; [| constructor].
  destruct (negb (truthy _)); [constructor |].
  rewrite trace_bind. apply Forall_app. split.
  - destruct (_ && _); [| constructor].
    apply providers_from_recording, ProviderFacts.translate_text_calls.
    intros s chunk. apply ProviderFacts.wrapper_only_calls.
  - destruct (Recording.transcript_writable P _); [| constructor].
    rewrite trace_emit_bind. repeat constructor.
Qed.

(** What one call of [process_audio_file] does: one mark for its path,
    then the gate, then, when the gate opened and a processor is there, the
    processing; the processed set gains the path exactly on success, and
    the persisted set is untouched. *)
Lemma process_audio_file_spec sc st path :
  let m := process_audio_file sc st path in
  let gate := FileReady.is_file_ready (world sc path)
                FileReady.default_stability_time FileReady.default_max_wait in
  (exists rest,
     trace_of m = ProcessAudioFile path :: trace_of gate ++ rest
     /\ Forall (fun e => from_recording e = true) rest
     /\ (FileReady.ready (result_of gate) = false ->
         Forall (fun e => is_log e = true) rest))
  /\ persisted (snd (result_of m)) = persisted st
  /\ (if fst (result_of m)
      then processed_files (snd (result_of m)) = {[path]} ∪ processed_files st
           /\ FileReady.ready (result_of gate) = true
      else processed_files (snd (result_of m)) = processed_files st)
  /\ (FileReady.ready (result_of gate) = false -> result_of m = (false, st)).
Proof.
  cbv zeta. unfold process_audio_file.
  rewrite trace_emit_bind, result_emit_bind, trace_bind, result_bind.
  set (gate := FileReady.is_file_ready _ _ _).
  destruct (FileReady.ready (result_of gate)) eqn:Hready; cbn [negb].
  2: { rewrite trace_emit_bind, result_emit_bind.
       cbn [result_of trace_of mret M_ret ret fst snd].
       split; [| split; [reflexivity | split; [reflexivity | reflexivity]]].
       eexists. split; [reflexivity |]. split; repeat constructor. }
  destruct (recording_processor sc) as [P |].
  2: { rewrite trace_emit_bind, result_emit_bind.
       cbn [result_of trace_of mret M_ret ret fst snd].
       split; [| split; [reflexivity | split; [reflexivity | discriminate]]].
       eexists. split; [reflexivity |]. split; [repeat constructor | discriminate]. }
  rewrite trace_bind, result_bind.
  destruct (process_recording_events P
              (FileReady.later (FileReady.finished_at (result_of gate)) (world sc path))
              (transcripts st) path) as (rest & Htr & Hrest).
  rewrite Htr.
  destruct (result_of (Recording.process_recording _ _ _ _)) as [result fs].
  destruct (Recording.result_success result).
  - cbn [result_of trace_of mret M_ret ret fst snd processed_files persisted].
    split; [| split; [reflexivity | split; [split; reflexivity | discriminate]]].
    eexists. split; [reflexivity |]. split; [| discriminate].
    apply Forall_app. split; [| constructor].
    constructor; [reflexivity | exact Hrest].
  - rewrite trace_emit_bind, result_emit_bind.
    cbn [result_of trace_of mret M_ret ret fst snd processed_files persisted].
    split; [| split; [reflexivity | split; [reflexivity | discriminate]]].
    eexists. split; [reflexivity |]. split; [| discriminate].
    apply Forall_app. split; [| repeat constructor].
    constructor; [reflexivity | exact Hrest].
Qed.

Lemma invocations_process_audio_file sc st path x :
  invocations path (trace_of (process_audio_file sc st x))
  = if String.eqb x path then 1%nat else 0%nat.
Proof.
  destruct (process_audio_file_spec sc st x) as ((rest & Htr & Hrest & _) & _).
  rewrite Htr. change (ProcessAudioFile x :: ?t) with ([ProcessAudioFile x] ++ t).
  rewrite !invocations_app.
  rewrite (invocations_quiet path rest Hrest).
  rewrite (invocations_quiet path _
             (logs_from_recording _ (GateFacts.is_file_ready_logs _ _ _))).
  unfold invocations. simpl. destruct (String.eqb x path); reflexivity.
Qed.

(** The loop over the new files: one invocation per listed occurrence of
    a path; the processed set only gains listed paths. *)
Lemma process_all_spec sc files : forall st path,
  let m := process_all sc st files in
  invocations path (trace_of m) = count_occ string_dec files path
  /\ persisted (snd (result_of m)) = persisted st
  /\ processed_files st ⊆ processed_files (snd (result_of m))
  /\ processed_files (snd (result_of m)) ⊆ processed_files st ∪ list_to_set files.
Proof.
  induction files as [| x files IH]; intros st path; cbv zeta; cbn [process_all].
  - simpl. split; [reflexivity |]. split; [reflexivity |].
    split; [reflexivity | apply union_subseteq_l].
  - rewrite trace_bind, result_bind.
    pose proof (invocations_process_audio_file sc st path x) as Hx.
    destruct (process_audio_file_spec sc st x) as (_ & Hp & Hs & _).
    destruct (result_of (process_audio_file sc st x)) as [ok st1].
    cbn [fst snd] in *.
    rewrite trace_bind, result_bind.
    destruct (IH st1 path) as (Hinv & Hp' & Hsub & Hsup).
    destruct (result_of (process_all sc st1 files)) as [n st2].
    cbn [fst snd] in *.
    rewrite !invocations_app, Hx, Hinv. cbn [trace_of mret M_ret ret snd].
    rewrite result_ret. cbn [fst snd].
    split; [| split; [congruence | split]].
    + change (invocations path []) with O.
      simpl. destruct (string_dec x path) as [-> | Hne].
      * rewrite String.eqb_refl. lia.
      * destruct (String.eqb_spec x path); [contradiction | lia].
    + clear IH Hx Hinv Hp Hp' Hsup.
      destruct ok; [destruct Hs as [Hs _] |]; rewrite Hs in Hsub.
      * etrans; [apply union_subseteq_r | exact Hsub].
      * exact Hsub.
    + clear IH Hx Hinv Hp Hp' Hsub. rewrite list_to_set_cons.
      etrans; [exact Hsup |].
      destruct ok; [destruct Hs as [Hs _] |]; rewrite Hs.
      * rewrite (union_comm_L {[x]} (processed_files st)), <- union_assoc_L.
        reflexivity.
      * apply union_mono_l, union_subseteq_r.
Qed.

Lemma find_new_audio_files_spec sc st :
  (forall path, In path (find_new_audio_files sc st) ->
                In path (listing sc) /\ path ∉ processed_files st)
  /\ (List.NoDup (listing sc) -> List.NoDup (find_new_audio_files sc st)).
Proof.
  unfold find_new_audio_files.
  destruct (monitor_dir_exists sc); cbn [negb].
  - split.
    + intros path Hin. apply List.filter_In in Hin as [Hin Hf]. split; [exact Hin |].
      apply andb_true_iff in Hf as [_ Hf].
      apply negb_true_iff in Hf. apply bool_decide_eq_false in Hf. exact Hf.
    + apply List.NoDup_filter.
  - split; [intros path [] | intros _; constructor].
Qed.

(** Whether [process_recording] succeeds does not depend on the
    transcripts already written, nor [process_audio_file] on the state. *)
Lemma process_recording_verdict P w fs fs' file :
  fst (result_of (Recording.process_recording P w fs file))
  = fst (result_of (Recording.process_recording P w fs' file)).
Proof.
  unfold Recording.process_recording.
  rewrite !result_emit_bind, !result_bind.
  destruct (negb (FileReady.ready _)); [reflexivity |].
  match goal with |- context [match ?c with Returned _ => _ | Raised _ => _ end] =>
    destruct c as [wav_path | e] end; [| reflexivity].
  destruct (negb (truthy _)); [reflexivity |].
  rewrite !result_bind.
  destruct (Recording.transcript_writable P _); [| reflexivity].
  rewrite !result_emit_bind. reflexivity.
Qed.

Lemma process_audio_file_verdict sc st st' path :
  fst (result_of (process_audio_file sc st path))
  = fst (result_of (process_audio_file sc st' path)).
Proof.
  unfold process_audio_file.
  rewrite !result_emit_bind, !result_bind.
  destruct (negb (FileReady.ready _)).
  { rewrite !result_emit_bind. reflexivity. }
  destruct (recording_processor sc) as [P |].
  2: { rewrite !result_emit_bind. reflexivity. }
  rewrite !result_bind.
  pose proof (process_recording_verdict P
                (FileReady.later
                   (FileReady.finished_at
                      (result_of (FileReady.is_file_ready (world sc path)
                                    FileReady.default_stability_time
                                    FileReady.default_max_wait)))
                   (world sc path))
                (transcripts st) (transcripts st') path) as Hv.
  destruct (result_of (Recording.process_recording P _ (transcripts st) path))
    as [result fs].
  destruct (result_of (Recording.process_recording P _ (transcripts st') path))
    as [result' fs'].
  cbn [fst] in Hv. subst result'.
  destruct (Recording.result_success result);
    rewrite ?result_emit_bind; reflexivity.
Qed.

(** A path whose processing fails in this scan stays out of the
    processed set. *)
Lemma process_all_keeps_failed sc files : forall st path,
  path ∉ processed_files st ->
  fst (result_of (process_audio_file sc st path)) = false ->
  path ∉ processed_files (snd (result_of (process_all sc st files))).
Proof.
  induction files as [| x files IH]; intros st path Hout Hfail;
    cbn [process_all].
  - exact Hout.
  - rewrite result_bind.
    destruct (process_audio_file_spec sc st x) as (_ & _ & Hs & _).
    pose proof (process_audio_file_verdict sc st
                  (snd (result_of (process_audio_file sc st x))) path) as Hv.
    destruct (result_of (process_audio_file sc st x)) as [ok st1] eqn:Hx.
    cbn [fst snd] in *.
    rewrite result_bind.
    assert (Hout1 : path ∉ processed_files st1).
    { destruct ok; [destruct Hs as [Hs _] |]; rewrite Hs; [| exact Hout].
      rewrite not_elem_of_union, not_elem_of_singleton.
      split; [| exact Hout]. intros ->.
      rewrite Hx in Hfail. discriminate. }
    assert (Hfail1 : fst (result_of (process_audio_file sc st1 path)) = false)
      by (rewrite <- Hv; exact Hfail).
    specialize (IH st1 path Hout1 Hfail1).
    destruct (result_of (process_all sc st1 files)) as [n st2].
    exact IH.
Qed.

(** One scan: a path is processed at most once, and not at all when it is
    in the processed set, which only grows; the persisted set stays within
    the processed set, and it grows unless the write is cut short. *)
Lemma fetch_files_once_spec sc st path :
  List.NoDup (listing sc) ->
  let m := fetch_files_once sc st in
  (invocations path (trace_of m) <= 1)%nat
  /\ (path ∈ processed_files st -> invocations path (trace_of m) = O)
  /\ processed_files st ⊆ processed_files (snd (result_of m))
  /\ (persisted st ⊆ processed_files st ->
      persisted (snd (result_of m)) ⊆ processed_files (snd (result_of m))
      /\ ((save_succeeds sc = false -> log_opened sc = false) ->
          persisted st ⊆ persisted (snd (result_of m)))).
Proof.
  intros Hnd. cbv zeta. unfold fetch_files_once.
  destruct (find_new_audio_files_spec sc st) as [Hnew Hnd'].
  specialize (Hnd' Hnd).
  destruct (find_new_audio_files sc st) as [| x files] eqn:Hfiles.
  - cbn [trace_of result_of mret M_ret ret fst snd].
    change (invocations path []) with O.
    split; [lia |]. split; [reflexivity |]. split; [reflexivity |].
    intros Hinv. split; [exact Hinv | reflexivity].
  - rewrite trace_bind, result_bind.
    destruct (process_all_spec sc (x :: files) st path) as (Hcount & Hp & Hsub & _).
    destruct (result_of (process_all sc st (x :: files))) as [n st1].
    cbn [fst snd] in *. cbn [trace_of result_of mret M_ret ret snd fst].
    rewrite app_nil_r, Hcount.
    unfold save_processed_files. cbn [processed_files persisted].
    split; [| split; [| split]].
    + apply NoDup_count_occ. exact Hnd'.
    + intros Hin. apply count_occ_not_In. intros Hc.
      apply Hnew in Hc as [_ Hc]. contradiction.
    + exact Hsub.
    + intros Hinv. split.
      * destruct (save_succeeds sc); [reflexivity |].
        destruct (log_opened sc); [apply empty_subseteq |].
        rewrite Hp. etrans; [exact Hinv | exact Hsub].
      * intros Hkept. destruct (save_succeeds sc).
        -- etrans; [exact Hinv | exact Hsub].
        -- rewrite (Hkept eq_refl), Hp. reflexivity.
Qed.

(** A write that fails after the log was opened leaves it empty. *)
Lemma cut_short_write_empties sc st :
  find_new_audio_files sc st <> [] ->
  save_succeeds sc = false -> log_opened sc = true ->
  persisted (snd (result_of (fetch_files_once sc st))) = ∅.
Proof.
  intros Hnew Hsave Hopen. unfold fetch_files_once.
  destruct (find_new_audio_files sc st) as [| x files]; [contradiction |].
  rewrite result_bind.
  destruct (result_of (process_all sc st (x :: files))) as [n st1].
  cbn [fst snd result_of mret M_ret ret save_processed_files persisted].
  rewrite Hsave, Hopen. reflexivity.
Qed.

(** A new audio file that the scan lists is processed exactly once. *)
Lemma fetch_listed_once sc st path :
  List.NoDup (listing sc) ->
  monitor_dir_exists sc = true ->
  In path (listing sc) ->
  is_file sc path = true -> is_audio_file path = true ->
  path ∉ processed_files st ->
  invocations path (trace_of (fetch_files_once sc st)) = 1%nat.
Proof.
  intros Hnd Hdir Hin Hfile Haudio Hout.
  destruct (find_new_audio_files_spec sc st) as [_ Hnd'].
  specialize (Hnd' Hnd).
  assert (Hnew : In path (find_new_audio_files sc st)).
  { unfold find_new_audio_files. rewrite Hdir. cbn [negb].
    apply List.filter_In. split; [exact Hin |].
    rewrite Hfile, Haudio, bool_decide_eq_false_2 by exact Hout.
    reflexivity. }
  unfold fetch_files_once.
  destruct (find_new_audio_files sc st) as [| x files] eqn:Hfiles;
    [destruct Hnew |].
  rewrite trace_bind.
  destruct (process_all_spec sc (x :: files) st path) as (Hcount & _).
  destruct (result_of (process_all sc st (x :: files))) as [n st1].
  cbn [trace_of mret M_ret ret snd]. rewrite app_nil_r, Hcount.
  apply NoDup_count_occ'; assumption.
Qed.

(** A path that is new to a scan in which its processing fails is still
    new after the scan. *)
Lemma fetch_keeps_failed sc st path :
  path ∉ processed_files st ->
  fst (result_of (process_audio_file sc st path)) = false ->
  path ∉ processed_files (snd (result_of (fetch_files_once sc st))).
Proof.
  intros Hout Hfail. unfold fetch_files_once.
  destruct (find_new_audio_files sc st) as [| x files]; [exact Hout |].
  rewrite result_bind.
  pose proof (process_all_keeps_failed sc (x :: files) st path Hout Hfail) as H.
  destruct (result_of (process_all sc st (x :: files))) as [n st1].
  exact H.
Qed.

Lemma run_continuous_spec scans : forall st path,
  (forall sc, In sc scans -> List.NoDup (listing sc)) ->
  let m := run_continuous scans st in
  processed_files st ⊆ processed_files (result_of m)
  /\ (path ∈ processed_files st -> invocations path (trace_of m) = O)
  /\ (persisted st ⊆ processed_files st ->
      persisted (result_of m) ⊆ processed_files (result_of m)
      /\ ((forall sc, In sc scans ->
                      save_succeeds sc = false -> log_opened sc = false) ->
          persisted st ⊆ persisted (result_of m))).
Proof.
  induction scans as [| sc scans IH]; intros st path Hnd; cbv zeta;
    cbn [run_continuous].
  - cbn [trace_of result_of mret M_ret ret fst snd].
    split; [reflexivity |]. split; [reflexivity |].
    intros Hinv. split; [exact Hinv | reflexivity].
  - rewrite trace_bind, result_bind.
    destruct (fetch_files_once_spec sc st path (Hnd sc (or_introl eq_refl)))
      as (_ & Hzero & Hsub & Hper).
    destruct (IH (snd (result_of (fetch_files_once sc st))) path) as (H1 & H2 & H3).
    { intros sc' Hin. apply Hnd. right. exact Hin. }
    split; [etrans; [exact Hsub | exact H1] |].
    split.
    + intros Hin. rewrite invocations_app, (Hzero Hin), H2; [reflexivity |].
      apply Hsub. exact Hin.
    + intros Hinv. destruct (Hper Hinv) as [Hin1 Hgrow1].
      destruct (H3 Hin1) as [Hin2 Hgrow2].
      split; [exact Hin2 |].
      intros Hkept. etrans.
      * apply Hgrow1. apply Hkept. left. reflexivity.
      * apply Hgrow2. intros sc' Hsc'. apply Hkept. right. exact Hsc'.
Qed.

(** C6.  [process_audio_file] runs the completeness gate first and
    hands the file to [process_recording] only on a verdict of ready, which
    the gate gives only when the sidecar marker exists at that moment or the
    size was the same at every look (one per second) over at least the
    stability window of 5 s.  Without that verdict the file is not processed
    and the call returns [False] with the state untouched; and a file that
    is there and stays accessible but does not get the verdict is given up
    with the warning after the 120 polls of [max_wait]. *)
Theorem processing_waits_for_gate sc st path :
  let w := world sc path in
  let gate := FileReady.is_file_ready w FileReady.default_stability_time
                                      FileReady.default_max_wait in
  let m := process_audio_file sc st path in
  (exists rest,
     trace_of m = ProcessAudioFile path :: trace_of gate ++ rest
     /\ Forall (fun e => is_log e = true) (trace_of gate))
  /\ ((exists p, In (ProcessRecording p) (trace_of m)) ->
      FileReady.ready (result_of gate) = true
      /\ gate_open w FileReady.default_stability_time
                   (FileReady.finished_at (result_of gate)))
  /\ (FileReady.ready (result_of gate) = false ->
      (forall p, ~ In (ProcessRecording p) (trace_of m))
      /\ result_of m = (false, st))
  /\ (FileReady.file_exists (w O) = true ->
      (forall t, FileReady.st_size (w t) <> None) ->
      FileReady.ready (result_of gate) = false ->
      In (Log WARNING FileReady.msg_not_stable) (trace_of m)
      /\ FileReady.finished_at (result_of gate) = (settle w + 120)%nat).
Proof.
  cbv zeta.
  destruct (process_audio_file_spec sc st path)
    as ((rest & Htr & Hrest & Hquiet) & _ & _ & Hfalse).
  pose proof (GateFacts.is_file_ready_logs (world sc path)
                FileReady.default_stability_time FileReady.default_max_wait)
    as Hlogs.
  assert (Hnot : FileReady.ready
                   (result_of (FileReady.is_file_ready (world sc path)
                                 FileReady.default_stability_time
                                 FileReady.default_max_wait)) = false ->
                 forall p, ~ In (ProcessRecording p)
                              (trace_of (process_audio_file sc st path))).
  { intros Hr p Hin. rewrite Htr in Hin.
    destruct Hin as [Hin | Hin]; [discriminate |].
    apply in_app_or in Hin as [Hin | Hin].
    - exact (not_recorded_quiet _ Hlogs p Hin).
    - exact (not_recorded_quiet _ (Hquiet Hr) p Hin). }
  split; [eauto |]. split; [| split].
  - intros [p Hin].
    destruct (FileReady.ready (result_of (FileReady.is_file_ready _ _ _))) eqn:Hr.
    + split; [reflexivity |].
      apply GateFacts.is_file_ready_gate. exact Hr.
    + exfalso. exact (Hnot eq_refl p Hin).
  - intros Hr. split; [exact (Hnot Hr) | exact (Hfalse Hr)].
  - intros Hex Hacc Hr.
    destruct (GateFacts.is_file_ready_timeout (world sc path)
                FileReady.default_stability_time FileReady.default_max_wait
                Hex Hacc Hr) as [Hin Hfin].
    split; [| exact Hfin].
    rewrite Htr. right. apply in_or_app. left. exact Hin.
Qed.

(** A recording that had stopped growing is processed after five equal
    polls; one that keeps growing is given up after 120 s. *)
Example settled_file_is_processed :
  FileReady.finished_at
    (result_of (FileReady.is_file_ready Scenario.settled 5 120)) = 5%nat
  /\ recordings Scenario.a001
       (trace_of (process_audio_file (Scenario.scan_of Scenario.settled)
                                     Scenario.fresh Scenario.a001)) = 1%nat
  /\ recordings Scenario.a001
       (trace_of (process_audio_file (Scenario.scan_of Scenario.growing)
                                     Scenario.fresh Scenario.a001)) = 0%nat.
Proof. repeat split; vm_compute; reflexivity. Qed.

(** C3 (as the code has it).  Over the scans of one run, with each
    directory listing naming a path once: the processed set only grows, and
    the persisted set stays within it; a path that is in the processed
    set, loaded at start-up or added after a successful processing, is
    never passed to [process_audio_file] again; within one scan a path is
    processed at most once; a call that succeeds adds the path and a call
    that fails leaves the set as it was, so that a file whose processing
    fails in one scan is still new after it and is processed once more by
    the next scan that lists it.  The persisted set grows as long as no
    write is cut short; a write that fails after the log was opened leaves
    the log empty. *)
Theorem processed_once_after_success scans st path :
  (forall sc, In sc scans -> List.NoDup (listing sc)) ->
  persisted st ⊆ processed_files st ->
  let after := result_of (run_continuous scans st) in
  (processed_files st ⊆ processed_files after
   /\ persisted after ⊆ processed_files after
   /\ ((forall sc, In sc scans ->
                   save_succeeds sc = false -> log_opened sc = false) ->
       persisted st ⊆ persisted after))
  /\ (path ∈ processed_files st ->
      invocations path (trace_of (run_continuous scans st)) = O)
  /\ (forall before later,
        scans = before ++ later ->
        path ∈ processed_files (result_of (run_continuous before st)) ->
        invocations path
          (trace_of (run_continuous later
                       (result_of (run_continuous before st)))) = O)
  /\ (forall sc st0, In sc scans ->
        (invocations path (trace_of (fetch_files_once sc st0)) <= 1)%nat)
  /\ (forall sc st0,
        if fst (result_of (process_audio_file sc st0 path))
        then processed_files (snd (result_of (process_audio_file sc st0 path)))
             = {[path]} ∪ processed_files st0
        else processed_files (snd (result_of (process_audio_file sc st0 path)))
             = processed_files st0)
  /\ (forall sc next st0,
        path ∉ processed_files st0 ->
        fst (result_of (process_audio_file sc st0 path)) = false ->
        (path ∉ processed_files (snd (result_of (fetch_files_once sc st0))))
        /\ (List.NoDup (listing next) -> monitor_dir_exists next = true ->
            In path (listing next) ->
            is_file next path = true -> is_audio_file path = true ->
            invocations path
              (trace_of (fetch_files_once next
                           (snd (result_of (fetch_files_once sc st0)))))
            = 1%nat))
  /\ (forall sc st0,
        find_new_audio_files sc st0 <> [] ->
        save_succeeds sc = false -> log_opened sc = true ->
        persisted (snd (result_of (fetch_files_once sc st0))) = ∅).
Proof.
  intros Hnd Hinv. cbv zeta.
  destruct (run_continuous_spec scans st path Hnd) as (H1 & H2 & H3).
  destruct (H3 Hinv) as [H4 H5].
  split; [auto |]. split; [exact H2 |].
  split; [| split; [| split; [| split]]].
  - intros before later -> Hin.
    destruct (run_continuous_spec later (result_of (run_continuous before st)) path)
      as (_ & H2' & _).
    { intros sc Hsc. apply Hnd. apply in_or_app. right. exact Hsc. }
    exact (H2' Hin).
  - intros sc st0 Hsc.
    destruct (fetch_files_once_spec sc st0 path (Hnd sc Hsc)) as [H _].
    exact H.
  - intros sc st0.
    destruct (process_audio_file_spec sc st0 path) as (_ & _ & Hs & _).
    destruct (fst (result_of (process_audio_file sc st0 path)));
      [destruct Hs as [Hs _] |]; exact Hs.
  - intros sc next st0 Hout Hfail.
    pose proof (fetch_keeps_failed sc st0 path Hout Hfail) as Hstill.
    split; [exact Hstill |].
    intros Hnd' Hdir Hin Hfile Haudio.
    apply fetch_listed_once; assumption.
  - intros sc st0. apply cut_short_write_empties.
Qed.

(** The run of C3 on three scans that all meet [a001]: speech-to-text is
    down at the first and answers from the second on.  After the second
    scan the path is in the processed set, and the third scan does not
    touch it. *)
Lemma processed_once_after_success_witness :
  ((forall sc, In sc [Scenario.failing_scan; Scenario.working_scan;
                      Scenario.working_scan] ->
               List.NoDup (listing sc))
   /\ persisted Scenario.fresh ⊆ processed_files Scenario.fresh)
  /\ Scenario.a001
       ∈ processed_files
           (result_of (run_continuous
                         [Scenario.failing_scan; Scenario.working_scan]
                         Scenario.fresh))
  /\ invocations Scenario.a001
       (trace_of (run_continuous [Scenario.working_scan]
                    (result_of (run_continuous
                                  [Scenario.failing_scan; Scenario.working_scan]
                                  Scenario.fresh)))) = O.
Proof.
  assert (Hnd : forall sc, In sc [Scenario.failing_scan; Scenario.working_scan;
                                  Scenario.working_scan] ->
                           List.NoDup (listing sc)).
  { intros sc [<- | [<- | [<- | []]]]; simpl;
      (constructor; [intros [] | constructor]). }
  assert (Hinv : persisted Scenario.fresh ⊆ processed_files Scenario.fresh)
    by reflexivity.
  assert (Hin : Scenario.a001
                  ∈ processed_files
                      (result_of (run_continuous
                                    [Scenario.failing_scan; Scenario.working_scan]
                                    Scenario.fresh))).
  { apply (bool_decide_unpack _). vm_compute. exact I. }
  split; [split; [exact Hnd | exact Hinv] |]. split; [exact Hin |].
  exact (proj1 (proj2 (proj2
           (processed_once_after_success
              [Scenario.failing_scan; Scenario.working_scan; Scenario.working_scan]
              Scenario.fresh Scenario.a001 Hnd Hinv)))
           [Scenario.failing_scan; Scenario.working_scan]
           [Scenario.working_scan] eq_refl Hin).
Defined.

(** C3 (as stated, against the code).  Two scans meet the finished
    recording [a001] while speech-to-text is down: its processing fails at
    the first scan, the path is not recorded, and the second scan processes
    it again.  And a scan whose write of the log breaks off after the log
    was opened loses the name that was persisted before. *)
Lemma failed_file_is_processed_again :
  ~ (invocations Scenario.a001
       (trace_of (run_continuous [Scenario.failing_scan; Scenario.failing_scan]
                                 Scenario.fresh)) <= 1)%nat
  /\ ~ (recordings Scenario.a001
         (trace_of (run_continuous [Scenario.failing_scan; Scenario.failing_scan]
                                   Scenario.fresh)) <= 1)%nat
  /\ ~ (persisted (start {[Scenario.a000]} ∅)
          ⊆ persisted (result_of (run_continuous [Scenario.cut_short_scan]
                                                 (start {[Scenario.a000]} ∅)))).
Proof.
  split; [vm_compute; lia |]. split; [vm_compute; lia |].
  intros H.
  assert (He : persisted (result_of (run_continuous [Scenario.cut_short_scan]
                                                    (start {[Scenario.a000]} ∅)))
               = ∅).
  { cbn [run_continuous]. rewrite result_bind.
    cbn [result_of mret M_ret ret fst].
    apply cut_short_write_empties; [| reflexivity | reflexivity].
    vm_compute. discriminate. }
  rewrite He in H.
  apply (not_elem_of_empty (C := gset string) Scenario.a000), H.
  cbn [start persisted]. apply elem_of_singleton. reflexivity.
Qed.

End FetcherFacts.

(** ** Python strings: stripping and sizes *)

Module PyStrFacts.

Import Notions.

Lemma lstrip_suffix s : exists ws, s = ws ++ lstrip s.
Proof.
  induction s as [| c r [ws IH]]; [exists []; reflexivity |].
  cbn [lstrip]. destruct (isspace c).
  - exists (c :: ws). cbn [app]. f_equal. exact IH.
  - exists []. reflexivity.
Qed.

Lemma lstrip_no_lead s : no_lead (lstrip s).
Proof.
  induction s as [| c r IH]; [exact I |].
  cbn [lstrip]. destruct (isspace c) eqn:E; [exact IH | exact E].
Qed.

Lemma lstrip_fixed s : no_lead s -> lstrip s = s.
Proof. destruct s as [| c r]; [reflexivity |]. cbn. intros ->. reflexivity. Qed.

Lemma lstrip_idem s : lstrip (lstrip s) = lstrip s.
Proof. apply lstrip_fixed, lstrip_no_lead. Qed.

Lemma rstrip_prefix s : exists ws, s = rstrip s ++ ws.
Proof.
  unfold rstrip. destruct (lstrip_suffix (rev s)) as [ws H].
  exists (rev ws). rewrite <- rev_app_distr, <- H, rev_involutive. reflexivity.
Qed.

Lemma rstrip_no_lead s : no_lead s -> no_lead (rstrip s).
Proof.
  intros H. destruct (rstrip_prefix s) as [ws E].
  destruct (rstrip s) as [| c r]; [exact I |].
  rewrite E in H. exact H.
Qed.

Lemma rstrip_idem s : rstrip (rstrip s) = rstrip s.
Proof. unfold rstrip. rewrite rev_involutive, lstrip_idem. reflexivity. Qed.

(** [s.strip().strip() == s.strip()] *)
Lemma strip_idem s : strip (strip s) = strip s.
Proof.
  unfold strip.
  rewrite (lstrip_fixed (rstrip (lstrip s)))
    by apply rstrip_no_lead, lstrip_no_lead.
  apply rstrip_idem.
Qed.

Lemma utf8_len_char_bounds c : 1 <= utf8_len_char c <= 4.
Proof.
  unfold utf8_len_char.
  destruct (c <? 128)%N; [lia |].
  destruct (c <? 2048)%N; [lia |].
  destruct (c <? 65536)%N; lia.
Qed.

Lemma utf8_size_nonneg s : 0 <= utf8_size s.
Proof.
  induction s as [| c r IH]; cbn; [lia |].
  pose proof (utf8_len_char_bounds c). unfold utf8_size in IH. lia.
Qed.

Lemma utf8_size_app a b : utf8_size (a ++ b) = utf8_size a + utf8_size b.
Proof.
  induction a as [| c r IH]; [reflexivity |].
  cbn [app]. unfold utf8_size in *. cbn [fold_right]. rewrite IH. lia.
Qed.

Lemma utf8_size_rev s : utf8_size (rev s) = utf8_size s.
Proof.
  induction s as [| c r IH]; [reflexivity |].
  cbn [rev]. rewrite utf8_size_app, IH. unfold utf8_size. cbn [fold_right]. lia.
Qed.

Lemma utf8_size_lstrip s : utf8_size (lstrip s) <= utf8_size s.
Proof.
  destruct (lstrip_suffix s) as [ws H]. rewrite H at 2.
  rewrite utf8_size_app. pose proof (utf8_size_nonneg ws). lia.
Qed.

(** Stripping never adds bytes. *)
Lemma utf8_size_strip s : utf8_size (strip s) <= utf8_size s.
Proof.
  unfold strip, rstrip. rewrite utf8_size_rev.
  etrans; [apply utf8_size_lstrip |]. rewrite utf8_size_rev.
  apply utf8_size_lstrip.
Qed.

Lemma split_go_not_nil sep s : forall skip cur, split_go sep skip cur s <> [].
Proof.
  induction s as [| c r IH]; intros skip cur; cbn [split_go]; [discriminate |].
  destruct skip; [| apply IH].
  destruct (starts_with sep (c :: r)); [discriminate | apply IH].
Qed.

End PyStrFacts.

(** ** TTS chunking: where the budget holds *)

Module ChunkFacts.

Import Tts Notions PyStrFacts.

Lemma sentence_step_within_budget max_bytes last_sentence st sentence :
  utf8_size sentence + 2 <= max_bytes ->
  within_budget max_bytes st ->
  within_budget max_bytes (sentence_step max_bytes last_sentence st sentence).
Proof.
  intros Hs [Hc Hcur]. destruct st as [chunks current_chunk].
  cbn [fst snd] in Hc, Hcur. unfold sentence_step.
  set (suffix := if eqb sentence last_sentence then [] else dot_space).
  assert (Hsuf : utf8_size (sentence ++ suffix) <= max_bytes).
  { rewrite utf8_size_app. unfold suffix.
    destruct (eqb sentence last_sentence); cbn; lia. }
  destruct (Z.ltb_spec max_bytes (utf8_size (current_chunk ++ sentence ++ suffix)))
    as [Hover | Hfit].
  - destruct current_chunk as [| c r]; cbn [truthy].
    + cbn [app] in Hover. lia.
    + split; cbn [fst snd]; [| exact Hsuf].
      apply Forall_app. split; [exact Hc |].
      constructor; [| constructor].
      etrans; [apply utf8_size_strip | exact Hcur].
  - split; cbn [fst snd]; [exact Hc | lia].
Qed.

Lemma sentences_within_budget max_bytes last_sentence sentences : forall st,
  Forall (fun s => utf8_size s + 2 <= max_bytes) sentences ->
  within_budget max_bytes st ->
  within_budget max_bytes
    (fold_left (sentence_step max_bytes last_sentence) sentences st).
Proof.
  induction sentences as [| s rest IH]; intros st Hall Hst; [exact Hst |].
  cbn [fold_left]. inversion Hall as [| ? ? Hs Hrest]; subst.
  apply IH; [exact Hrest |]. apply sentence_step_within_budget; assumption.
Qed.

(** X1.  The budget holds when the sentences are short.  If every piece
    that [text.split('. ')] gives fits the budget together with the two
    bytes of its separator, every chunk [_chunk_text_for_tts] returns is
    within [max_bytes] bytes. *)
Theorem short_sentences_fit text max_bytes chunks :
  Forall (fun s => utf8_size s + 2 <= max_bytes) (split dot_space text) ->
  _chunk_text_for_tts text max_bytes = Some chunks ->
  Forall (fun c => utf8_size c <= max_bytes) chunks.
Proof.
  intros Hall. unfold _chunk_text_for_tts.
  destruct (encodable text); cbn [negb]; [| discriminate].
  destruct (Z.leb_spec (utf8_size text) max_bytes) as [Hfit | Hover].
  { intros [= <-]. constructor; [exact Hfit | constructor]. }
  assert (Hpos : 0 <= max_bytes).
  { destruct (split dot_space text) as [| s rest] eqn:E.
    - exfalso. exact (split_go_not_nil _ _ _ _ E).
    - inversion Hall as [| ? ? Hs _]; subst.
      pose proof (utf8_size_nonneg s). lia. }
  pose proof (sentences_within_budget max_bytes (last_of (split dot_space text) [])
                (split dot_space text) ([], []) Hall) as H.
  destruct (fold_left _ _ _) as [found current_chunk].
  destruct H as [Hc Hcur]; [split; [constructor | exact Hpos] |].
  cbn [fst snd] in Hc, Hcur. intros [= <-].
  destruct (truthy current_chunk); [| exact Hc].
  apply Forall_app. split; [exact Hc |].
  constructor; [| constructor].
  etrans; [apply utf8_size_strip | exact Hcur].
Qed.

(** Three short sentences under a budget of six bytes. *)
Lemma short_sentences_fit_witness :
  _chunk_text_for_tts (of_ascii "aa. bb. cc") 6
  = Some [of_ascii "aa."; of_ascii "bb. cc"]
  /\ Forall (fun c => utf8_size c <= 6) [of_ascii "aa."; of_ascii "bb. cc"].
Proof.
  assert (H : _chunk_text_for_tts (of_ascii "aa. bb. cc") 6
              = Some [of_ascii "aa."; of_ascii "bb. cc"])
    by (vm_compute; reflexivity).
  split; [exact H |].
  apply (short_sentences_fit (of_ascii "aa. bb. cc") 6); [| exact H].
  change (split dot_space (of_ascii "aa. bb. cc"))
    with [of_ascii "aa"; of_ascii "bb"; of_ascii "cc"].
  constructor; [cbv; discriminate |].
  constructor; [cbv; discriminate |].
  constructor; [cbv; discriminate | constructor].
Defined.

(** *** The character loop *)

Lemma char_steps_partition max_bytes word : forall chunks pieces char_chunk,
  4 <= max_bytes ->
  Forall (fun p => utf8_size p <= max_bytes /\ p <> []) pieces ->
  utf8_size char_chunk <= max_bytes ->
  exists pieces' char_chunk',
    fold_left (char_step max_bytes) word (chunks ++ pieces, char_chunk)
    = (chunks ++ pieces', char_chunk')
    /\ concat pieces' ++ char_chunk' = concat pieces ++ char_chunk ++ word
    /\ Forall (fun p => utf8_size p <= max_bytes /\ p <> []) pieces'
    /\ utf8_size char_chunk' <= max_bytes.
Proof.
  induction word as [| c rest IH]; intros chunks pieces char_chunk Hmax Hp Hc.
  - exists pieces, char_chunk. rewrite app_nil_r. auto.
  - cbn [fold_left char_step].
    assert (Hone : utf8_size [c] <= max_bytes).
    { pose proof (utf8_len_char_bounds c). cbn. lia. }
    destruct (Z.ltb_spec max_bytes (utf8_size (char_chunk ++ [c]))) as [Hover | Hfit].
    + destruct char_chunk as [| c0 r0]; cbn [truthy].
      * destruct (IH chunks pieces [c] Hmax Hp Hone)
          as (pieces' & cc' & E & Hcat & Hp' & Hc').
        exists pieces', cc'. split; [exact E |]. repeat split; auto.
      * destruct (IH chunks (pieces ++ [c0 :: r0]) [c] Hmax)
          as (pieces' & cc' & E & Hcat & Hp' & Hc'); [| exact Hone |].
        { apply Forall_app. split; [exact Hp |].
          constructor; [split; [exact Hc | discriminate] | constructor]. }
        exists pieces', cc'. rewrite app_assoc in E.
        split; [exact E |]. repeat split; auto.
        rewrite Hcat, concat_app. cbn [concat]. rewrite app_nil_r, <- !app_assoc.
        reflexivity.
    + destruct (IH chunks pieces (char_chunk ++ [c]) Hmax Hp Hfit)
        as (pieces' & cc' & E & Hcat & Hp' & Hc').
      exists pieces', cc'. split; [exact E |]. repeat split; auto.
      rewrite Hcat, <- !app_assoc. reflexivity.
Qed.

(** X2.  Cutting a long word loses nothing.  With a budget of at least four
    bytes (the longest encoding of one character), the character loop
    appends to the chunks pieces that are each non-empty and within the
    budget, and that put together give back the word. *)
Theorem split_chars_partition max_bytes chunks word :
  4 <= max_bytes ->
  exists pieces,
    split_chars max_bytes chunks word = chunks ++ pieces
    /\ concat pieces = word
    /\ Forall (fun p => utf8_size p <= max_bytes /\ p <> []) pieces.
Proof.
  intros Hmax. unfold split_chars.
  destruct (char_steps_partition max_bytes word chunks [] [] Hmax)
    as (pieces & cc & E & Hcat & Hp & Hc); [constructor | cbn; lia |].
  rewrite app_nil_r in E.
  match goal with
  | |- context [fold_left ?f ?w ?s] =>
      replace (fold_left f w s) with (chunks ++ pieces, cc)
        by (symmetry; exact E)
  end.
  cbn [concat app] in Hcat.
  destruct cc as [| c r]; cbn [truthy].
  - exists pieces. rewrite app_nil_r in Hcat. auto.
  - exists (pieces ++ [c :: r]). rewrite app_assoc. split; [reflexivity |].
    split.
    + rewrite concat_app. cbn [concat]. rewrite app_nil_r. exact Hcat.
    + apply Forall_app. split; [exact Hp |].
      constructor; [split; [exact Hc | discriminate] | constructor].
Qed.

(** A word of five three-byte characters under a budget of four bytes. *)
Lemma split_chars_partition_witness :
  exists pieces,
    split_chars 4 [] (repeat 2309%N 5) = [] ++ pieces
    /\ concat pieces = repeat 2309%N 5
    /\ Forall (fun p => utf8_size p <= 4 /\ p <> []) pieces.
Proof. apply (split_chars_partition 4 [] (repeat 2309%N 5)). lia. Defined.

End ChunkFacts.

(** ** The completeness gate: how long it waits *)

Module WaitFacts.

Import FileReady Observe.

Lemma poll_bounded w stability_time fuel : forall clock last_size stable_count,
  let v := result_of (poll w stability_time fuel clock last_size stable_count) in
  (clock <= finished_at v <= clock + fuel)%nat.
Proof.
  induction fuel as [| fuel IH]; intros clock last_size stable_count;
    cbv zeta; cbn [poll].
  - rewrite result_emit_bind. cbn. lia.
  - destruct (marker_exists (w (S clock))).
    { rewrite result_emit_bind. cbn. lia. }
    destruct (st_size (w (S clock))) as [current_size |].
    2: { rewrite result_emit_bind. cbn. lia. }
    destruct (current_size =? last_size).
    + destruct (stability_time <=? stable_count + 1).
      * rewrite result_emit_bind. cbn. lia.
      * specialize (IH (S clock) last_size (stable_count + 1)).
        cbv zeta in IH. lia.
    + rewrite result_emit_bind.
      specialize (IH (S clock) current_size 0). cbv zeta in IH. lia.
Qed.

(** X3.  The gate gives its verdict within [max_wait] polls.  Counting
    from the call, [is_file_ready] answers no later than the settling wait
    plus [max_wait] seconds.  A file that is there and stays accessible,
    and is not judged ready, is given up exactly then, with the warning
    that it did not stabilise. *)
Theorem verdict_within_max_wait w stability_time max_wait :
  let m := is_file_ready w stability_time max_wait in
  (finished_at (result_of m) <= settle w + Z.to_nat max_wait)%nat
  /\ (file_exists (w O) = true ->
      (forall t, st_size (w t) <> None) ->
      ready (result_of m) = false ->
      finished_at (result_of m) = (settle w + Z.to_nat max_wait)%nat
      /\ In (Log WARNING msg_not_stable) (trace_of m)).
Proof.
  cbv zeta. split.
  - unfold is_file_ready, settle.
    destruct (file_exists (w O)); cbn [negb]; [| cbn; lia].
    rewrite result_emit_bind.
    destruct (marker_exists (w O)); [rewrite result_emit_bind; cbn; lia |].
    destruct (st_size (w O)) as [initial_size |];
      [| rewrite result_emit_bind; cbn; lia].
    destruct (initial_size <? 1024); [rewrite result_emit_bind |];
      apply poll_bounded.
  - intros Hex Hacc H.
    destruct (GateFacts.is_file_ready_timeout w stability_time max_wait
                Hex Hacc H) as [Hin Hfin].
    split; assumption.
Qed.

(** A recording that grows every second under the default settings:
    given up after the 120 polls. *)
Lemma verdict_within_max_wait_witness :
  result_of (is_file_ready Scenario.growing default_stability_time
                           default_max_wait)
  = {| ready := false; finished_at := 120%nat |}
  /\ In (Log WARNING msg_not_stable)
        (trace_of (is_file_ready Scenario.growing default_stability_time
                                 default_max_wait)).
Proof.
  assert (Hr : result_of (is_file_ready Scenario.growing default_stability_time
                                        default_max_wait)
               = {| ready := false; finished_at := 120%nat |})
    by (vm_compute; reflexivity).
  split; [exact Hr |].
  destruct (verdict_within_max_wait Scenario.growing default_stability_time
                                    default_max_wait) as [_ H].
  apply H.
  - reflexivity.
  - intros t. discriminate.
  - rewrite Hr. reflexivity.
Defined.

Lemma poll_stable w stability_time size fuel : forall clock stable_count,
  0 <= stable_count < stability_time ->
  (Z.to_nat (stability_time - stable_count) <= fuel)%nat ->
  (forall t, (clock < t <= clock + Z.to_nat (stability_time - stable_count))%nat ->
             marker_exists (w t) = false /\ st_size (w t) = Some size) ->
  result_of (poll w stability_time fuel clock size stable_count)
  = {| ready := true;
       finished_at := (clock + Z.to_nat (stability_time - stable_count))%nat |}.
Proof.
  induction fuel as [| fuel IH]; intros clock stable_count Hc Hfuel Hw;
    [lia |].
  cbn [poll].
  destruct (Hw (S clock)) as [Hm Hs]; [lia |].
  rewrite Hm, Hs, Z.eqb_refl.
  destruct (Z.leb_spec stability_time (stable_count + 1)) as [Hle | Hgt].
  - rewrite result_emit_bind. cbn. f_equal. lia.
  - rewrite IH; [f_equal; lia | lia | lia |].
    intros t Ht. apply Hw. lia.
Qed.

(** X4.  A file that has stopped growing is accepted.  When the file is
    there, has no marker, and shows the same size at the call and at every
    second of the settling wait and of the [stability_time] seconds after
    it, [is_file_ready] answers ready exactly [stability_time] seconds
    after the settling wait, provided [max_wait] allows that many
    polls. *)
Theorem stable_file_is_accepted w stability_time max_wait size :
  1 <= stability_time <= max_wait ->
  file_exists (w O) = true ->
  (forall t, (t <= settle w + Z.to_nat stability_time)%nat ->
             marker_exists (w t) = false /\ st_size (w t) = Some size) ->
  result_of (is_file_ready w stability_time max_wait)
  = {| ready := true;
       finished_at := (settle w + Z.to_nat stability_time)%nat |}.
Proof.
  intros Hst Hex Hw. unfold is_file_ready.
  rewrite Hex. cbn [negb]. rewrite result_emit_bind.
  destruct (Hw O) as [Hm Hs]; [lia |].
  rewrite Hm, Hs. unfold settle in *. rewrite Hs in *.
  destruct (size <? 1024).
  - rewrite result_emit_bind.
    rewrite poll_stable; [f_equal; f_equal; f_equal; lia | lia | lia |].
    intros t Ht. apply Hw. replace (stability_time - 0) with stability_time in Ht by lia. lia.
  - rewrite poll_stable; [f_equal; f_equal; f_equal; lia | lia | lia |].
    intros t Ht. apply Hw. replace (stability_time - 0) with stability_time in Ht by lia. lia.
Qed.

(** A recording of 48000 bytes that no longer grows, with the default
    window of 5 seconds: accepted after 5 seconds. *)
Lemma stable_file_is_accepted_witness :
  result_of (is_file_ready Scenario.settled default_stability_time
                           default_max_wait)
  = {| ready := true; finished_at := 5%nat |}.
Proof.
  apply (stable_file_is_accepted Scenario.settled default_stability_time
                                 default_max_wait 48000).
  - unfold default_stability_time, default_max_wait. lia.
  - reflexivity.
  - intros t _. split; reflexivity.
Defined.

End WaitFacts.

(** ** Weather parameters: what validation and extraction guarantee *)

Module RangeFacts.

Import Weather.

(** X5.  What validation does guarantee.  A range that
    [_validate_date_parameters] returns keeps the location, starts today
    or later and ends after it starts; its end is within the sixteen days
    of the horizon, or else it is the start plus seven days.  So the
    horizon holds whenever the start is at most nine days ahead. *)
Theorem validated_dates_bounds current_date p p' s e :
  _validate_date_parameters current_date p = Returned p' ->
  start_date p' = IsoDate s -> end_date p' = IsoDate e ->
  location p' = location p
  /\ current_date <= s < e
  /\ (e <= current_date + forecast_horizon \/ e = s + 7)
  /\ (s <= current_date + 9 -> e <= current_date + forecast_horizon).
Proof.
  unfold _validate_date_parameters, default_dates, add_days, forecast_horizon.
  destruct (Z.leb_spec (current_date + 16) max_ordinal); [| discriminate].
  destruct (start_date p) as [| | t | s0] eqn:Hs; cbn [parse]; try discriminate.
  - destruct (Z.leb_spec (current_date + 7) max_ordinal); [| discriminate].
    intros [= <-]; cbn. intros [= <-] [= <-]. repeat split; lia.
  - destruct (end_date p) as [| | t | e0] eqn:He; cbn [parse]; try discriminate.
    + destruct (Z.leb_spec (current_date + 7) max_ordinal); [| discriminate].
      intros [= <-]; cbn. intros [= <-] [= <-]. repeat split; lia.
    + destruct (Z.ltb_spec s0 current_date);
        destruct (Z.ltb_spec (current_date + 16) e0); cbn;
        repeat match goal with
               | |- context [?a <=? ?b] => destruct (Z.leb_spec a b)
               end;
        try discriminate;
        intros [= <-]; cbn; rewrite ?Hs, ?He;
        intros [= <-] [= <-]; repeat split; lia.
Qed.

(** A range that starts in the past and reaches a month ahead, on
    2025-08-18: cut to today .. today + 16. *)
Lemma validated_dates_bounds_witness :
  _validate_date_parameters Scenario.today
    {| location := Some (of_ascii "411001");
       start_date := IsoDate (Scenario.today - 3);
       end_date := IsoDate (Scenario.today + 30);
       reasoning := None |}
  = Returned {| location := Some (of_ascii "411001");
                start_date := IsoDate Scenario.today;
                end_date := IsoDate (Scenario.today + 16);
                reasoning := None |}
  /\ Scenario.today <= Scenario.today < Scenario.today + 16.
Proof.
  assert (H : _validate_date_parameters Scenario.today
                {| location := Some (of_ascii "411001");
                   start_date := IsoDate (Scenario.today - 3);
                   end_date := IsoDate (Scenario.today + 30);
                   reasoning := None |}
              = Returned {| location := Some (of_ascii "411001");
                            start_date := IsoDate Scenario.today;
                            end_date := IsoDate (Scenario.today + 16);
                            reasoning := None |})
    by (vm_compute; reflexivity).
  split; [exact H |].
  exact (proj1 (proj2 (validated_dates_bounds _ _ _ _ _ H eq_refl eq_refl))).
Defined.

Lemma defaults_answer current_date profile :
  current_date + 7 <= max_ordinal ->
  exists p,
    _get_default_parameters current_date profile = Returned p
    /\ start_date p = IsoDate current_date
    /\ end_date p = IsoDate (current_date + 7).
Proof.
  intros Hmax. unfold _get_default_parameters, add_days.
  destruct (Z.leb_spec (current_date + 7) max_ordinal); [| lia].
  eexists. repeat split.
Qed.

Lemma validated_dates_are_dates current_date p p' :
  _validate_date_parameters current_date p = Returned p' ->
  exists s e, start_date p' = IsoDate s /\ end_date p' = IsoDate e.
Proof.
  unfold _validate_date_parameters, default_dates, add_days.
  destruct (Z.leb_spec (current_date + 16) max_ordinal); [| discriminate].
  destruct (start_date p) as [| | t | s0] eqn:Hs; cbn [parse]; try discriminate.
  - destruct (Z.leb_spec (current_date + 7) max_ordinal); [| discriminate].
    intros [= <-]; cbn. eauto.
  - destruct (end_date p) as [| | t | e0] eqn:He; cbn [parse]; try discriminate.
    + destruct (Z.leb_spec (current_date + 7) max_ordinal); [| discriminate].
      intros [= <-]; cbn. eauto.
    + destruct (Z.ltb_spec s0 current_date);
        destruct (Z.ltb_spec (current_date + 16) e0); cbn;
        repeat match goal with
               | |- context [?a <=? ?b] => destruct (Z.leb_spec a b)
               end;
        try discriminate;
        intros [= <-]; cbn; rewrite ?Hs, ?He; eauto.
Qed.

(** X6.  Parameter extraction answers once the prompt is built.  The
    profile block of the prompt is built before the [try]: when that
    raises (a [crops] value that is not a list of dicts with text names),
    the exception leaves [_extract_weather_parameters].  When it does not
    (or the profile is empty), whatever the LLM replied (an exception, text
    without JSON, invalid JSON, or an object with any values under the date
    keys) the function returns parameters whose dates are dates, with a
    range that starts today or later and ends after it starts; when the
    reply held no JSON object the range is today .. today + 7. *)
Theorem extraction_answers current_date reply profile :
  current_date + 7 <= max_ordinal ->
  match match profile with
        | Some f => profile_context f
        | None => Returned []
        end with
  | Raised exn =>
      _extract_weather_parameters current_date reply profile = Raised exn
  | Returned _ =>
      exists p s e,
        _extract_weather_parameters current_date reply profile = Returned p
        /\ start_date p = IsoDate s /\ end_date p = IsoDate e
        /\ current_date <= s < e
        /\ ((forall q, reply <> JsonObject q) ->
            s = current_date /\ e = current_date + 7)
  end.
Proof.
  intros Hmax. unfold _extract_weather_parameters.
  destruct (match profile with
            | Some f => profile_context f
            | None => Returned []
            end) as [context | exn]; [| reflexivity].
  destruct (defaults_answer current_date profile Hmax) as (d & Hd & Hds & Hde).
  assert (Hdef : exists p s e,
             _get_default_parameters current_date profile = Returned p
             /\ start_date p = IsoDate s /\ end_date p = IsoDate e
             /\ current_date <= s < e
             /\ s = current_date /\ e = current_date + 7).
  { exists d, current_date, (current_date + 7). repeat split; auto; lia. }
  destruct reply as [| | | q];
    try (destruct Hdef as (p & s & e & H1 & H2 & H3 & H4 & H5);
         exists p, s, e; repeat split; auto; lia).
  destruct (_validate_date_parameters current_date q) as [p' | msg] eqn:Hv.
  - destruct (validated_dates_are_dates _ _ _ Hv) as (s & e & Hs & He).
    pose proof (WeatherFacts.validated_range _ _ _ _ _ Hv Hs He) as Hb.
    exists p', s, e.
    split; [reflexivity |]. split; [exact Hs |]. split; [exact He |].
    split; [exact Hb |].
    intros Hno. exfalso. apply (Hno q). reflexivity.
  - destruct Hdef as (p & s & e & H1 & H2 & H3 & H4 & H5).
    exists p, s, e. repeat split; auto; lia.
Qed.

(** On 2025-08-18, with no JSON in the reply: a profile whose block
    builds, and one whose crops are names, not dicts. *)
Lemma extraction_answers_witness :
  (exists p s e,
     _extract_weather_parameters Scenario.today NoJson
       (Some Cases.ravi_profile) = Returned p
     /\ start_date p = IsoDate s /\ end_date p = IsoDate e
     /\ Scenario.today <= s < e
     /\ ((forall q, NoJson <> JsonObject q) ->
         s = Scenario.today /\ e = Scenario.today + 7))
  /\ _extract_weather_parameters Scenario.today NoJson
       (Some Cases.profile_with_crop_names) = Raised "AttributeError".
Proof.
  assert (H : Scenario.today + 7 <= max_ordinal)
    by (unfold Scenario.today, max_ordinal; lia).
  split.
  - exact (extraction_answers Scenario.today NoJson
             (Some Cases.ravi_profile) H).
  - exact (extraction_answers Scenario.today NoJson
             (Some Cases.profile_with_crop_names) H).
Defined.


(** *** The seasons *)

Import Seasons.

Lemma month_cases m :
  1 <= m <= 12 ->
  m = 1 \/ m = 2 \/ m = 3 \/ m = 4 \/ m = 5 \/ m = 6
  \/ m = 7 \/ m = 8 \/ m = 9 \/ m = 10 \/ m = 11 \/ m = 12.
Proof. lia. Qed.

(** X7.  The season and the stage of every month.  For each month of the
    year [_determine_seasonal_context] finds a season of the table that
    holds the month (the default is never needed, and no key is ever
    missing): kharif from June to October, zaid in May only (April and
    June go to the seasons listed before it), rabi otherwise.  The stage
    is sowing in May, June, July, November and December, harvest in March,
    April, September and October, and growing in January, February and
    August. *)
Theorem season_by_month m :
  1 <= m <= 12 ->
  exists c,
    _determine_seasonal_context m = Returned c
    /\ in_season (context_season_info c) m = true
    /\ current_season c
       = (if (6 <=? m) && (m <=? 10) then "kharif"
          else if m =? 5 then "zaid" else "rabi")
    /\ farming_stage c
       = (if existsb (Z.eqb m) [5; 6; 7; 11; 12] then "sowing"
          else if existsb (Z.eqb m) [3; 4; 9; 10] then "harvest"
          else "growing").
Proof.
  intros H.
  destruct (month_cases m H)
    as [-> | [-> | [-> | [-> | [-> | [-> | [-> | [-> | [-> | [-> | [-> | ->]]]]]]]]]]];
    eexists; (split; [vm_compute; reflexivity |]); repeat split.
Qed.

(** May and August. *)
Lemma season_by_month_witness :
  (exists c, _determine_seasonal_context 5 = Returned c
             /\ current_season c = "zaid" /\ farming_stage c = "sowing")
  /\ (exists c, _determine_seasonal_context 8 = Returned c
                /\ current_season c = "kharif" /\ farming_stage c = "growing").
Proof.
  split.
  - destruct (season_by_month 5) as (c & H1 & _ & H2 & H3); [lia |].
    exists c. auto.
  - destruct (season_by_month 8) as (c & H1 & _ & H2 & H3); [lia |].
    exists c. auto.
Defined.

(** X8.  The ranges asked of the forecast in the generic pipeline.  In every
    month the first range is today .. today + 7.  The second starts today
    and runs for 30 days in the sowing months (May, June, July, November,
    December) and for 14 days in the others: in the sowing months it
    reaches past the horizon of 16 days. *)
Theorem seasonal_ranges_by_month current_date m :
  1 <= m <= 12 ->
  current_date + 30 <= max_ordinal ->
  exists c second,
    _determine_seasonal_context m = Returned c
    /\ _generate_seasonal_date_ranges current_date c
       = Returned [ {| range_name := "immediate";
                       range_start := current_date;
                       range_end := current_date + 7 |};
                    second ]
    /\ range_start second = current_date
    /\ range_end second
       = current_date
         + (if existsb (Z.eqb m) [5; 6; 7; 11; 12] then 30 else 14)
    /\ (existsb (Z.eqb m) [5; 6; 7; 11; 12] = true ->
        current_date + forecast_horizon < range_end second).
Proof.
  intros H Hmax.
  assert (H7 : add_days current_date 7 = Returned (current_date + 7)).
  { unfold add_days. destruct (Z.leb_spec (current_date + 7) max_ordinal);
      [reflexivity | lia]. }
  assert (H14 : add_days current_date 14 = Returned (current_date + 14)).
  { unfold add_days. destruct (Z.leb_spec (current_date + 14) max_ordinal);
      [reflexivity | lia]. }
  assert (H30 : add_days current_date 30 = Returned (current_date + 30)).
  { unfold add_days. destruct (Z.leb_spec (current_date + 30) max_ordinal);
      [reflexivity | lia]. }
  destruct (month_cases m H)
    as [-> | [-> | [-> | [-> | [-> | [-> | [-> | [-> | [-> | [-> | [-> | ->]]]]]]]]]]];
    eexists; eexists; (split; [vm_compute; reflexivity |]);
    unfold _generate_seasonal_date_ranges;
    cbn [farming_stage String.eqb Ascii.eqb Bool.eqb];
    rewrite H7, ?H14, ?H30;
    (split; [reflexivity |]); cbn; unfold forecast_horizon;
    repeat split; try discriminate; intros; lia.
Qed.

(** July of 2025. *)
Lemma seasonal_ranges_by_month_witness :
  exists c second,
    _determine_seasonal_context 7 = Returned c
    /\ _generate_seasonal_date_ranges Scenario.today c
       = Returned [ {| range_name := "immediate";
                       range_start := Scenario.today;
                       range_end := Scenario.today + 7 |};
                    second ]
    /\ range_end second = Scenario.today + 30.
Proof.
  destruct (seasonal_ranges_by_month Scenario.today 7)
    as (c & second & H1 & H2 & _ & H3 & _).
  - lia.
  - unfold Scenario.today, max_ordinal. lia.
  - exists c, second. auto.
Defined.

End RangeFacts.

(** ** Translation: the order of the services and the fallback *)

Module ServiceFacts.

Import Translate Notions.

Lemma translate_chunks_fail cfg X s source_lang target_lang text_chunks :
  always_fails cfg X source_lang target_lang s ->
  forall translated_chunks result,
    let r := result_of (translate_chunks cfg X s source_lang target_lang
                                         text_chunks translated_chunks result) in
    if has_text text_chunks then fst (fst r) = false
    else fst (fst r) = true /\ snd r = result.
Proof.
  intros Hfail.
  induction text_chunks as [| chunk rest IH]; intros acc result; cbv zeta;
    cbn [translate_chunks has_text existsb].
  - split; reflexivity.
  - destruct (truthy (strip chunk)); cbn [negb orb].
    + rewrite result_bind. destruct (Hfail chunk) as [o ->]. reflexivity.
    + apply IH.
Qed.

Lemma try_services_fail cfg X source_lang target_lang text_chunks services :
  (forall s, In s services -> always_fails cfg X source_lang target_lang s) ->
  forall translated_chunks result,
    result = None \/ has_text text_chunks = true ->
    snd (result_of (try_services cfg X source_lang target_lang text_chunks
                                 services translated_chunks result)) = None.
Proof.
  induction services as [| s rest IH]; intros Hfail acc result Hinv;
    cbn [try_services]; [reflexivity |].
  rewrite result_bind.
  pose proof (translate_chunks_fail cfg X s source_lang target_lang text_chunks
                (Hfail s (or_introl eq_refl)) [] result) as H.
  cbv zeta in H.
  destruct (result_of (translate_chunks cfg X s source_lang target_lang
                                        text_chunks [] result))
    as [[all_success chunks'] result'].
  cbn [fst snd] in H.
  destruct (has_text text_chunks) eqn:Htext.
  - rewrite H. apply IH; [| right; reflexivity].
    intros s' Hs'. apply Hfail. right. exact Hs'.
  - destruct H as [-> ->].
    destruct Hinv as [-> | Hc]; [| discriminate].
    apply IH; [| left; reflexivity].
    intros s' Hs'. apply Hfail. right. exact Hs'.
Qed.

(** X9.  When every provider fails, the phrase table answers.  If each
    service of the list fails on whatever it is given (or the list is
    empty), [translate_text] returns what [_get_offline_translation]
    gives for the whole text; that result names no service, and its
    [success] flag is set exactly when the table changed the text. *)
Theorem providers_failing_offline cfg X text source_lang target_lang :
  (forall s, In s (translation_services cfg) ->
             always_fails cfg X source_lang target_lang s) ->
  String.eqb source_lang target_lang = false ->
  truthy (strip text) = true ->
  let r := result_of (translate_text cfg X text source_lang target_lang) in
  r = _get_offline_translation X text source_lang target_lang
  /\ service_used r = None
  /\ (success r = true <-> translated_text r <> text).
Proof.
  intros Hfail Hne Htext. cbv zeta. unfold translate_text.
  rewrite Hne, Htext. cbn [negb orb]. rewrite result_bind.
  pose proof (try_services_fail cfg X source_lang target_lang
                (_split_text_into_chunks text (max_chunk_size cfg))
                (translation_services cfg) Hfail [] None
                (or_introl eq_refl)) as H.
  destruct (result_of (try_services _ _ _ _ _ _ _ _)) as [chunks name].
  cbn [snd] in H. subst name.
  replace (result_of
             (match chunks with
              | [] => mret (_get_offline_translation X text source_lang target_lang)
              | _ :: _ =>
                  mret (_get_offline_translation X text source_lang target_lang)
              end))
    with (_get_offline_translation X text source_lang target_lang)
    by (destruct chunks; reflexivity).
  split; [reflexivity |].
  unfold _get_offline_translation.
  destruct (table_of target_lang) as [table |];
    destruct (String.eqb source_lang "en");
    try (destruct (table_of source_lang) as [table' |]);
    try (destruct (String.eqb target_lang "en"));
    cbn [service_used success translated_text];
    (split; [reflexivity |]);
    try (split; [discriminate | intros H'; exfalso; apply H'; reflexivity]);
    unfold eqb; rewrite negb_true_iff, bool_decide_eq_false; reflexivity.
Qed.


(** Every provider is unreachable and the text is in the phrase table:
    the table answers. *)
Lemma providers_failing_offline_witness :
  result_of (translate_text (Scenario.default_config false)
                            Scenario.providers_down (of_ascii "Hello") "en" "hi")
  = {| translated_text := [2344; 2350; 2360; 2381; 2340; 2375]%N;
       source_language := "en"; target_language := "hi";
       success := true; service_used := None |}.
Proof.
  destruct (providers_failing_offline
              (Scenario.default_config false) Scenario.providers_down
              (of_ascii "Hello") "en" "hi") as (H & _).
  - intros s _ chunk. destruct s; cbn.
    + eexists. reflexivity.
    + eexists. reflexivity.
    + eexists. reflexivity.
    + eexists. reflexivity.
    + destruct (500 <? len chunk); eexists; reflexivity.
  - reflexivity.
  - reflexivity.
  - rewrite H. vm_compute. reflexivity.
Defined.

Lemma wrapper_names_itself cfg X s text source_lang target_lang t name :
  result_of (service_func s cfg X text source_lang target_lang)
  = Translated t name ->
  name = service_name s.
Proof.
  destruct s; cbn [service_func];
    unfold _translate_with_google_cloud, _translate_with_free_google,
           _translate_with_mymemory, _translate_with_libre,
           _translate_with_pons, call_translator;
    repeat match goal with
           | |- context [if ?b then _ else _] => destruct b
           | |- context [match pons_lang_map ?l with _ => _ end] =>
               destruct (pons_lang_map l)
           end;
    cbn [negb]; try discriminate;
    rewrite ?result_bind, ?result_emit_bind; cbn [result_of mret M_ret ret fst];
    match goal with
    | |- context [translator ?X ?s ?a ?b ?c] => destruct (translator X s a b c)
    end; cbn [reply_of]; intros [=]; subst; reflexivity.
Qed.

(** X10.  The first service that answers is the one used.  For a text that
    goes out as one chunk, when the first service of the list translates
    it, [translate_text] returns that translation under that service's
    name, and no other service is called. *)
Theorem first_service_wins cfg X text source_lang target_lang s rest t name :
  translation_services cfg = s :: rest ->
  String.eqb source_lang target_lang = false ->
  truthy (strip text) = true ->
  len text <= Z.pos (max_chunk_size cfg) ->
  result_of (service_func s cfg X text source_lang target_lang)
  = Translated t name ->
  result_of (translate_text cfg X text source_lang target_lang)
  = {| translated_text := t; source_language := source_lang;
       target_language := target_lang; success := true;
       service_used := Some (service_name s) |}
  /\ trace_of (translate_text cfg X text source_lang target_lang)
     = trace_of (service_func s cfg X text source_lang target_lang).
Proof.
  intros Hs Hne Htext Hlen Hreply.
  pose proof (wrapper_names_itself _ _ _ _ _ _ _ _ Hreply) as ->.
  unfold translate_text. rewrite Hne, Htext. cbn [negb orb].
  unfold _split_text_into_chunks.
  destruct (Z.leb_spec (len text) (Z.pos (max_chunk_size cfg))) as [_ | Hgt];
    [| lia].
  rewrite Hs. cbn [try_services translate_chunks]. rewrite Htext. cbn [negb].
  rewrite !trace_bind, !result_bind, Hreply.
  cbn [translate_chunks trace_of result_of mret M_ret ret fst snd app
       reply_service join].
  assert (Hname : truthy_id (service_name s) = true) by (destruct s; reflexivity).
  rewrite Hname. cbn [trace_of result_of mret M_ret ret fst snd].
  rewrite !app_nil_r. split; reflexivity.
Qed.

(** The default configuration without the Google client, with providers
    that answer: the free Google service comes first and is used. *)
Lemma first_service_wins_witness :
  result_of (translate_text (Scenario.default_config false)
                            Scenario.providers_up (of_ascii "Hello") "en" "hi")
  = {| translated_text := of_ascii "hi:Hello"; source_language := "en";
       target_language := "hi"; success := true;
       service_used := Some "free_google" |}.
Proof.
  exact (proj1 (first_service_wins
                  (Scenario.default_config false) Scenario.providers_up
                  (of_ascii "Hello") "en" "hi" free_google
                  [mymemory; libretranslate; pons]
                  (of_ascii "hi:Hello") "free_google"
                  eq_refl eq_refl eq_refl
                  ltac:(vm_compute; discriminate) eq_refl)).
Defined.

End ServiceFacts.

(** ** Language codes and voices *)

Module LanguageFacts.

Import Recording Voices Notions.

Lemma lower_ascii_char_idem a :
  lower_ascii_char (lower_ascii_char a) = lower_ascii_char a.
Proof.
  destruct a as [[] [] [] [] [] [] [] []]; vm_compute; reflexivity.
Qed.

Lemma lower_id_idem s : lower_id (lower_id s) = lower_id s.
Proof.
  induction s as [| a r IH]; [reflexivity |].
  cbn [lower_id]. rewrite lower_ascii_char_idem, IH. reflexivity.
Qed.

Lemma lower_keeps_dash a :
  Ascii.eqb (lower_ascii_char a) "-" = Ascii.eqb a "-".
Proof.
  destruct a as [[] [] [] [] [] [] [] []]; vm_compute; reflexivity.
Qed.

Lemma lower_before_dash s : lower_id (before_dash s) = before_dash (lower_id s).
Proof.
  induction s as [| a r IH]; [reflexivity |].
  cbn [before_dash lower_id]. rewrite lower_keeps_dash.
  destruct (Ascii.eqb a "-"); [reflexivity |].
  cbn [lower_id]. rewrite IH. reflexivity.
Qed.

Lemma before_dash_idem s : before_dash (before_dash s) = before_dash s.
Proof.
  induction s as [| a r IH]; [reflexivity |].
  cbn [before_dash]. destruct (Ascii.eqb a "-") eqn:E; [reflexivity |].
  cbn [before_dash]. rewrite E, IH. reflexivity.
Qed.

Lemma mapping_keys_dashed :
  forallb (fun e => negb (String.eqb (before_dash (fst e)) (fst e)))
          google_language_mapping = true.
Proof. vm_compute. reflexivity. Qed.

Lemma mapping_values_plain :
  forallb (fun e => String.eqb (lower_id (snd e)) (snd e)
                    && String.eqb (before_dash (snd e)) (snd e))
          google_language_mapping = true.
Proof. vm_compute. reflexivity. Qed.

Lemma mapping_misses_dashless s :
  dashless s ->
  find (fun e => String.eqb (fst e) s) google_language_mapping = None.
Proof.
  intros Hs.
  destruct (find _ google_language_mapping) as [e |] eqn:Hf; [| reflexivity].
  apply find_some in Hf as [Hin He]. apply String.eqb_eq in He.
  pose proof mapping_keys_dashed as Hk. rewrite forallb_forall in Hk.
  specialize (Hk e Hin). rewrite He, Hs, String.eqb_refl in Hk. discriminate.
Qed.

Lemma normalized_plain lang_code :
  let n := _normalize_language_code lang_code in
  lower_id n = n /\ dashless n.
Proof.
  cbv zeta. unfold _normalize_language_code, dashless.
  destruct (find _ google_language_mapping) as [e |] eqn:Hf; cbn [fmap option_fmap option_map from_option id].
  - apply find_some in Hf as [Hin _].
    pose proof mapping_values_plain as Hv. rewrite forallb_forall in Hv.
    specialize (Hv e Hin). apply andb_true_iff in Hv as [H1 H2].
    apply String.eqb_eq in H1, H2. rewrite H2. split; assumption.
  - split; [| apply before_dash_idem].
    rewrite lower_before_dash, lower_id_idem. reflexivity.
Qed.

Lemma normalize_fixed lang_code :
  _normalize_language_code (_normalize_language_code lang_code)
  = _normalize_language_code lang_code.
Proof.
  destruct (normalized_plain lang_code) as [Hl Hd].
  unfold _normalize_language_code at 1. rewrite Hl.
  rewrite (mapping_misses_dashless _ Hd).
  cbn [fmap option_fmap option_map from_option id].
  exact Hd.
Qed.

(** X11.  Normalising a language code twice changes nothing.  The code
    [_normalize_language_code] returns is in lower case and holds no
    ['-'], and normalising it again gives it back. *)
Theorem normalize_idempotent lang_code :
  let n := _normalize_language_code lang_code in
  _normalize_language_code n = n
  /\ lower_id n = n
  /\ before_dash n = n.
Proof.
  cbv zeta. destruct (normalized_plain lang_code) as [Hl Hd].
  split; [apply normalize_fixed |]. split; [exact Hl | exact Hd].
Qed.

(** X12.  The voice of a language speaks that language.  For every language
    of the voice table except Chinese (whose voice is ["cmn-CN"]), the
    [language_code] of the voice [_get_google_tts_voice] gives normalises
    back to the language; a voice name passed by the caller replaces the
    name and leaves the [language_code]; and a language that is not in the
    table gets the English voice. *)
Theorem voice_speaks_language language name :
  exists v,
    _get_google_tts_voice language name = Returned v
    /\ (forall n, name = Some n -> n <> "" -> voice_name v = n)
    /\ match lookup_voice language with
       | Some _ =>
           language <> "zh" ->
           _normalize_language_code (language_code v) = language
       | None => language_code v = "en-US"
       end.
Proof.
  assert (Hall : forallb (fun e =>
                    String.eqb (fst e) "zh"
                    || String.eqb (_normalize_language_code
                                     (language_code (snd e))) (fst e))
                   voice_configs = true) by (vm_compute; reflexivity).
  rewrite forallb_forall in Hall.
  unfold _get_google_tts_voice.
  change (lookup_voice "en")
    with (Some {| language_code := "en-US"; voice_name := "en-US-Neural2-C" |}).
  cbv iota beta.
  assert (Hcfg : match lookup_voice language with
                 | Some c =>
                     language <> "zh" ->
                     _normalize_language_code (language_code c) = language
                 | None => True
                 end).
  { unfold lookup_voice.
    destruct (find _ voice_configs) as [e |] eqn:Hf; cbn [fmap option_fmap option_map]; [| exact I].
    apply find_some in Hf as [Hin He]. apply String.eqb_eq in He.
    specialize (Hall e Hin). rewrite He in Hall. intros Hzh.
    apply orb_true_iff in Hall as [H | H]; apply String.eqb_eq in H;
      [contradiction | exact H]. }
  destruct (lookup_voice language) as [c |]; cbn [from_option id];
    (destruct name as [n |];
     [destruct (Translate.truthy_id n) eqn:Hn |]);
    eexists; (split; [reflexivity |]); cbn [voice_name language_code];
    (split; [| first [exact Hcfg | reflexivity]]);
    intros n' [= <-] Hne; try reflexivity.
  - unfold Translate.truthy_id in Hn. apply negb_false_iff, String.eqb_eq in Hn.
    contradiction.
  - unfold Translate.truthy_id in Hn. apply negb_false_iff, String.eqb_eq in Hn.
    contradiction.
Qed.

End LanguageFacts.

(** ** The transcript monitor *)

Module MonitorFacts.

Import Monitor Observe Watcher Notions.

Lemma synthesize_all_speech A language chunks :
  Forall (fun e => exists chunk, e = TtsCall language chunk)
         (trace_of (Audio.synthesize_all A language chunks)).
Proof.
  induction chunks as [| chunk rest IH]; cbn [Audio.synthesize_all].
  - constructor.
  - rewrite trace_emit_bind. constructor; [eauto |].
    destruct (Audio.synthesize_speech A language chunk); [exact IH | constructor].
Qed.

Lemma text_to_speech_calls A text language :
  Forall (fun e => exists chunk, e = TtsCall language chunk)
         (trace_of (Audio.text_to_speech A text language)).
Proof.
  unfold Audio.text_to_speech.
  destruct (Tts._chunk_text_for_tts text Tts.default_max_bytes) as [chunks |];
    [| constructor].
  rewrite trace_bind. apply Forall_app. split.
  - destruct chunks as [| c [| c' rest]]; apply synthesize_all_speech.
  - destruct (result_of _); constructor.
Qed.

Lemma translate_english_to_hindi cfg X text :
  Forall english_to_hindi
         (trace_of (Translate.translate_text cfg X text "en" "hi")).
Proof.
  apply ProviderFacts.translate_text_calls.
  intros s chunk. apply ProviderFacts.wrapper_english_to_hindi.
Qed.

(** The trace and the result of [generate_multilingual_audio] for a
    target other than English. *)
Lemma generate_audio_shape cfg X A text target :
  String.eqb (lower_id target) "en" = false ->
  let tr := Translate.translate_text cfg X text "en" target in
  let speech :=
    Audio.text_to_speech A (Translate.translated_text (result_of tr)) target in
  let m := Audio.generate_multilingual_audio cfg X A text target in
  trace_of m
  = trace_of tr
    ++ (if Translate.success (result_of tr) then trace_of speech else [])
  /\ Audio.audio_target_language (result_of m) = target
  /\ Audio.audio_success (result_of m)
     = Translate.success (result_of tr)
       && match result_of speech with Returned _ => true | Raised _ => false end
  /\ (Audio.audio_success (result_of m) = true ->
      exists path,
        result_of speech = Returned path
        /\ Audio.audio_file (result_of m) = Some path
        /\ Audio.spoken_text (result_of m)
           = Some (Translate.translated_text (result_of tr))).
Proof.
  intros Hne. cbv zeta.
  unfold Audio.generate_multilingual_audio, Audio.translate_to_language.
  rewrite Hne. cbn [negb].
  unfold mbind, M_bind, bind, mret, M_ret, ret.
  destruct (Translate.translate_text cfg X text "en" target) as [tr t1].
  cbn [trace_of result_of fst snd].
  destruct (Translate.success tr); cbn [negb andb].
  - destruct (Audio.text_to_speech A (Translate.translated_text tr) target)
      as [[path | e] t2];
      cbn [trace_of result_of fst snd Audio.audio_target_language
           Audio.audio_success Audio.audio_failure Audio.audio_file
           Audio.spoken_text];
      rewrite ?app_nil_r; repeat split; try reflexivity; try (intros [=]); eauto.
  - cbn [trace_of result_of fst snd Audio.audio_target_language
         Audio.audio_success Audio.audio_failure].
    rewrite ?app_nil_r. repeat split; try reflexivity. intros [=].
Qed.


(** What [_generate_audio_response] does with the processor [P] it
    finds or builds: two translations from English to Hindi, the second
    inside [generate_multilingual_audio], then the files. *)
Lemma audio_response_shape X st response_text original_input filename :
  let m := _generate_audio_response X st response_text original_input filename in
  processed_files (snd (result_of m)) = processed_files st
  /\ persisted (snd (result_of m)) = persisted st
  /\ match (match tts_processor st with
            | Some P => Some P
            | None => new_tts_processor X
            end) with
     | None => trace_of m = [] /\ fst (result_of m) = None
     | Some P =>
         let cfg := Recording.translation_config P in
         let T := Recording.translation_services P in
         let first := Translate.translate_text cfg T response_text "en" "hi" in
         let hindi_text :=
           if Translate.success (result_of first)
           then Translate.translated_text (result_of first)
           else response_text in
         let second :=
           Audio.generate_multilingual_audio cfg T (Recording.tts P)
                                             hindi_text "hi" in
         fst (result_of m) = Some (result_of second)
         /\ exists files,
              trace_of m = trace_of first ++ trace_of second ++ files
              /\ Forall playback_event files
     end.
Proof.
  cbv zeta. unfold _generate_audio_response.
  set (st1 := match tts_processor st with Some _ => st | None => _ end).
  assert (Hst : processed_files st1 = processed_files st
                /\ persisted st1 = persisted st
                /\ tts_processor st1
                   = match tts_processor st with
                     | Some P => Some P
                     | None => new_tts_processor X
                     end).
  { unfold st1. destruct (tts_processor st) eqn:E; cbn; auto. }
  destruct Hst as (Hp1 & Hp2 & Hp3). rewrite <- Hp3.
  destruct (tts_processor st1) as [P |].
  2: { cbn [trace_of result_of mret M_ret ret fst snd]. auto. }
  rewrite trace_bind, result_bind, trace_bind, result_bind.
  unfold response_target_lang, response_source_lang.
  set (first := Translate.translate_text _ _ response_text "en" "hi").
  set (hindi_text := if Translate.success _ then _ else response_text).
  set (second := Audio.generate_multilingual_audio _ _ _ hindi_text "hi").
  destruct (Audio.audio_success (result_of second));
    [destruct (Audio.audio_file (result_of second)) |].
  - rewrite !trace_emit_bind, !result_emit_bind.
    cbn [trace_of result_of mret M_ret ret fst snd].
    repeat split; auto.
    eexists. split; [reflexivity |].
    constructor; [eexists; left; reflexivity |].
    constructor; [eexists; right; eexists; reflexivity | constructor].
  - cbn [trace_of result_of mret M_ret ret fst snd].
    repeat split; auto. exists []. split; [reflexivity | constructor].
  - cbn [trace_of result_of mret M_ret ret fst snd].
    repeat split; auto. exists []. split; [reflexivity | constructor].
Qed.


Lemma audio_response_trace X st response_text original_input filename :
  let m := _generate_audio_response X st response_text original_input filename in
  (exists translations speech files,
     trace_of m = translations ++ speech ++ files
     /\ Forall english_to_hindi translations
     /\ Forall hindi_speech speech
     /\ Forall playback_event files)
  /\ forall result, fst (result_of m) = Some result ->
                    Audio.audio_target_language result = "hi".
Proof.
  cbv zeta.
  destruct (audio_response_shape X st response_text original_input filename)
    as (_ & _ & H).
  destruct (match tts_processor st with
            | Some P => Some P
            | None => new_tts_processor X
            end) as [P |].
  2: { destruct H as [Ht Hr]. rewrite Ht, Hr. split; [| discriminate].
       exists [], [], []. repeat split; constructor. }
  cbv zeta in H. destruct H as (Hr & files & Ht & Hfiles).
  set (cfg := Recording.translation_config P) in *.
  set (T := Recording.translation_services P) in *.
  set (first := Translate.translate_text cfg T response_text "en" "hi") in *.
  set (hindi_text := if Translate.success (result_of first)
                     then Translate.translated_text (result_of first)
                     else response_text) in *.
  destruct (generate_audio_shape cfg T (Recording.tts P) hindi_text "hi"
              eq_refl) as (Hgen & Hlang & _).
  split.
  - exists (trace_of first
            ++ trace_of (Translate.translate_text cfg T hindi_text "en" "hi")),
           (if Translate.success
                 (result_of (Translate.translate_text cfg T hindi_text "en" "hi"))
            then trace_of (Audio.text_to_speech (Recording.tts P)
                             (Translate.translated_text
                                (result_of (Translate.translate_text
                                              cfg T hindi_text "en" "hi")))
                             "hi")
            else []),
           files.
    rewrite Ht, Hgen, <- !app_assoc. split; [reflexivity |].
    split; [apply Forall_app; split; apply translate_english_to_hindi |].
    split; [| exact Hfiles].
    destruct (Translate.success
                (result_of (Translate.translate_text cfg T hindi_text "en" "hi")));
      [| constructor].
    apply text_to_speech_calls.
  - intros result. rewrite Hr. intros [= <-]. exact Hlang.
Qed.

(** X13.  Delivery is always in Hindi.  Whatever the reply and whatever the
    language of the caller, every translation request that
    [_generate_audio_response] makes is from English to Hindi and every
    TTS request is for Hindi: its trace is translation requests, then
    speech requests, then the two files written for playback; the result
    it hands back names ["hi"] as its target language; and the sets of
    processed transcripts are left as they were. *)
Theorem audio_response_in_hindi X st response_text original_input filename :
  let m := _generate_audio_response X st response_text original_input filename in
  (exists translations speech files,
     trace_of m = translations ++ speech ++ files
     /\ Forall english_to_hindi translations
     /\ Forall hindi_speech speech
     /\ Forall playback_event files)
  /\ (forall result, fst (result_of m) = Some result ->
                     Audio.audio_target_language result = "hi")
  /\ processed_files (snd (result_of m)) = processed_files st
  /\ persisted (snd (result_of m)) = persisted st.
Proof.
  cbv zeta.
  destruct (audio_response_trace X st response_text original_input filename)
    as [H1 H2].
  destruct (audio_response_shape X st response_text original_input filename)
    as (H3 & H4 & _).
  auto.
Qed.

(** X14.  The reply is translated twice.  With a processor at hand,
    [_generate_audio_response] first translates the reply from English to
    Hindi, and then hands the Hindi text to
    [generate_multilingual_audio], which translates it from English to
    Hindi once more: what is spoken is the second translation. *)
Theorem response_translated_twice X st P response_text original_input filename :
  tts_processor st = Some P ->
  let cfg := Recording.translation_config P in
  let T := Recording.translation_services P in
  let first := Translate.translate_text cfg T response_text "en" "hi" in
  let hindi_text :=
    if Translate.success (result_of first)
    then Translate.translated_text (result_of first)
    else response_text in
  let second := Translate.translate_text cfg T hindi_text "en" "hi" in
  let m := _generate_audio_response X st response_text original_input filename in
  (exists rest, trace_of m = trace_of first ++ trace_of second ++ rest)
  /\ forall result,
       fst (result_of m) = Some result ->
       Audio.audio_success result = true ->
       Audio.spoken_text result
       = Some (Translate.translated_text (result_of second)).
Proof.
  intros HP. cbv zeta.
  destruct (audio_response_shape X st response_text original_input filename)
    as (_ & _ & H).
  rewrite HP in H. cbv zeta in H. destruct H as (Hr & files & Ht & _).
  set (cfg := Recording.translation_config P) in *.
  set (T := Recording.translation_services P) in *.
  set (first := Translate.translate_text cfg T response_text "en" "hi") in *.
  set (hindi_text := if Translate.success (result_of first)
                     then Translate.translated_text (result_of first)
                     else response_text) in *.
  destruct (generate_audio_shape cfg T (Recording.tts P) hindi_text "hi"
              eq_refl) as (Hgen & _ & _ & Hok).
  split.
  - eexists. rewrite Ht, Hgen, <- !app_assoc. reflexivity.
  - intros result. rewrite Hr. intros [= <-] Hs.
    destruct (Hok Hs) as (path & _ & _ & Hspoken). exact Hspoken.
Qed.


(** The reply [advice], with providers that prefix the text by the
    target code: what is spoken carries the prefix twice. *)
Lemma response_translated_twice_witness :
  option_map Audio.spoken_text
    (fst (result_of
            (_generate_audio_response
               (Scenario.monitor_world Scenario.tamil_transcript Scenario.ok_reply)
               (init (Scenario.monitor_world Scenario.tamil_transcript
                                             Scenario.ok_reply) ∅)
               Scenario.advice Scenario.cotton_query "a001_transcript.json")))
  = Some (Some (of_ascii "hi:hi:" ++ Scenario.advice)).
Proof.
  pose proof (response_translated_twice
                (Scenario.monitor_world Scenario.tamil_transcript Scenario.ok_reply)
                (init (Scenario.monitor_world Scenario.tamil_transcript
                                              Scenario.ok_reply) ∅)
                (Scenario.processor_with Scenario.providers_up Scenario.stt_hindi)
                Scenario.advice Scenario.cotton_query "a001_transcript.json"
                eq_refl) as [_ H].
  cbv zeta in H.
  set (m := _generate_audio_response _ _ _ _ _) in *.
  assert (Hs : option_map Audio.audio_success (fst (result_of m)) = Some true)
    by (vm_compute; reflexivity).
  destruct (fst (result_of m)) as [r |]; [| discriminate].
  injection Hs as Hs. cbn [option_map]. rewrite (H r eq_refl Hs).
  vm_compute. reflexivity.
Defined.

(** *** Handling a transcript *)

Lemma quiet_app t1 t2 : quiet t1 -> quiet t2 -> quiet (t1 ++ t2).
Proof. intros H1 H2. apply Forall_app. split; assumption. Qed.

Lemma quiet_runs filename t : quiet t -> transcript_runs filename t = 0%nat.
Proof.
  unfold quiet, transcript_runs. induction 1 as [| e t He _ IH]; [reflexivity |].
  destruct e; try discriminate; exact IH.
Qed.

Lemma transcript_runs_app filename t1 t2 :
  transcript_runs filename (t1 ++ t2)
  = (transcript_runs filename t1 + transcript_runs filename t2)%nat.
Proof. unfold transcript_runs. rewrite List.filter_app, length_app. reflexivity. Qed.

Lemma dispatch_quiet E q agents : forall d used,
  quiet (trace_of (Orchestrator.call_required_agents E q agents d used)).
Proof.
  induction agents as [| a rest IH]; intros d used;
    cbn [Orchestrator.call_required_agents].
  - constructor.
  - destruct (Orchestrator.known_agent a); [| apply IH].
    rewrite trace_emit_bind. constructor; [reflexivity |].
    destruct (Orchestrator.specialist E a q "specific"); [| constructor].
    rewrite trace_emit_bind. constructor; [reflexivity | apply IH].
Qed.

Lemma gather_quiet E todo : forall d,
  quiet (trace_of (Orchestrator.gather E todo d)).
Proof.
  induction todo as [| [a query] rest IH]; intros d; cbn [Orchestrator.gather].
  - constructor.
  - rewrite trace_emit_bind. constructor; [reflexivity |].
    destruct (Orchestrator.specialist E a query "generic"); [| constructor].
    rewrite trace_emit_bind. constructor; [reflexivity | apply IH].
Qed.

Lemma orchestrator_quiet E raw phone :
  quiet (trace_of (Orchestrator.process_farmer_request E raw phone)).
Proof.
  unfold Orchestrator.process_farmer_request.
  rewrite trace_bind. apply quiet_app.
  - destruct (String.eqb _ "specific").
    + unfold Orchestrator._execute_specific_pipeline.
      rewrite trace_bind. apply quiet_app; [apply dispatch_quiet |].
      destruct (result_of _) as [[d |] used]; [| constructor].
      rewrite trace_bind. apply quiet_app; [| constructor].
      unfold Orchestrator._synthesize_specific_responses.
      destruct (Orchestrator.farmer_context _); [| constructor].
      rewrite trace_emit_bind. constructor; [reflexivity |].
      destruct (Orchestrator.call_text_llm E _); constructor.
    + unfold Orchestrator._execute_generic_pipeline.
      rewrite trace_bind. apply quiet_app; [apply gather_quiet |].
      rewrite trace_bind. apply quiet_app; [| constructor].
      destruct (result_of _); [destruct (Orchestrator.farmer_context _) |];
        repeat constructor.
  - rewrite trace_bind. apply quiet_app; [| constructor].
    unfold Orchestrator._convert_json_to_english.
    destruct (Orchestrator.farmer_context _); [| constructor].
    destruct (Orchestrator.pipeline_farmer_response _); [constructor |].
    rewrite trace_emit_bind. constructor; [reflexivity |].
    destruct (Orchestrator.call_text_llm E _); constructor.
Qed.

Lemma with_orchestrator_shape X st translated_text filename :
  let m := _process_with_orchestrator X st translated_text filename in
  quiet (trace_of m)
  /\ processed_files (snd (result_of m)) = processed_files st
  /\ persisted (snd (result_of m)) = persisted st.
Proof.
  cbv zeta. unfold _process_with_orchestrator.
  set (st1 := match orchestrator st with Some _ => st | None => _ end).
  assert (Hst : processed_files st1 = processed_files st
                /\ persisted st1 = persisted st).
  { unfold st1. destruct (orchestrator st); split; reflexivity. }
  destruct Hst as [Hp1 Hp2].
  destruct (orchestrator st1) as [E |].
  2: { cbn [trace_of result_of mret M_ret ret fst snd]. repeat split; auto.
       constructor. }
  rewrite trace_bind, result_bind.
  pose proof (orchestrator_quiet E translated_text DEFAULT_PHONE) as Hq.
  destruct (looks_like_error X _).
  - cbn [trace_of result_of mret M_ret ret fst snd]. repeat split; auto.
    apply quiet_app; [exact Hq | constructor].
  - rewrite trace_emit_bind, result_emit_bind.
    cbn [trace_of result_of mret M_ret ret fst snd]. repeat split; auto.
    apply quiet_app; [exact Hq | repeat constructor].
Qed.

Lemma audio_response_quiet X st response_text original_input filename :
  quiet (trace_of (_generate_audio_response X st response_text original_input
                                            filename)).
Proof.
  destruct (audio_response_trace X st response_text original_input filename)
    as [(tr & sp & files & -> & Htr & Hsp & Hfiles) _].
  repeat apply quiet_app.
  - eapply Forall_impl; [exact Htr |]. intros e (s & t & ->). reflexivity.
  - eapply Forall_impl; [exact Hsp |]. intros e (c & ->). reflexivity.
  - eapply Forall_impl; [exact Hfiles |].
    intros e (f & [-> | (a & ->)]); reflexivity.
Qed.

(** What [_process_transcript_file] does with a file it has not
    processed. *)
Lemma process_transcript_shape X st path :
  Path.name path ∉ processed_files st ->
  let filename := Path.name path in
  let m := _process_transcript_file X st path in
  match usable_text X path with
  | None => m = (st, [ProcessTranscript filename])
  | Some _ =>
      (exists rest, trace_of m = ProcessTranscript filename :: rest /\ quiet rest)
      /\ processed_files (result_of m) = {[filename]} ∪ processed_files st
      /\ persisted (result_of m)
         = if save_succeeds X then {[filename]} ∪ processed_files st
           else if log_opened X then ∅ else persisted st
  end.
Proof.
  intros Hnew. cbv zeta. unfold _process_transcript_file, usable_text.
  rewrite bool_decide_eq_false_2 by exact Hnew.
  destruct (_read_transcript_file X path) as [data |]; [| reflexivity].
  destruct (_extract_translated_text data) as [text |]; [| reflexivity].
  destruct (truthy text); cbn [negb]; [| reflexivity].
  rewrite trace_emit_bind, result_emit_bind, trace_bind, result_bind.
  destruct (with_orchestrator_shape X st text (Path.name path))
    as (Hq & Hp1 & Hp2).
  destruct (result_of (_process_with_orchestrator X st text (Path.name path)))
    as [response st1].
  cbn [fst snd] in Hp1, Hp2.
  rewrite trace_bind, result_bind.
  set (inner := match response with Some _ => _ | None => _ end).
  assert (Hin : quiet (trace_of inner)
                /\ processed_files (result_of inner) = processed_files st
                /\ persisted (result_of inner) = persisted st).
  { unfold inner. destruct response as [response |].
    2: { cbn. repeat split; auto. constructor. }
    destruct (truthy response && negb (_is_error_response X response)).
    2: { cbn. repeat split; auto. constructor. }
    rewrite trace_bind, result_bind.
    cbn [trace_of result_of mret M_ret ret fst snd]. rewrite app_nil_r.
    destruct (audio_response_shape X st1 response text (Path.name path))
      as (H1 & H2 & _).
    split; [apply audio_response_quiet |]. split; congruence. }
  destruct Hin as (Hq2 & Hp3 & Hp4).
  cbn [trace_of result_of mret M_ret ret fst snd _save_processed_files
       processed_files persisted].
  rewrite Hp3, Hp4, app_nil_r. repeat split.
  eexists. split; [reflexivity |]. apply quiet_app; assumption.
Qed.


(** X15.  A transcript with usable text is marked processed, whatever became
    of it.  When [_process_transcript_file] meets a file it has not
    processed, whose JSON is readable and yields a non-empty text, it adds
    the file's name to the processed set and writes the log, whether or
    not the orchestrator answered and whether or not audio was generated.
    If the log was written, it holds the processed set and a monitor
    started anew from it knows the name; and a second call on the same
    path does nothing. *)
Theorem transcript_marked_processed X st path text :
  Path.name path ∉ processed_files st ->
  usable_text X path = Some text ->
  let st' := result_of (_process_transcript_file X st path) in
  processed_files st' = {[Path.name path]} ∪ processed_files st
  /\ (save_succeeds X = true -> persisted st' = processed_files st')
  /\ (save_succeeds X = true ->
      Path.name path ∈ processed_files (init X (persisted st')))
  /\ _process_transcript_file X st' path = (st', []).
Proof.
  intros Hnew Husable. cbv zeta.
  pose proof (process_transcript_shape X st path Hnew) as H.
  cbv zeta in H. rewrite Husable in H. destruct H as (_ & Hp & Hs).
  assert (Hin : Path.name path
                  ∈ processed_files (result_of (_process_transcript_file X st path))).
  { rewrite Hp. apply elem_of_union_l, elem_of_singleton. reflexivity. }
  split; [exact Hp |].
  split; [intros Hsave; rewrite Hs, Hp, Hsave; reflexivity |]. split.
  - intros Hsave. cbn [init processed_files]. rewrite Hs, Hsave.
    apply elem_of_union_l, elem_of_singleton. reflexivity.
  - unfold _process_transcript_file at 1.
    rewrite bool_decide_eq_true_2 by exact Hin. reflexivity.
Qed.

(** The transcript of the Tamil caller, met by a fresh monitor whose
    specialists all fail. *)
Lemma transcript_marked_processed_witness :
  let X := Scenario.monitor_world Scenario.tamil_transcript Scenario.failed_reply in
  let st' := result_of (_process_transcript_file X (init X ∅)
                                                 Scenario.a001_transcript) in
  "a001_transcript.json" ∈ processed_files st'
  /\ "a001_transcript.json" ∈ persisted st'.
Proof.
  cbv zeta.
  pose proof (transcript_marked_processed
                (Scenario.monitor_world Scenario.tamil_transcript
                                        Scenario.failed_reply)
                (init (Scenario.monitor_world Scenario.tamil_transcript
                                              Scenario.failed_reply) ∅)
                Scenario.a001_transcript Scenario.cotton_query
                (not_elem_of_empty _) eq_refl) as (Hp & Hs & _).
  cbv zeta in Hp, Hs. split.
  - rewrite Hp. apply elem_of_union_l, elem_of_singleton. reflexivity.
  - rewrite (Hs eq_refl), Hp.
    apply elem_of_union_l, elem_of_singleton. reflexivity.
Defined.

(** X16.  A transcript without usable text is not marked.  When the file
    cannot be read, or its top-level [success] is false, or the text
    extracted from it is empty, [_process_transcript_file] stops after
    announcing the file: the monitor is left as it was, nothing is called,
    and the next event for the file starts over. *)
Theorem unusable_transcript_not_marked X st path :
  Path.name path ∉ processed_files st ->
  usable_text X path = None ->
  _process_transcript_file X st path
  = (st, [ProcessTranscript (Path.name path)]).
Proof.
  intros Hnew Hnone.
  pose proof (process_transcript_shape X st path Hnew) as H.
  cbv zeta in H. rewrite Hnone in H. exact H.
Qed.


(** A transcript file that cannot be read. *)
Lemma unusable_transcript_not_marked_witness :
  _process_transcript_file Cases.unreadable (init Cases.unreadable ∅)
                           Scenario.a001_transcript
  = (init Cases.unreadable ∅, [ProcessTranscript "a001_transcript.json"]).
Proof.
  exact (unusable_transcript_not_marked Cases.unreadable
           (init Cases.unreadable ∅) Scenario.a001_transcript
           (not_elem_of_empty _) eq_refl).
Defined.

(** *** Over the whole run *)

Lemma step_ok_skip filename st : step_ok filename st (mret st).
Proof.
  unfold step_ok. cbn [trace_of result_of mret M_ret ret fst snd].
  change (transcript_runs filename []) with 0%nat.
  repeat split; auto; lia.
Qed.

Lemma step_ok_process X filename st path :
  (forall p, Path.name p = filename -> usable_text X p <> None) ->
  step_ok filename st (_process_transcript_file X st path).
Proof.
  intros Husable.
  destruct (decide (Path.name path ∈ processed_files st)) as [Hin | Hnew].
  { unfold _process_transcript_file.
    rewrite bool_decide_eq_true_2 by exact Hin. apply step_ok_skip. }
  pose proof (process_transcript_shape X st path Hnew) as H. cbv zeta in H.
  unfold step_ok.
  destruct (usable_text X path) as [text |] eqn:Hu.
  - destruct H as ((rest & Ht & Hq) & Hp & _). rewrite Ht, Hp.
    change (ProcessTranscript (Path.name path) :: rest)
      with ([ProcessTranscript (Path.name path)] ++ rest).
    rewrite transcript_runs_app, (quiet_runs filename rest Hq), Nat.add_0_r.
    unfold transcript_runs. cbn [List.filter].
    destruct (String.eqb_spec (Path.name path) filename) as [Heq | Hne];
      cbn [length].
    + split; [apply union_subseteq_r |].
      split; [intros Hin; exfalso; apply Hnew; rewrite Heq; exact Hin |].
      split; [lia |]. intros _. rewrite <- Heq.
      apply elem_of_union_l, elem_of_singleton. reflexivity.
    + split; [apply union_subseteq_r |].
      split; [reflexivity |]. split; lia.
  - rewrite H. cbn [trace_of result_of fst snd].
    unfold transcript_runs. cbn [List.filter].
    destruct (String.eqb_spec (Path.name path) filename) as [Heq | Hne];
      cbn [length].
    + exfalso. apply (Husable path Heq). exact Hu.
    + repeat split; auto; lia.
Qed.

Lemma step_ok_event X filename st e :
  (forall p, Path.name p = filename -> usable_text X p <> None) ->
  step_ok filename st (on_event X st e).
Proof.
  intros Husable. unfold on_event.
  destruct e as [src dir | src dir];
    destruct (negb dir && ends_with_json src); try apply step_ok_skip.
  - apply step_ok_process. exact Husable.
  - destruct (bool_decide _); [apply step_ok_skip |].
    apply step_ok_process. exact Husable.
Qed.

(** Sequencing two computations that each keep the count. *)
Lemma step_ok_bind filename st (m : M state) (k : state -> M state) :
  step_ok filename st m ->
  (forall st', step_ok filename st' (k st')) ->
  step_ok filename st (st' ← m; k st').
Proof.
  intros (Hs & Hz & Hle & Hone) Hk.
  destruct (Hk (result_of m)) as (Hs' & Hz' & Hle' & Hone').
  unfold step_ok. rewrite trace_bind, result_bind, transcript_runs_app.
  split; [etrans; eassumption |].
  split.
  - intros Hin. rewrite (Hz Hin), (Hz' (Hs _ Hin)). reflexivity.
  - destruct (transcript_runs filename (trace_of m)) as [| [| n]] eqn:Hm;
      [| | lia].
    + cbn [Nat.add]. split; assumption.
    + rewrite (Hz' (Hone eq_refl)). split; [lia |].
      intros _. apply Hs', Hone. reflexivity.
Qed.

Lemma process_existing_ok X filename files : forall st,
  (forall p, Path.name p = filename -> usable_text X p <> None) ->
  step_ok filename st (process_existing X st files).
Proof.
  induction files as [| f rest IH]; intros st Husable;
    cbn [process_existing]; [apply step_ok_skip |].
  destruct (bool_decide _); [apply IH; exact Husable |].
  apply step_ok_bind; [apply step_ok_process; exact Husable |].
  intros st'. apply IH. exact Husable.
Qed.

Lemma dispatch_events_ok X filename events : forall st,
  (forall p, Path.name p = filename -> usable_text X p <> None) ->
  step_ok filename st (dispatch_events X st events).
Proof.
  induction events as [| e rest IH]; intros st Husable;
    cbn [dispatch_events]; [apply step_ok_skip |].
  apply step_ok_bind; [apply step_ok_event; exact Husable |].
  intros st'. apply IH. exact Husable.
Qed.

(** X17.  Each transcript is handled at most once.  Over a whole run of
    [monitor_transcripts] (the files found at start-up, then any sequence
    of creation and modification events) the processing of a file name
    whose files have usable text is begun at most once, and never when the
    name was in the log read at start-up. *)
Theorem transcript_handled_at_most_once X disk listing events filename :
  (forall p, Path.name p = filename -> usable_text X p <> None) ->
  let m := monitor_transcripts X true disk listing events in
  (transcript_runs filename (trace_of m) <= 1)%nat
  /\ (filename ∈ disk -> transcript_runs filename (trace_of m) = 0%nat).
Proof.
  intros Husable. cbv zeta. unfold monitor_transcripts. cbn [negb].
  assert (H : step_ok filename (init X disk)
                (st ← process_existing X (init X disk)
                        (List.filter ends_with_json listing);
                 dispatch_events X st events)).
  { apply step_ok_bind; [apply process_existing_ok; exact Husable |].
    intros st'. apply dispatch_events_ok. exact Husable. }
  destruct H as (_ & Hz & Hle & _).
  rewrite !trace_bind in *.
  cbn [trace_of mret M_ret ret snd]. rewrite app_nil_r.
  split; [exact Hle | exact Hz].
Qed.

(** A run that finds the Tamil caller's transcript at start-up and then
    receives a creation and a modification event for it. *)
Lemma transcript_handled_at_most_once_witness :
  (transcript_runs "a001_transcript.json"
     (trace_of (monitor_transcripts
                  (Scenario.monitor_world Scenario.tamil_transcript
                                          Scenario.ok_reply)
                  true ∅ ["a001_transcript.json"]
                  [Created (transcript_file "a001_transcript.json") false;
                   Modified (transcript_file "a001_transcript.json") false]))
   <= 1)%nat.
Proof.
  refine (proj1 (transcript_handled_at_most_once
                   (Scenario.monitor_world Scenario.tamil_transcript
                                           Scenario.ok_reply)
                   ∅ ["a001_transcript.json"]
                   [Created (transcript_file "a001_transcript.json") false;
                    Modified (transcript_file "a001_transcript.json") false]
                   "a001_transcript.json" _)).
  intros p _. discriminate.
Defined.

End MonitorFacts.

(** ** Speech output *)

Module AudioFacts.

Import Audio Observe.

(** X18.  No speech without a translation.  For a target other than English
    [generate_multilingual_audio] asks for speech only after
    [translate_text] succeeded: when the translation fails it reports
    [success = False] with no audio file and makes no TTS request.  For
    English (in any case of the letters) it translates nothing and speaks
    the text as given.  And whenever it reports success, there is an audio
    file and a spoken text. *)
Theorem audio_needs_translation cfg X A text target :
  let m := generate_multilingual_audio cfg X A text target in
  (if String.eqb (lower_id target) "en"
   then trace_of m = trace_of (text_to_speech A text target)
   else Translate.success
          (result_of (Translate.translate_text cfg X text "en" target)) = false ->
        audio_success (result_of m) = false
        /\ audio_file (result_of m) = None
        /\ trace_of m = trace_of (Translate.translate_text cfg X text "en" target))
  /\ (audio_success (result_of m) = true ->
      exists path spoken,
        audio_file (result_of m) = Some path
        /\ spoken_text (result_of m) = Some spoken).
Proof.
  cbv zeta. destruct (String.eqb (lower_id target) "en") eqn:Hen.
  - unfold generate_multilingual_audio. rewrite Hen. cbn [negb].
    unfold mbind, M_bind, bind, mret, M_ret, ret.
    destruct (text_to_speech A text target) as [[path | e] t];
      cbn [trace_of result_of fst snd audio_success audio_file spoken_text
           audio_failure app];
      rewrite ?app_nil_r; (split; [reflexivity |]); [eauto | intros [=]].
  - destruct (MonitorFacts.generate_audio_shape cfg X A text target Hen)
      as (Htr & _ & Hs & Hok).
    split.
    + intros Hfail. rewrite Hfail in *. cbn [andb] in Hs.
      rewrite app_nil_r in Htr. split; [exact Hs |]. split; [| exact Htr].
      unfold generate_multilingual_audio, translate_to_language.
      rewrite Hen. cbn [negb].
      unfold mbind, M_bind, bind, mret, M_ret, ret.
      destruct (Translate.translate_text cfg X text "en" target) as [tr t1].
      cbn [result_of fst] in Hfail. rewrite Hfail. reflexivity.
    + intros Hsucc. destruct (Hok Hsucc) as (path & _ & Hf & Hsp). eauto.
Qed.

(** X19.  A failing chunk ends the synthesis.  When the text is cut into
    several chunks and the provider fails on one of them,
    [text_to_speech] raises that failure: the chunks before it were
    requested in order, the chunks after it are not requested, and no audio
    file is stored. *)
Theorem speech_stops_at_failure A text language before chunk after e :
  Tts._chunk_text_for_tts text Tts.default_max_bytes
  = Some (before ++ chunk :: after) ->
  (1 < length (before ++ chunk :: after))%nat ->
  (forall c, In c before -> synthesize_speech A language c = Returned tt) ->
  synthesize_speech A language chunk = Raised e ->
  text_to_speech A text language
  = (Raised e, map (TtsCall language) (before ++ [chunk])).
Proof.
  intros Hchunks Hlen Hbefore Hfail.
  assert (Hall : synthesize_all A language (before ++ chunk :: after)
                 = (Raised e, map (TtsCall language) (before ++ [chunk]))).
  { clear Hchunks Hlen.
    induction before as [| c before IH]; cbn [app synthesize_all map].
    - rewrite Hfail. reflexivity.
    - rewrite (Hbefore c (or_introl eq_refl)).
      rewrite IH by (intros c' Hin; apply Hbefore; right; exact Hin).
      reflexivity. }
  unfold text_to_speech. rewrite Hchunks.
  destruct (before ++ chunk :: after) as [| c1 [| c2 rest]] eqn:E;
    cbn [length] in Hlen; try lia.
  rewrite Hall. unfold mbind, M_bind, bind, mret, M_ret, ret.
  rewrite app_nil_r. reflexivity.
Qed.

(** A short sentence followed by one of 4501 bytes, with a provider that
    refuses more than 4500 bytes: the first chunk is spoken, the second is
    refused, nothing is stored. *)
Lemma speech_stops_at_failure_witness :
  text_to_speech Cases.tts_strict Scenario.long_second_sentence "hi"
  = (Raised "InvalidArgument",
     [TtsCall "hi" (of_ascii "a."); TtsCall "hi" (repeat 98%N 4501)]).
Proof.
  apply (speech_stops_at_failure Cases.tts_strict Scenario.long_second_sentence
           "hi" [of_ascii "a."] (repeat 98%N 4501) [] "InvalidArgument").
  - vm_compute. reflexivity.
  - cbn. lia.
  - intros c [<- | []]. reflexivity.
  - vm_compute. reflexivity.
Defined.

End AudioFacts.

(** ** From the recording to the monitor *)

Module HandoffFacts.

Import Recording PyStrFacts.

Lemma transcribe_stripped S audio_path :
  strip (transcript (transcribe_audio S audio_path))
  = transcript (transcribe_audio S audio_path).
Proof.
  assert (Ha : forall results,
             strip (transcript (assemble S results))
             = transcript (assemble S results)).
  { intros [| r results]; [reflexivity |]. cbn [assemble transcript].
    apply strip_idem. }
  unfold transcribe_audio, _transcribe_audio_chunked.
  destruct (speech_client S); cbn [negb]; [| reflexivity].
  destruct (read_audio S audio_path) as [[|] | e]; [| | reflexivity].
  - destruct (recognize S audio_path); [apply Ha | reflexivity].
  - destruct (long_running_recognize S audio_path); [apply Ha |].
    destruct (chunk_recognize S audio_path); [| reflexivity].
    cbn [transcript]. apply strip_idem.
Qed.

(** What a successful [process_recording] leaves behind. *)
Lemma process_recording_done P w fs file a :
  fst (result_of (process_recording P w fs file)) = Done a ->
  snd (result_of (process_recording P w fs file))
  = <[transcript_path P file := a]> fs
  /\ file_path a = file
  /\ top_success a = true
  /\ truthy (transcript (transcription_result a)) = true
  /\ strip (transcript (transcription_result a))
     = transcript (transcription_result a).
Proof.
  unfold process_recording.
  rewrite result_emit_bind, result_bind.
  destruct (FileReady.ready _); cbn [negb]; [| cbn; discriminate].
  match goal with
  | |- context [match ?c with Returned _ => _ | Raised _ => _ end] =>
      destruct c as [wav_path | e]
  end; [| cbn; discriminate].
  destruct (truthy (transcript (transcribe_audio (stt P) wav_path))) eqn:Ht;
    cbn [negb]; [| cbn; discriminate].
  rewrite result_bind.
  destruct (transcript_writable P (transcript_path P file)).
  - rewrite result_emit_bind. cbn [result_of mret M_ret ret fst snd].
    intros [= <-]. cbn [file_path top_success transcription_result].
    repeat split; auto. apply transcribe_stripped.
  - cbn. discriminate.
Qed.

(** X20.  Every transcript that is written can be used.  When
    [process_recording] succeeds, the artifact it wrote, read back by the
    monitor, yields a non-empty text: the stripped translation when the
    translation succeeded and is not blank, else the transcript itself.
    So the monitor passes it to the orchestrator. *)
Theorem written_transcript_is_usable P w fs file a X path :
  fst (result_of (process_recording P w fs file)) = Done a ->
  Monitor._read_transcript_file X path = Some a ->
  exists text,
    Observe.usable_text X path = Some text
    /\ truthy text = true
    /\ (text = strip (Translate.translated_text (translation_result a))
        \/ text = transcript (transcription_result a)).
Proof.
  intros Hdone Hread.
  destruct (process_recording_done P w fs file a Hdone)
    as (_ & _ & Htop & Htruthy & Hstrip).
  unfold Observe.usable_text, Monitor._extract_translated_text.
  rewrite Hread, Htop. cbn [negb].
  destruct (Translate.success (translation_result a)); cbn [negb].
  - destruct (truthy (strip (Translate.translated_text (translation_result a))))
      eqn:Ht; cbn [negb].
    + rewrite Ht. eexists. split; [reflexivity |]. split; [exact Ht |].
      left. reflexivity.
    + rewrite Hstrip, Htruthy. eexists. split; [reflexivity |].
      split; [exact Htruthy |]. right. reflexivity.
  - rewrite Htruthy. eexists. split; [reflexivity |].
    split; [exact Htruthy |]. right. reflexivity.
Qed.

(** The recording [a001] of a Hindi caller, processed while the
    providers answer, and read back by the monitor. *)
Lemma written_transcript_is_usable_witness :
  exists text,
    Observe.usable_text
      (Scenario.monitor_world Cases.a001_artifact Scenario.ok_reply)
      Scenario.a001_transcript = Some text
    /\ truthy text = true
    /\ (text = strip (Translate.translated_text
                        (translation_result Cases.a001_artifact))
        \/ text = transcript (transcription_result Cases.a001_artifact)).
Proof.
  apply (written_transcript_is_usable
           (Scenario.processor_with Scenario.providers_up Scenario.stt_hindi)
           Scenario.with_marker ∅ Scenario.a001 Cases.a001_artifact
           (Scenario.monitor_world Cases.a001_artifact Scenario.ok_reply)
           Scenario.a001_transcript).
  - vm_compute. reflexivity.
  - reflexivity.
Defined.

(** X21.  Recordings with the same stem share one transcript file.  The
    transcript is written under the stem of the recording's name, so when
    two recordings whose names differ only in their directory or suffix are
    both processed, the second artifact replaces the first. *)
Theorem same_stem_overwrites P w1 w2 fs f1 f2 a1 a2 :
  Path.stem f1 = Path.stem f2 ->
  fst (result_of (process_recording P w1 fs f1)) = Done a1 ->
  fst (result_of (process_recording P w2
                    (snd (result_of (process_recording P w1 fs f1))) f2))
  = Done a2 ->
  let fs2 := snd (result_of (process_recording P w2
                    (snd (result_of (process_recording P w1 fs f1))) f2)) in
  fs2 !! transcript_path P f1 = Some a2
  /\ file_path a2 = f2
  /\ (f1 <> f2 -> fs2 !! transcript_path P f1 <> Some a1).
Proof.
  intros Hstem H1 H2. cbv zeta.
  destruct (process_recording_done _ _ _ _ _ H1) as (Hfs1 & Hp1 & _).
  destruct (process_recording_done _ _ _ _ _ H2) as (Hfs2 & Hp2 & _).
  rewrite Hfs2.
  assert (Hpath : transcript_path P f2 = transcript_path P f1)
    by (unfold transcript_path; rewrite Hstem; reflexivity).
  rewrite Hpath, lookup_insert_eq.
  split; [reflexivity |]. split; [exact Hp2 |].
  intros Hne [= Heq]. apply Hne. rewrite <- Hp1, <- Hp2, Heq. reflexivity.
Qed.


(** The recording [monitor/a001.wav] and then [archive/a001.mp3]: one
    transcript file, holding the second. *)
Lemma same_stem_overwrites_witness :
  snd (result_of
         (process_recording
            (Scenario.processor_with Scenario.providers_up Scenario.stt_hindi)
            Scenario.with_marker
            (snd (result_of
                    (process_recording
                       (Scenario.processor_with Scenario.providers_up
                                                Scenario.stt_hindi)
                       Scenario.with_marker ∅ Scenario.a001)))
            Cases.a001_mp3))
    !! Scenario.a001_transcript
  = Some Cases.a001_mp3_artifact
  /\ file_path Cases.a001_mp3_artifact = Cases.a001_mp3.
Proof.
  destruct (same_stem_overwrites
              (Scenario.processor_with Scenario.providers_up Scenario.stt_hindi)
              Scenario.with_marker Scenario.with_marker ∅
              Scenario.a001 Cases.a001_mp3
              Cases.a001_artifact Cases.a001_mp3_artifact)
    as (H1 & H2 & _).
  - vm_compute. reflexivity.
  - vm_compute. reflexivity.
  - vm_compute. reflexivity.
  - split; [exact H1 | exact H2].
Defined.

(** X22.  What speech-to-text hands on.  [transcribe_audio] never raises.
    When the client is missing, the file cannot be read, or every
    recognition path that is tried raises (the chunked mode is tried only
    after the long-running one raised), it returns the failure dict: an
    empty transcript, the language ["unknown"] and an error text.  In every
    other case the transcript it returns is stripped and the language is a
    normalised code, or it is that same failure dict. *)
Theorem transcription_shape S audio_path :
  let r := transcribe_audio S audio_path in
  (speech_client S = false
   \/ (exists e, read_audio S audio_path = Raised e)
   \/ (read_audio S audio_path = Returned true
       /\ exists e, recognize S audio_path = Raised e)
   \/ (read_audio S audio_path = Returned false
       /\ (exists e, long_running_recognize S audio_path = Raised e)
       /\ exists e, chunk_recognize S audio_path = Raised e) ->
   exists e, r = stt_failure e)
  /\ ((exists e, r = stt_failure e)
      \/ (stt_error r = None
          /\ strip (transcript r) = transcript r
          /\ _normalize_language_code (language r) = language r)).
Proof.
  cbv zeta. split.
  { apply RecordingFacts.transcribe_audio_all_paths_fail. }
  assert (Ha : forall results,
             (exists e, assemble S results = stt_failure e)
             \/ (stt_error (assemble S results) = None
                 /\ strip (transcript (assemble S results))
                    = transcript (assemble S results)
                 /\ _normalize_language_code (language (assemble S results))
                    = language (assemble S results))).
  { intros [| r results]; [left; eexists; reflexivity |].
    right. cbn [assemble stt_error transcript language].
    split; [reflexivity |]. split; [apply strip_idem |].
    apply LanguageFacts.normalize_fixed. }
  unfold transcribe_audio, _transcribe_audio_chunked.
  destruct (speech_client S); cbn [negb]; [| left; eexists; reflexivity].
  destruct (read_audio S audio_path) as [[|] | e];
    [| | left; eexists; reflexivity].
  - destruct (recognize S audio_path); [apply Ha | left; eexists; reflexivity].
  - destruct (long_running_recognize S audio_path); [apply Ha |].
    destruct (chunk_recognize S audio_path); [| left; eexists; reflexivity].
    right. cbn [stt_error transcript language].
    split; [reflexivity |]. split; [apply strip_idem |].
    apply LanguageFacts.normalize_fixed.
Qed.

(** Every recognition path raises: the failure dict.  The client
    recognises an utterance: a stripped transcript in the language
    ["hi"]. *)
Lemma transcription_shape_witness :
  (exists e, transcribe_audio Scenario.stt_down Scenario.a001 = stt_failure e)
  /\ transcribe_audio Scenario.stt_hindi Scenario.a001
     = {| transcript := Scenario.hindi_utterance; language := "hi";
          stt_error := None |}.
Proof.
  split; [| vm_compute; reflexivity].
  apply (proj1 (transcription_shape Scenario.stt_down Scenario.a001)).
  right. right. right.
  split; [reflexivity |]. split; eexists; reflexivity.
Defined.

End HandoffFacts.

(** ** The orchestrator: a specialist that raises, and the cost of a
       request *)

Module PipelineFacts.

Import Orchestrator Observe Counting.

Lemma dispatch_until_raise E q before agent after e : forall acc used,
  known_agent agent = true ->
  (forall a, In a before -> known_agent a = true ->
             exists r, specialist E a q "specific" = Returned r) ->
  specialist E agent q "specific" = Raised e ->
  let m := call_required_agents E q (before ++ agent :: after) acc used in
  result_of m = (None, used ++ List.filter known_agent before)
  /\ trace_of m
     = flat_map (OrchestratorFacts.call_return "specific")
                (List.filter known_agent before)
       ++ [SpecialistCall agent "specific"].
Proof.
  induction before as [| a before IH]; intros acc used Hk Hret Hraise; cbv zeta.
  - cbn [app call_required_agents List.filter flat_map]. rewrite Hk.
    rewrite result_emit_bind, trace_emit_bind, Hraise, app_nil_r.
    split; reflexivity.
  - cbn [app call_required_agents List.filter].
    destruct (known_agent a) eqn:Hka.
    + destruct (Hret a (or_introl eq_refl) Hka) as [r Hr].
      rewrite result_emit_bind, trace_emit_bind, Hr.
      rewrite result_emit_bind, trace_emit_bind.
      destruct (IH (dict_set acc a r) (used ++ [a]) Hk) as [H1 H2];
        [intros a' Hin; apply Hret; right; exact Hin | exact Hraise |].
      rewrite H1, H2, <- app_assoc. split; reflexivity.
    + apply IH; [exact Hk | | exact Hraise].
      intros a' Hin. apply Hret. right. exact Hin.
Qed.

(** X23.  A specialist that raises ends the specific pipeline.  When the
    specialists listed before it return and it raises, the pipeline reports
    [status = "error"] with no farmer response, the agents used are those
    that returned, and nothing is called after the failing specialist: not
    the specialists listed after it, not the synthesis.  The text
    [process_farmer_request] then returns is the LLM's plain-English
    rendering of that error dict, or the stock sentence when the LLM or the
    farmer context fails. *)
Theorem raising_specialist_ends_specific E raw phone before agent after e :
  let profile := _process_farmer_input E raw phone in
  let q := _extract_query_from_input E raw profile in
  let decision := _classify_pipeline E q profile in
  pipeline_type decision = "specific" ->
  required_agents decision = before ++ agent :: after ->
  known_agent agent = true ->
  (forall a, In a before -> known_agent a = true ->
             exists r, specialist E a q "specific" = Returned r) ->
  specialist E agent q "specific" = Raised e ->
  let m := process_farmer_request E raw phone in
  let calls := flat_map (OrchestratorFacts.call_return "specific")
                        (List.filter known_agent before)
               ++ [SpecialistCall agent "specific"] in
  pipeline_status (snd (result_of m)) = "error"
  /\ pipeline_farmer_response (snd (result_of m)) = None
  /\ agents_used (snd (result_of m)) = List.filter known_agent before
  /\ match farmer_context profile with
     | Returned context =>
         trace_of m = calls ++ [LlmCall "english"]
         /\ fst (result_of m)
            = match call_text_llm E (EnglishPrompt context q) with
              | Returned english_response => strip english_response
              | Raised _ => msg_processed
              end
     | Raised _ => trace_of m = calls /\ fst (result_of m) = msg_processed
     end.
Proof.
  cbv zeta. intros Htype Hreq Hk Hret Hraise.
  unfold process_farmer_request. rewrite Htype. cbn [String.eqb Ascii.eqb Bool.eqb].
  unfold _execute_specific_pipeline. rewrite Hreq.
  destruct (dispatch_until_raise E _ before agent after e [] [] Hk Hret Hraise)
    as [Hres Htr].
  rewrite !trace_bind, !result_bind, Hres, Htr.
  cbn [app List.filter trace_of result_of mret M_ret ret fst snd
       pipeline_status pipeline_farmer_response agents_used].
  split; [reflexivity |]. split; [reflexivity |]. split; [reflexivity |].
  unfold _convert_json_to_english.
  cbn [pipeline_farmer_response comprehensive_strategy].
  destruct (farmer_context _) as [context | msg].
  - rewrite trace_emit_bind, result_emit_bind.
    destruct (call_text_llm E _);
      cbn [trace_of result_of mret M_ret ret fst snd];
      rewrite ?app_nil_r, <- ?app_assoc; split; reflexivity.
  - cbn [trace_of result_of mret M_ret ret fst snd].
    rewrite ?app_nil_r. split; reflexivity.
Qed.


(** The cotton query, classified Specific for weather and pest, with a
    pest specialist that raises. *)
Lemma raising_specialist_ends_specific_witness :
  pipeline_status
    (snd (result_of (process_farmer_request Cases.pest_raises
                       Scenario.cotton_query Monitor.DEFAULT_PHONE)))
  = "error"
  /\ trace_of (process_farmer_request Cases.pest_raises
                 Scenario.cotton_query Monitor.DEFAULT_PHONE)
     = [SpecialistCall "weather" "specific"; SpecialistReturn "weather";
        SpecialistCall "pest" "specific"; LlmCall "english"].
Proof.
  pose proof (raising_specialist_ends_specific Cases.pest_raises
                Scenario.cotton_query Monitor.DEFAULT_PHONE
                ["weather"] "pest" [] "TimeoutError"
                eq_refl eq_refl eq_refl) as H.
  cbv zeta in H.
  destruct H as (H1 & _ & _ & H4).
  - intros a [<- | []] _. eexists. reflexivity.
  - reflexivity.
  - split; [exact H1 |]. exact (proj1 H4).
Defined.

Lemma gather_until_raise E before agent query after e : forall acc,
  (forall a qa, In (a, qa) before ->
                exists r, specialist E a qa "generic" = Returned r) ->
  specialist E agent query "generic" = Raised e ->
  let m := gather E (before ++ (agent, query) :: after) acc in
  result_of m = Raised e
  /\ trace_of m
     = flat_map (OrchestratorFacts.call_return "generic") (map fst before)
       ++ [SpecialistCall agent "generic"].
Proof.
  induction before as [| [a qa] before IH]; intros acc Hret Hraise; cbv zeta.
  - cbn [app gather map flat_map].
    rewrite result_emit_bind, trace_emit_bind, Hraise. split; reflexivity.
  - cbn [app gather map flat_map fst].
    destruct (Hret a qa (or_introl eq_refl)) as [r Hr].
    rewrite result_emit_bind, trace_emit_bind, Hr.
    rewrite result_emit_bind, trace_emit_bind.
    destruct (IH (dict_set acc a r)) as [H1 H2];
      [intros a' qa' Hin; apply Hret; right; exact Hin | exact Hraise |].
    rewrite H1, H2. split; reflexivity.
Qed.

(** X24.  A specialist that raises does not end the generic pipeline.  When
    one of the four specialists raises during the gathering, those after
    it are not called and no strategy is asked of the LLM; the pipeline
    still reports [status = "success"], with all four agents named as used,
    no intelligence, and the strategy of the failure branch.  The text
    returned is then the LLM's plain-English rendering of that dict, or the
    sentence that lists the strategy's keys. *)
Theorem raising_specialist_in_generic E raw phone before agent query after e :
  let profile := _process_farmer_input E raw phone in
  let q := _extract_query_from_input E raw profile in
  let decision := _classify_pipeline E q profile in
  String.eqb (pipeline_type decision) "specific" = false ->
  generic_queries = before ++ (agent, query) :: after ->
  (forall a qa, In (a, qa) before ->
                exists r, specialist E a qa "generic" = Returned r) ->
  specialist E agent query "generic" = Raised e ->
  let m := process_farmer_request E raw phone in
  let calls := flat_map (OrchestratorFacts.call_return "generic") (map fst before)
               ++ [SpecialistCall agent "generic"] in
  let keys := strategy_keys E (Raised "Strategy generation failed") in
  pipeline_status (snd (result_of m)) = "success"
  /\ agents_used (snd (result_of m)) = ["weather"; "soil"; "pest"; "scheme"]
  /\ agent_data (snd (result_of m)) = []
  /\ gather_error (snd (result_of m)) = Some e
  /\ comprehensive_strategy (snd (result_of m)) = Some keys
  /\ match farmer_context profile with
     | Returned context =>
         trace_of m = calls ++ [LlmCall "english"]
         /\ fst (result_of m)
            = match call_text_llm E (EnglishPrompt context q) with
              | Returned english_response => strip english_response
              | Raised _ => msg_strategy keys
              end
     | Raised _ => trace_of m = calls /\ fst (result_of m) = msg_strategy keys
     end.
Proof.
  cbv zeta. intros Htype Hq Hret Hraise.
  unfold process_farmer_request. rewrite Htype.
  unfold _execute_generic_pipeline, _gather_comprehensive_intelligence.
  rewrite Hq.
  destruct (gather_until_raise E before agent query after e [] Hret Hraise)
    as [Hres Htr].
  rewrite !trace_bind, !result_bind, Hres, Htr.
  cbn [trace_of result_of mret M_ret ret fst snd app
       pipeline_status pipeline_farmer_response agents_used agent_data
       gather_error comprehensive_strategy].
  repeat (split; [reflexivity |]).
  unfold _convert_json_to_english.
  cbn [pipeline_farmer_response comprehensive_strategy].
  destruct (farmer_context _) as [context | msg].
  - rewrite trace_emit_bind, result_emit_bind.
    destruct (call_text_llm E _);
      cbn [trace_of result_of mret M_ret ret fst snd];
      rewrite ?app_nil_r, <- ?app_assoc; split; reflexivity.
  - cbn [trace_of result_of mret M_ret ret fst snd].
    rewrite ?app_nil_r. split; reflexivity.
Qed.

(** The same specialists under a Generic classification: the soil
    specialist follows the weather specialist, the pest specialist raises,
    the scheme specialist is not called. *)
Lemma raising_specialist_in_generic_witness :
  pipeline_status
    (snd (result_of (process_farmer_request Cases.generic_pest_raises
                       Scenario.cotton_query Monitor.DEFAULT_PHONE)))
  = "success"
  /\ trace_of (process_farmer_request Cases.generic_pest_raises
                 Scenario.cotton_query Monitor.DEFAULT_PHONE)
     = [SpecialistCall "weather" "generic"; SpecialistReturn "weather";
        SpecialistCall "soil" "generic"; SpecialistReturn "soil";
        SpecialistCall "pest" "generic"; LlmCall "english"].
Proof.
  pose proof (raising_specialist_in_generic Cases.generic_pest_raises
                Scenario.cotton_query Monitor.DEFAULT_PHONE
                (firstn 2 generic_queries) "pest"
                (of_ascii "Provide comprehensive pest management and prevention guidance")
                (skipn 3 generic_queries) "TimeoutError"
                eq_refl eq_refl) as H.
  cbv zeta in H.
  destruct H as (H1 & _ & _ & _ & _ & H6).
  - intros a qa [[= <- <-] | [[= <- <-] | []]]; eexists; reflexivity.
  - reflexivity.
  - split; [exact H1 |]. exact (proj1 H6).
Defined.

(** *** The cost of a request *)

Lemma llm_calls_app t1 t2 :
  llm_calls (t1 ++ t2) = (llm_calls t1 + llm_calls t2)%nat.
Proof. unfold llm_calls. rewrite List.filter_app, length_app. reflexivity. Qed.

Lemma specialist_calls_app t1 t2 :
  specialist_calls (t1 ++ t2)
  = (specialist_calls t1 + specialist_calls t2)%nat.
Proof.
  unfold specialist_calls. rewrite List.filter_app, length_app. reflexivity.
Qed.

Lemma dispatch_cost E q agents : forall acc used,
  let t := trace_of (call_required_agents E q agents acc used) in
  llm_calls t = 0%nat /\ (specialist_calls t <= length agents)%nat.
Proof.
  induction agents as [| a agents IH]; intros acc used; cbv zeta;
    cbn [call_required_agents length].
  - split; [reflexivity | cbn; lia].
  - destruct (known_agent a).
    + rewrite trace_emit_bind.
      destruct (specialist E a q "specific") as [r | e].
      * rewrite trace_emit_bind.
        destruct (IH (dict_set acc a r) (used ++ [a])) as [H1 H2].
        unfold llm_calls, specialist_calls in *. cbn [List.filter is_llm_call length].
        split; [exact H1 | lia].
      * cbn. split; [reflexivity | lia].
    + destruct (IH acc used) as [H1 H2]. split; [exact H1 | lia].
Qed.

Lemma gather_cost E todo : forall acc,
  let t := trace_of (gather E todo acc) in
  llm_calls t = 0%nat /\ (specialist_calls t <= length todo)%nat.
Proof.
  induction todo as [| [a qa] todo IH]; intros acc; cbv zeta;
    cbn [gather length].
  - split; [reflexivity | cbn; lia].
  - rewrite trace_emit_bind.
    destruct (specialist E a qa "generic") as [r | e].
    + rewrite trace_emit_bind.
      destruct (IH (dict_set acc a r)) as [H1 H2].
      unfold llm_calls, specialist_calls in *. cbn [List.filter is_llm_call length].
      split; [exact H1 | lia].
    + cbn. split; [reflexivity | lia].
Qed.

Lemma convert_cost E resp q profile :
  let t := trace_of (_convert_json_to_english E resp q profile) in
  (llm_calls t <= match pipeline_farmer_response resp with
                  | Some _ => 0
                  | None => 1
                  end)%nat
  /\ specialist_calls t = 0%nat.
Proof.
  cbv zeta. unfold _convert_json_to_english.
  destruct (farmer_context profile).
  - destruct (pipeline_farmer_response resp); [cbn; split; [lia | reflexivity] |].
    rewrite trace_emit_bind. destruct (call_text_llm E _); cbn; split; (lia || reflexivity).
  - destruct (pipeline_farmer_response resp); cbn; split; (lia || reflexivity).
Qed.

(** X25.  What one request costs.  Once the query is classified,
    [process_farmer_request] calls each specialist at most once per entry of
    the list (at most four times in the generic pipeline) and calls the LLM
    at most once in the specific pipeline (for the synthesis, or else for
    the plain-English rendering) and at most twice in the generic one. *)
Theorem request_cost_bound E raw phone :
  let profile := _process_farmer_input E raw phone in
  let q := _extract_query_from_input E raw profile in
  let decision := _classify_pipeline E q profile in
  let t := trace_of (process_farmer_request E raw phone) in
  if String.eqb (pipeline_type decision) "specific"
  then (llm_calls t <= 1)%nat
       /\ (specialist_calls t <= length (required_agents decision))%nat
  else (llm_calls t <= 2)%nat /\ (specialist_calls t <= 4)%nat.
Proof.
  cbv zeta. unfold process_farmer_request.
  set (profile := _process_farmer_input E raw phone).
  set (q := _extract_query_from_input E raw profile).
  set (decision := _classify_pipeline E q profile).
  rewrite !trace_bind, ?result_bind.
  cbn [trace_of mret M_ret ret snd]. rewrite app_nil_r.
  rewrite llm_calls_app, specialist_calls_app.
  destruct (String.eqb (pipeline_type decision) "specific").
  - destruct (convert_cost E (result_of (_execute_specific_pipeline E q profile decision))
                q profile) as [Hc1 Hc2].
    rewrite Hc2. revert Hc1.
    unfold _execute_specific_pipeline.
    rewrite trace_bind, result_bind, llm_calls_app, specialist_calls_app.
    destruct (dispatch_cost E q (required_agents decision) [] []) as [Hd1 Hd2].
    rewrite Hd1.
    destruct (result_of (call_required_agents E q (required_agents decision) [] []))
      as [[d |] used].
    + rewrite trace_bind, result_bind.
      cbn [trace_of result_of mret M_ret ret fst snd pipeline_farmer_response].
      rewrite app_nil_r. unfold _synthesize_specific_responses.
      destruct (farmer_context profile).
      * rewrite trace_emit_bind. destruct (call_text_llm E _); cbn; lia.
      * cbn. lia.
    + cbn [trace_of result_of mret M_ret ret fst snd pipeline_farmer_response].
      cbn. lia.
  - destruct (convert_cost E (result_of (_execute_generic_pipeline E q profile decision))
                q profile) as [Hc1 Hc2].
    rewrite Hc2.
    assert (Hc : (llm_calls (trace_of (_convert_json_to_english E
                     (result_of (_execute_generic_pipeline E q profile decision))
                     q profile)) <= 1)%nat).
    { destruct (pipeline_farmer_response _); lia. }
    clear Hc1. revert Hc.
    generalize (llm_calls (trace_of (_convert_json_to_english E
                  (result_of (_execute_generic_pipeline E q profile decision))
                  q profile))).
    intros n Hn.
    unfold _execute_generic_pipeline, _gather_comprehensive_intelligence.
    rewrite !trace_bind, ?result_bind, !llm_calls_app, !specialist_calls_app.
    destruct (gather_cost E generic_queries []) as [Hg1 Hg2].
    rewrite Hg1. cbn [length generic_queries] in Hg2.
    cbn [trace_of mret M_ret ret snd].
    set (g := gather E generic_queries []) in *. clearbody g.
    destruct (result_of g); [destruct (farmer_context profile) |];
      cbn; lia.
Qed.

End PipelineFacts.

(** ** Classification of the query *)

Module ClassifyFacts.

Import Classify.

(** X26.  The agents inferred from the query.  [_infer_required_agents] never
    returns an empty list: it returns some of the four specialists, each
    once, in the order weather, soil, pest, scheme, every one of them a
    name the dispatch knows.  And whenever the fallback classification
    answers "specific", the list is the one matched from the keywords. *)
Theorem inferred_agents_known lower farmer_query :
  let agents := _infer_required_agents lower farmer_query in
  agents <> []
  /\ sublist agents ["weather"; "soil"; "pest"; "scheme"]
  /\ Forall (fun a => Orchestrator.known_agent a = true) agents
  /\ (_intelligent_pipeline_fallback lower farmer_query = "specific" ->
      agents = matched_agents (lower farmer_query)).
Proof.
  cbv zeta.
  unfold _infer_required_agents, _intelligent_pipeline_fallback, matched_agents.
  generalize (lower farmer_query). intros query_lower.
  destruct (any_keyword ["weather"; "rain"; "irrigation"; "temperature"]
                        query_lower) eqn:Hw;
    destruct (any_keyword ["soil"; "fertilizer"; "nutrient"] query_lower) eqn:Hs;
    destruct (any_keyword ["pest"; "insect"; "disease"; "weed"] query_lower)
      eqn:Hp;
    destruct (any_keyword ["scheme"; "subsidy"; "loan"; "government"]
                          query_lower) eqn:Hc;
    cbn [app];
    (split; [discriminate |]);
    (split; [repeat constructor |]);
    (split; [repeat constructor |]);
    try (intros _; reflexivity).
  unfold any_keyword in *. cbn [existsb] in *.
  repeat match goal with
         | H : _ || _ = false |- _ => apply orb_false_iff in H; destruct H
         end.
  repeat match goal with
         | H : contains _ query_lower = false |- _ => rewrite H; clear H
         end.
  discriminate.
Qed.

(** X27.  The decision is always well formed.  Whatever the LLM replied and
    whatever the farmer context, [_classify_pipeline] returns a
    [pipeline_type] that is "specific" or "generic"; a generic decision
    always carries ["required_agents"] = "all"; a specific decision is only
    ever made on a JSON object of the LLM, and when that object names no
    agents the list is the non-empty one inferred from the query. *)
Theorem classification_well_formed lower farmer_query farmer_context reply :
  let d := _classify_pipeline lower farmer_query farmer_context reply in
  (decision_type d = "specific" \/ decision_type d = "generic")
  /\ (decision_type d = "generic" -> decision_agents d = AgentText "all")
  /\ (decision_type d = "specific" ->
      exists context object,
        farmer_context = Returned context /\ reply = ReplyObject object
        /\ match reply_agents object with
           | Some agents => decision_agents d = agents
           | None =>
               decision_agents d
               = AgentList (map Some (_infer_required_agents lower farmer_query))
           end).
Proof.
  cbv zeta. unfold _classify_pipeline.
  destruct farmer_context as [context | msg].
  2: { cbn. split; [right; reflexivity |]. split; [reflexivity | discriminate]. }
  destruct reply as [| | | object]; cbn [_parse_json_response];
    try (cbn; split; [right; reflexivity |];
         split; [reflexivity | discriminate]).
  set (ty := match match reply_type object with
                   | Some v => v
                   | None => TypeText (_intelligent_pipeline_fallback
                                         lower farmer_query)
                   end with
             | TypeText s =>
                 if String.eqb s "specific" || String.eqb s "generic" then s
                 else "generic"
             | TypeOther => "generic"
             end).
  assert (Hty : ty = "specific" \/ ty = "generic").
  { unfold ty.
    destruct (match reply_type object with Some v => v | None => _ end)
      as [s |]; [| right; reflexivity].
    destruct (String.eqb s "specific") eqn:E1; cbn [orb].
    - left. apply String.eqb_eq. exact E1.
    - destruct (String.eqb s "generic") eqn:E2; right;
        [apply String.eqb_eq; exact E2 | reflexivity]. }
  clearbody ty.
  destruct Hty as [-> | ->]; cbn [String.eqb Ascii.eqb Bool.eqb].
  - destruct (reply_agents object) as [agents |] eqn:Ha;
      cbn [decision_type decision_agents];
      (split; [left; reflexivity |]); (split; [discriminate |]);
      intros _; exists context, object; rewrite Ha; repeat split.
  - cbn [decision_type decision_agents].
    split; [right; reflexivity |]. split; [reflexivity | discriminate].
Qed.

End ClassifyFacts.

(** ** The file watcher: what a scan reports *)

Module ScanFacts.

Import Fetcher Observe.

Lemma process_all_count sc files : forall st,
  List.NoDup files ->
  (forall p, In p files -> p ∉ processed_files st) ->
  let r := result_of (process_all sc st files) in
  size (processed_files (snd r)) = (size (processed_files st) + fst r)%nat
  /\ (fst r <= length files)%nat
  /\ persisted (snd r) = persisted st.
Proof.
  induction files as [| x files IH]; intros st Hnd Hnew; cbv zeta;
    cbn [process_all].
  - cbn. split; [lia | split; [lia | reflexivity]].
  - rewrite result_bind.
    destruct (FetcherFacts.process_audio_file_spec sc st x) as (_ & Hp & Hs & _).
    destruct (result_of (process_audio_file sc st x)) as [ok st1].
    cbn [fst snd] in *.
    rewrite result_bind.
    inversion Hnd as [| ? ? Hx Hnd']; subst.
    assert (Hx' : x ∉ processed_files st) by (apply Hnew; left; reflexivity).
    assert (Hnew1 : forall p, In p files -> p ∉ processed_files st1).
    { intros p Hin.
      assert (Hp0 : p ∉ processed_files st) by (apply Hnew; right; exact Hin).
      destruct ok; [destruct Hs as [Hs _] |]; rewrite Hs; [| exact Hp0].
      rewrite not_elem_of_union, not_elem_of_singleton.
      split; [| exact Hp0]. intros ->. contradiction. }
    destruct (IH st1 Hnd' Hnew1) as (Hsize & Hle & Hper).
    destruct (result_of (process_all sc st1 files)) as [n st2].
    cbn [fst snd result_of mret M_ret ret length] in *.
    split; [| split; [destruct ok; lia | congruence]].
    rewrite Hsize.
    destruct ok; [destruct Hs as [Hs _] |]; rewrite Hs; [| reflexivity].
    rewrite size_union by (apply disjoint_singleton_l; exact Hx').
    rewrite size_singleton. lia.
Qed.

(** X28.  The count a scan returns is the number of files it recorded.  Over
    a listing that names each path once, the number [fetch_files_once]
    returns is the number of paths it added to the processed set, and is at
    most the number of new audio files found; and when it found any and the
    log could be written, the log holds the whole processed set. *)
Theorem fetched_count_is_growth sc st :
  List.NoDup (listing sc) ->
  let r := result_of (fetch_files_once sc st) in
  size (processed_files (snd r)) = (size (processed_files st) + fst r)%nat
  /\ (fst r <= length (find_new_audio_files sc st))%nat
  /\ (find_new_audio_files sc st <> [] -> save_succeeds sc = true ->
      persisted (snd r) = processed_files (snd r)).
Proof.
  intros Hnd. cbv zeta. unfold fetch_files_once.
  destruct (FetcherFacts.find_new_audio_files_spec sc st) as [Hnew Hnd'].
  specialize (Hnd' Hnd).
  destruct (find_new_audio_files sc st) as [| x files] eqn:Hfiles.
  - cbn. split; [lia |]. split; [lia |]. intros H. contradiction.
  - rewrite result_bind.
    destruct (process_all_count sc (x :: files) st Hnd')
      as (Hsize & Hle & _).
    { intros p Hin. apply Hnew. exact Hin. }
    destruct (result_of (process_all sc st (x :: files))) as [n st1].
    cbn [fst snd result_of mret M_ret ret save_processed_files
         processed_files persisted] in *.
    split; [exact Hsize |]. split; [exact Hle |].
    intros _ ->. reflexivity.
Qed.

(** A scan that finds the finished recording [a001] while the services
    answer: one file, one new entry. *)
Lemma fetched_count_is_growth_witness :
  fst (result_of (fetch_files_once Scenario.working_scan Scenario.fresh))
  = 1%nat
  /\ size (processed_files
             (snd (result_of (fetch_files_once Scenario.working_scan
                                               Scenario.fresh))))
     = 1%nat.
Proof.
  assert (Hc : fst (result_of (fetch_files_once Scenario.working_scan
                                                Scenario.fresh)) = 1%nat)
    by (vm_compute; reflexivity).
  split; [exact Hc |].
  destruct (fetched_count_is_growth Scenario.working_scan Scenario.fresh)
    as (H & _).
  - cbn. constructor; [intros [] | constructor].
  - rewrite H, Hc. reflexivity.
Defined.

End ScanFacts.

(** ** Delivery and the processed-files log ([transcript_monitor.py]) *)

Module DeliveryFacts.

Import Monitor Observe Watcher Notions.

(** *** What the orchestrator leaves in the trace *)









(** C9 (as the code has it).  For every text and every language code
    [L], [translate_text(text, L, L)] returns the text unchanged, with
    [success = True], and calls no provider.  The delivery does not come
    by this case: [_generate_audio_response] never reads the detected
    language and asks for ["en"] to ["hi"], twice.  With a processor at
    hand (its own, or one it could construct) its trace begins with the
    requests of these two translations and the text that is spoken is the
    outcome of the second, whatever the reply of the orchestrator was;
    without one nothing is delivered. *)
Theorem identity_only_for_equal_codes (cfg : Translate.config)
    (T : Translate.externals) (text : pystr) (L : string)
    X st response_text original_input filename :
  (result_of (Translate.translate_text cfg T text L L)
   = {| Translate.translated_text := text; Translate.source_language := L;
        Translate.target_language := L; Translate.success := true;
        Translate.service_used := Some "no_translation_needed" |}
   /\ trace_of (Translate.translate_text cfg T text L L) = []
   /\ Translate.translated_text
        (result_of (Translate.translate_text cfg T text L L)) = text
   /\ Translate.success (result_of (Translate.translate_text cfg T text L L))
      = true)
  /\ (let m := _generate_audio_response X st response_text original_input
                                        filename in
      match match tts_processor st with
            | Some P => Some P
            | None => new_tts_processor X
            end with
      | None => trace_of m = [] /\ fst (result_of m) = None
      | Some P =>
          let first :=
            Translate.translate_text (Recording.translation_config P)
              (Recording.translation_services P) response_text "en" "hi" in
          let hindi_text :=
            if Translate.success (result_of first)
            then Translate.translated_text (result_of first)
            else response_text in
          let second :=
            Translate.translate_text (Recording.translation_config P)
              (Recording.translation_services P) hindi_text "en" "hi" in
          (exists rest, trace_of m = trace_of first ++ trace_of second ++ rest)
          /\ forall result,
               fst (result_of m) = Some result ->
               Audio.audio_success result = true ->
               Audio.spoken_text result
               = Some (Translate.translated_text (result_of second))
               /\ Audio.audio_target_language result = "hi"
      end).
Proof.
  split; [apply TranslateFacts.translate_same_language |].
  cbv zeta.
  destruct (MonitorFacts.audio_response_shape X st response_text original_input
              filename) as (_ & _ & H).
  destruct (match tts_processor st with
            | Some P => Some P
            | None => new_tts_processor X
            end) as [P |] eqn:HP.
  2: { exact H. }
  cbv zeta in H. destruct H as (Hr & files & Ht & _).
  set (cfgP := Recording.translation_config P) in *.
  set (TP := Recording.translation_services P) in *.
  set (first := Translate.translate_text cfgP TP response_text "en" "hi") in *.
  set (hindi_text := if Translate.success (result_of first)
                     then Translate.translated_text (result_of first)
                     else response_text) in *.
  destruct (MonitorFacts.generate_audio_shape cfgP TP (Recording.tts P)
              hindi_text "hi" eq_refl) as (Hgen & Hlang & _ & Hok).
  split.
  - eexists. rewrite Ht, Hgen, <- !app_assoc. reflexivity.
  - intros result. rewrite Hr. intros [= <-] Hs.
    destruct (Hok Hs) as (path & _ & _ & Hspoken).
    split; [exact Hspoken | exact Hlang].
Qed.
(** C9 (as stated, against the code).  The transcript of a Hindi caller:
    the detected language is the language of the delivery, ["hi"].  The
    orchestrator answers [advice]; what is spoken is not [advice] but what
    the provider made of it, twice over. *)
Lemma hindi_caller_hears_translation :
  Recording.language (Recording.transcription_result Cases.hindi_transcript)
  = response_target_lang
  /\ In (TtsCall "hi" (of_ascii "hi:hi:" ++ Scenario.advice))
        (trace_of (_process_transcript_file
                     (Scenario.monitor_world Cases.hindi_transcript
                                             Scenario.ok_reply)
                     (init (Scenario.monitor_world Cases.hindi_transcript
                                                   Scenario.ok_reply) ∅)
                     Scenario.a001_transcript))
  /\ ~ (option_map Audio.spoken_text
          (fst (result_of
                  (_generate_audio_response
                     (Scenario.monitor_world Cases.hindi_transcript
                                             Scenario.ok_reply)
                     (init (Scenario.monitor_world Cases.hindi_transcript
                                                   Scenario.ok_reply) ∅)
                     Scenario.advice Scenario.cotton_query
                     "a001_transcript.json")))
        = Some (Some Scenario.advice)).
Proof.
  split; [reflexivity |]. split; [vm_compute; tauto |].
  vm_compute. discriminate.
Qed.

(** *** Marking a transcript *)

(** A name that is in the processed set is not begun, and stays in the
    set. *)
Lemma known_name_skipped X filename st path :
  filename ∈ processed_files st ->
  transcript_runs filename (trace_of (_process_transcript_file X st path))
  = 0%nat
  /\ filename ∈ processed_files (result_of (_process_transcript_file X st path)).
Proof.
  intros Hin.
  destruct (decide (Path.name path ∈ processed_files st)) as [Hp | Hnew].
  { unfold _process_transcript_file.
    rewrite bool_decide_eq_true_2 by exact Hp. split; [reflexivity | exact Hin]. }
  assert (Hne : String.eqb (Path.name path) filename = false).
  { apply String.eqb_neq. intros Heq. apply Hnew. rewrite Heq. exact Hin. }
  pose proof (MonitorFacts.process_transcript_shape X st path Hnew) as H.
  cbv zeta in H.
  destruct (usable_text X path) as [text |].
  - destruct H as ((rest & Ht & Hq) & Hp & _). rewrite Ht, Hp.
    change (ProcessTranscript (Path.name path) :: rest)
      with ([ProcessTranscript (Path.name path)] ++ rest).
    rewrite MonitorFacts.transcript_runs_app,
            (MonitorFacts.quiet_runs filename rest Hq), Nat.add_0_r.
    unfold transcript_runs. cbn [List.filter]. rewrite Hne.
    split; [reflexivity | apply elem_of_union_r; exact Hin].
  - rewrite H. cbn [trace_of result_of fst snd].
    unfold transcript_runs. cbn [List.filter]. rewrite Hne.
    split; [reflexivity | exact Hin].
Qed.

Lemma known_name_event X filename st e :
  filename ∈ processed_files st ->
  transcript_runs filename (trace_of (on_event X st e)) = 0%nat
  /\ filename ∈ processed_files (result_of (on_event X st e)).
Proof.
  intros Hin. unfold on_event.
  destruct e as [src dir | src dir];
    destruct (negb dir && ends_with_json src);
    try (split; [reflexivity | exact Hin]).
  - apply known_name_skipped. exact Hin.
  - destruct (bool_decide _); [split; [reflexivity | exact Hin] |].
    apply known_name_skipped. exact Hin.
Qed.

Lemma known_name_events X filename events : forall st,
  filename ∈ processed_files st ->
  transcript_runs filename (trace_of (dispatch_events X st events)) = 0%nat
  /\ filename ∈ processed_files (result_of (dispatch_events X st events)).
Proof.
  induction events as [| e rest IH]; intros st Hin; cbn [dispatch_events].
  - split; [reflexivity | exact Hin].
  - destruct (known_name_event X filename st e Hin) as [H0 Hin'].
    destruct (IH _ Hin') as [H1 Hin''].
    rewrite trace_bind, result_bind, MonitorFacts.transcript_runs_app, H0, H1.
    split; [reflexivity | exact Hin''].
Qed.

Lemma known_name_existing X filename files : forall st,
  filename ∈ processed_files st ->
  transcript_runs filename (trace_of (process_existing X st files)) = 0%nat
  /\ filename ∈ processed_files (result_of (process_existing X st files)).
Proof.
  induction files as [| f rest IH]; intros st Hin; cbn [process_existing].
  - split; [reflexivity | exact Hin].
  - destruct (bool_decide _); [apply IH; exact Hin |].
    destruct (known_name_skipped X filename st (transcript_file f) Hin)
      as [H0 Hin'].
    destruct (IH _ Hin') as [H1 Hin''].
    rewrite trace_bind, result_bind, MonitorFacts.transcript_runs_app, H0, H1.
    split; [reflexivity | exact Hin''].
Qed.

(** A name in the log read at start-up is not begun in that run. *)
Lemma logged_name_not_begun X disk listing events filename :
  filename ∈ disk ->
  transcript_runs filename
    (trace_of (monitor_transcripts X true disk listing events)) = 0%nat.
Proof.
  intros Hin. unfold monitor_transcripts. cbn [negb].
  destruct (known_name_existing X filename
              (List.filter ends_with_json listing) (init X disk) Hin)
    as [H0 Hin'].
  destruct (known_name_events X filename events _ Hin') as [H1 _].
  rewrite !trace_bind, !MonitorFacts.transcript_runs_app, H0, H1.
  reflexivity.
Qed.

(** C10 (as the code has it).  A transcript file that the monitor has
    not processed and whose text is usable has its name added to the
    processed set, whether or not the orchestrator answered and whether or
    not audio was generated, and no later event of this run begins it
    again.  The log on disk holds the name only if it could be written: a
    failed write is caught and logged.  If it was written, a monitor
    started from the log (in any surroundings) does not begin the name
    either.  A file that cannot be read, or yields no text, leaves the
    monitor as it was and is begun again by the next event. *)
Theorem marked_after_processing X st path :
  Path.name path ∉ processed_files st ->
  let filename := Path.name path in
  let m := _process_transcript_file X st path in
  match usable_text X path with
  | Some _ =>
      processed_files (result_of m) = {[filename]} ∪ processed_files st
      /\ (forall events,
            transcript_runs filename
              (trace_of (dispatch_events X (result_of m) events)) = 0%nat)
      /\ (save_succeeds X = true ->
          persisted (result_of m) = processed_files (result_of m)
          /\ forall Y listing events,
               transcript_runs filename
                 (trace_of (monitor_transcripts Y true (persisted (result_of m))
                                                listing events)) = 0%nat)
      /\ (save_succeeds X = false ->
          persisted (result_of m)
          = if log_opened X then ∅ else persisted st)
  | None =>
      m = (st, [ProcessTranscript filename])
      /\ transcript_runs filename
           (trace_of (_process_transcript_file X (result_of m) path)) = 1%nat
  end.
Proof.
  intros Hnew. cbv zeta.
  pose proof (MonitorFacts.process_transcript_shape X st path Hnew) as H.
  cbv zeta in H.
  destruct (usable_text X path) as [text |] eqn:Hu.
  - destruct H as (_ & Hp & Hs).
    assert (Hin : Path.name path
                    ∈ processed_files
                        (result_of (_process_transcript_file X st path))).
    { rewrite Hp. apply elem_of_union_l, elem_of_singleton. reflexivity. }
    split; [exact Hp |]. split; [| split].
    + intros events. apply known_name_events. exact Hin.
    + intros Hsave. rewrite Hsave in Hs.
      assert (Hper : persisted (result_of (_process_transcript_file X st path))
                     = processed_files
                         (result_of (_process_transcript_file X st path)))
        by (rewrite Hs, Hp; reflexivity).
      split; [exact Hper |].
      intros Y listing events. apply logged_name_not_begun.
      rewrite Hper. exact Hin.
    + intros Hsave. rewrite Hsave in Hs. exact Hs.
  - split; [exact H |]. rewrite H. cbn [result_of fst].
    pose proof (MonitorFacts.process_transcript_shape X st path Hnew) as H'.
    cbv zeta in H'. rewrite Hu in H'. rewrite H'.
    cbn [trace_of snd]. unfold transcript_runs. cbn [List.filter].
    rewrite String.eqb_refl. reflexivity.
Qed.

(** The transcript of the Tamil caller, met by a fresh monitor whose
    specialists all fail: the name is marked, and the two events that
    follow do not begin it again. *)
Lemma marked_after_processing_witness :
  "a001_transcript.json"
    ∈ processed_files
        (result_of (_process_transcript_file
                      (Scenario.monitor_world Scenario.tamil_transcript
                                              Scenario.failed_reply)
                      (init (Scenario.monitor_world Scenario.tamil_transcript
                                                    Scenario.failed_reply) ∅)
                      Scenario.a001_transcript))
  /\ transcript_runs "a001_transcript.json"
       (trace_of (dispatch_events
                    (Scenario.monitor_world Scenario.tamil_transcript
                                            Scenario.failed_reply)
                    (result_of (_process_transcript_file
                                  (Scenario.monitor_world
                                     Scenario.tamil_transcript
                                     Scenario.failed_reply)
                                  (init (Scenario.monitor_world
                                           Scenario.tamil_transcript
                                           Scenario.failed_reply) ∅)
                                  Scenario.a001_transcript))
                    [Created Scenario.a001_transcript false;
                     Modified Scenario.a001_transcript false])) = 0%nat.
Proof.
  pose proof (marked_after_processing
                (Scenario.monitor_world Scenario.tamil_transcript
                                        Scenario.failed_reply)
                (init (Scenario.monitor_world Scenario.tamil_transcript
                                              Scenario.failed_reply) ∅)
                Scenario.a001_transcript (not_elem_of_empty _)) as H.
  cbv zeta in H.
  change (usable_text _ Scenario.a001_transcript)
    with (Some Scenario.cotton_query) in H.
  destruct H as (Hp & Hruns & _). split.
  - rewrite Hp. apply elem_of_union_l, elem_of_singleton. reflexivity.
  - apply Hruns.
Defined.

(** C10 (as stated, against the code).  The log cannot be written: the
    transcript is handled and marked in memory, the failure of the write is
    swallowed, the name is not on disk, and a monitor started anew begins
    the same transcript again. *)
Lemma unsaved_transcript_is_repeated :
  "a001_transcript.json"
    ∈ processed_files
        (result_of (_process_transcript_file Cases.write_refused
                      (init Cases.write_refused ∅) Scenario.a001_transcript))
  /\ ~ ("a001_transcript.json"
          ∈ persisted
              (result_of (_process_transcript_file Cases.write_refused
                            (init Cases.write_refused ∅)
                            Scenario.a001_transcript)))
  /\ ~ (transcript_runs "a001_transcript.json"
          (trace_of (monitor_transcripts Cases.write_refused true
                       (persisted
                          (result_of (_process_transcript_file
                                        Cases.write_refused
                                        (init Cases.write_refused ∅)
                                        Scenario.a001_transcript)))
                       ["a001_transcript.json"] [])) = 0%nat).
Proof.
  pose proof (MonitorFacts.process_transcript_shape Cases.write_refused
                (init Cases.write_refused ∅) Scenario.a001_transcript
                (not_elem_of_empty _)) as H.
  cbv zeta in H.
  change (usable_text _ Scenario.a001_transcript)
    with (Some Scenario.cotton_query) in H.
  destruct H as (_ & Hp & Hs).
  change (persisted (result_of (_process_transcript_file Cases.write_refused
                                  (init Cases.write_refused ∅)
                                  Scenario.a001_transcript)) = ∅) in Hs.
  split; [rewrite Hp; apply elem_of_union_l, elem_of_singleton; reflexivity |].
  rewrite Hs. split; [apply not_elem_of_empty |].
  vm_compute. discriminate.
Qed.

End DeliveryFacts.
